(** * Retention and space reclamation of the pebble-backed message queue

    A shallow embedding of [internal/mq/mqimpl/pebblemq/server/pebblemq_retention.go]
    together with the parts of Go's standard library and of the key-value
    facade that it calls, followed by the properties of the retention engine
    established against that embedding. *)

From Stdlib Require Import ZArith Lia Ascii String List.
From stdpp Require Import base option list sorting gmap strings.

Local Open Scope string_scope.
Local Open Scope Z_scope.

(** ** Go's [int64]: two's-complement arithmetic on 64 bits *)

Module Int64.
Definition min : Z := - 2 ^ 63.
Definition max : Z := 2 ^ 63 - 1.

Definition inRange (z : Z) : Prop := min <= z <= max.

(** The representative of [z] modulo [2^64] that lies in [min .. max]. *)
Definition wrap (z : Z) : Z := (z + 2 ^ 63) mod 2 ^ 64 - 2 ^ 63.

Definition add (a b : Z) : Z := wrap (a + b).
Definition sub (a b : Z) : Z := wrap (a - b).
Definition mul (a b : Z) : Z := wrap (a * b).
End Int64.

(** ** Errors

    Go's [error] values that the retention code can return, kept structured;
    [errorString] renders the text of [err.Error()]. *)

Inductive error : Type :=
| ErrSyntax (fn input : string)        (* strconv: invalid syntax *)
| ErrRange (fn input : string)         (* strconv: value out of range *)
| ErrInvalidPageID (key : string)      (* parsePageID: key is not title/topic/page *)
| ErrTopicNotExist (topic : string)    (* cleanData: no entry in topicMu *)
| ErrGetMutexFailed (topic : string)   (* cleanData: entry is not a *sync.Mutex *)
| ErrKV (msg : string).                (* failure reported by the store *)

Definition errorString (e : error) : string :=
  match e with
  | ErrSyntax fn input =>
      "strconv." +:+ fn +:+ ": parsing " +:+ input +:+ ": invalid syntax"
  | ErrRange fn input =>
      "strconv." +:+ fn +:+ ": parsing " +:+ input +:+ ": value out of range"
  | ErrInvalidPageID key => "Invalid page id " +:+ key +:+ " "
  | ErrTopicNotExist topic => "topic name = " +:+ topic +:+ " not exist"
  | ErrGetMutexFailed topic => "get mutex failed, topic name = " +:+ topic
  | ErrKV msg => msg
  end.

(** A Go result pair [(v, err)]: either a value with a nil error, or an error. *)
Inductive result (A : Type) : Type :=
| Ok (a : A)
| Err (e : error).
Arguments Ok {A} a.
Arguments Err {A} e.

Definition bind {A B : Type} (r : result A) (k : A -> result B) : result B :=
  match r with
  | Ok a => k a
  | Err e => Err e
  end.

Notation "x <- r ;; k" := (bind r (fun x => k))
  (at level 100, r at next level, right associativity, only parsing).

(** ** [strconv]: base-10 formatting and parsing of [int64] *)

Module strconv.

Definition digitChar (d : Z) : ascii := ascii_of_N (48 + Z.to_N d).

(** Digits of a non-negative number, most significant first. *)
Fixpoint formatDigits (fuel : nat) (n : Z) (acc : string) : string :=
  match fuel with
  | O => acc
  | S fuel' =>
      let acc' := String (digitChar (n mod 10)) acc in
      if n / 10 =? 0 then acc' else formatDigits fuel' (n / 10) acc'
  end.

(** [strconv.FormatInt(n, 10)]; an [int64] has at most 19 digits. *)
Definition FormatInt (n : Z) : string :=
  if n <? 0 then String "-" (formatDigits 20 (- n) "")
  else formatDigits 20 n "".

Definition digitVal (c : ascii) : option Z :=
  let v := Z.of_N (N_of_ascii c) in
  if (48 <=? v) && (v <=? 57) then Some (v - 48) else None.

(** Value of a string of decimal digits; [None] on any other byte. *)
Fixpoint parseDigits (s : string) (acc : Z) : option Z :=
  match s with
  | EmptyString => Some acc
  | String c s' =>
      match digitVal c with
      | Some d => parseDigits s' (acc * 10 + d)
      | None => None
      end
  end.

(** [strconv.ParseInt(s, 10, 64)]: optional sign, at least one digit,
    value within [int64]. *)
Definition ParseInt (s : string) : result Z :=
  match s with
  | EmptyString => Err (ErrSyntax "ParseInt" s)
  | String c s' =>
      let neg := Ascii.eqb c "-" in
      let body := if neg || Ascii.eqb c "+" then s' else s in
      match body with
      | EmptyString => Err (ErrSyntax "ParseInt" s)
      | _ =>
          match parseDigits body 0 with
          | None => Err (ErrSyntax "ParseInt" s)
          | Some un =>
              if negb neg && (2 ^ 63 <=? un) then Err (ErrRange "ParseInt" s)
              else if neg && (2 ^ 63 <? un) then Err (ErrRange "ParseInt" s)
              else Ok (if neg then - un else un)
          end
      end
  end.

End strconv.

(** ** [strings.Split] and [path.Join] *)

Module strings.

(** [strings.Split(s, sep)] for a one-byte separator: the pieces between
    separators, in order; there is always at least one piece. *)
Fixpoint Split (s : string) (sep : ascii) : list string :=
  match s with
  | EmptyString => [EmptyString]
  | String c s' =>
      if Ascii.eqb c sep then EmptyString :: Split s' sep
      else
        match Split s' sep with
        | piece :: pieces => String c piece :: pieces
        | [] => [String c EmptyString]
        end
  end.

Fixpoint Join (elems : list string) (sep : string) : string :=
  match elems with
  | [] => ""
  | [e] => e
  | e :: rest => e +:+ sep +:+ Join rest sep
  end.

End strings.

Module path.

(** One step of [path.Clean] on a path element; [out] is the stack of
    elements written so far, innermost first. An element [".."] removes
    the last real element when there is one, is kept in front of a path
    that is not rooted, and is dropped at the root. *)
Definition cleanStep (rooted : bool) (out : list string) (elem : string)
  : list string :=
  if String.eqb elem "" then out
  else if String.eqb elem "." then out
  else if String.eqb elem ".." then
    match out with
    | top :: out' =>
        if String.eqb top ".." then elem :: out else out'
    | [] => if rooted then out else [elem]
    end
  else elem :: out.

(** [path.Clean]: the shortest path equivalent to [p]. *)
Definition Clean (p : string) : string :=
  match p with
  | EmptyString => "."
  | String c _ =>
      let rooted := Ascii.eqb c "/" in
      let out := fold_left (cleanStep rooted) (strings.Split p "/") [] in
      let body := strings.Join (rev out) "/" in
      if rooted then String "/" body
      else if String.eqb body "" then "." else body
  end.

(** [path.Join(elem...)]: empty elements are ignored, the rest is joined
    with slashes and cleaned; the result is empty when every element is. *)
Definition Join (elems : list string) : string :=
  match List.filter (fun e => negb (String.eqb e "")) elems with
  | [] => ""
  | es => Clean (strings.Join es "/")
  end.

End path.

(** ** [typeutil.AddOne] *)

Module typeutil.

(** Modelled from the spec: [typeutil.AddOne] (package [pkg/util/typeutil])
    is not among the sources at hand. The successor used as the exclusive
    upper bound of a prefix scan: the right-most byte is incremented, or a
    zero byte is appended when the string ends in the maximum byte. The
    empty string has no byte to increment and is returned as it is. *)
Fixpoint AddOne (data : string) : string :=
  match data with
  | EmptyString => EmptyString
  | String c EmptyString =>
      if (N_of_ascii c =? 255)%N then String c (String Ascii.zero EmptyString)
      else String (ascii_of_N (N_of_ascii c + 1)) EmptyString
  | String c rest => String c (AddOne rest)
  end.

End typeutil.

(** ** The key-value facade over the embedded store *)

Module pebblekv.

(** The facade ([internal/kv/pebble]) and the store under it are not among
    the sources at hand; what follows is their contract. A store is a finite
    map from keys to values, both byte strings. *)

(** Byte-wise order of the keys of two entries. *)
Definition entryLe (a b : string * string) : Prop := String.le a.1 b.1.

Global Instance entryLe_dec : RelDecision entryLe.
Proof. intros a b. unfold entryLe. apply _. Defined.

(** Modelled from the spec: the iterator of the store, which is missing
    here; it meets the entries in ascending byte-wise (lexicographic) order
    of their keys. *)
Definition entries (m : gmap string string) : list (string * string) :=
  merge_sort entryLe (map_to_list m).

(** Modelled from the spec: membership of a key in the half-open range
    from [lo] to [hi], [hi] excluded, that iterator bounds and range deletes
    of the missing store use. *)
Definition inRange (lo hi k : string) : bool :=
  String.leb lo k && String.ltb k hi.

(** Modelled from the spec: [NewPebbleIteratorWithUpperBound] and [Seek] of
    the missing facade; the entries met by [Seek(lo)] followed by [Next]
    until the iterator with exclusive upper bound [hi] is no longer
    [Valid]. *)
Definition SeekUpTo (m : gmap string string) (lo hi : string)
  : list (string * string) :=
  List.filter (fun e => inRange lo hi e.1) (entries m).

(** Modelled from the spec: [SeekToLast] of the missing facade; the entry
    under the greatest key, [None] when the iterator is not [Valid], that is
    when the store is empty. *)
Definition SeekToLast (m : gmap string string) : option (string * string) :=
  last (entries m).

(** Modelled from the spec: [Load] of the missing facade; it returns the
    empty string for an absent key, which is not an error. *)
Definition Load (m : gmap string string) (key : string) : string :=
  default "" (m !! key).

Inductive batchOp : Type :=
| OpDeleteRange (lo hi : string).

(** Modelled from the spec: [DeleteRange] of the missing store; it removes
    the keys from [lo] to [hi], [hi] excluded. *)
Definition DeleteRange (lo hi : string) (m : gmap string string)
  : gmap string string :=
  filter (fun e => inRange lo hi e.1 = false) m.

Definition applyOp (m : gmap string string) (op : batchOp)
  : gmap string string :=
  match op with
  | OpDeleteRange lo hi => DeleteRange lo hi m
  end.

(** Modelled from the spec: the effect of a committed batch of the missing
    store; all of its operations, in the order they were added. *)
Definition applyBatch (b : list batchOp) (m : gmap string string)
  : gmap string string :=
  fold_left applyOp b m.

(** Modelled from the spec: [LoadWithPrefix] of the missing facade; the keys
    and the values of the entries whose key starts with [prefix], as the
    iterator meets them. *)
Definition LoadWithPrefix (m : gmap string string) (prefix : string)
  : list string * list string :=
  let found := List.filter (fun e => String.prefix prefix e.1) (entries m) in
  (map fst found, map snd found).

End pebblekv.

(** ** Configuration, registry and engine state *)

(** The values [retention] and the expiry predicates read from
    [params.PebblemqCfg]. The conversions from the floating-point number of
    minutes are taken as given: [RetentionTimeSeconds] is
    [int64(RetentionTimeInMinutes.GetAsFloat() * 60)] and [CheckTimeSeconds]
    is [int64(RetentionTimeInMinutes.GetAsFloat() * 60 / 10)]. The
    conversion drops the fraction, so that a configured number of minutes
    between [-1/60] and 0 gives 0 seconds, which is not negative. *)
Record PebblemqCfg : Type := {
  RetentionTimeSeconds : Z;
  CheckTimeSeconds : Z;
  RetentionSizeInMB : Z
}.

(** Const value that used to convert unit *)
Definition MB : Z := 1024 * 1024.

Inductive store : Type := DataKV | MetaKV.

(** What the engine asks of the outside world, in program order: batches
    that were committed, compactions that were requested, warnings logged. *)
Inductive event : Type :=
| EvCommit (s : store) (b : list pebblekv.batchOp)
| EvCompact (s : store) (start : option string) (limit : string) (force : bool)
| EvWarn (e : error).

(** A value held by the registry [topicMu], a [sync.Map] of [any]. *)
Inductive lockEntry : Type := MutexEntry | OtherEntry.

(** [db] is [ri.db] (message payloads), [kv] is [ri.kv] (bookkeeping),
    [topicRetetionTime] maps a topic to its last retention time. *)
Record State : Type := {
  db : gmap string string;
  kv : gmap string string;
  topicMu : gmap string lockEntry;
  topicRetetionTime : gmap string Z;
  events : list event
}.

(** The two scans of the bookkeeping store: that of
    [calculateTopicAckedSize] and that of [expiredCleanUp]. *)
Inductive reader : Type := AckedSizeScan | ExpiredScan.

(** What the stores refuse: the commits that fail, per topic; the calls
    [ri.kv.Load(key)] that return an error, per scan and key; and the
    iterators that fail, per scan and topic: [Some (n, err)] when a read
    fails after the iterator has yielded [n] entries, so that it stops being
    [Valid] there and [pageIter.Err()] reports [err]. *)
Record Faults : Type := {
  dataCommitErr : string -> option error;
  metaCommitErr : string -> option error;
  loadErr : reader -> string -> option error;
  iterErr : reader -> string -> option (nat * error)
}.

Definition noFaults : Faults :=
  {| dataCommitErr := fun _ => None; metaCommitErr := fun _ => None;
     loadErr := fun _ _ => None; iterErr := fun _ _ => None |}.

(** No read of the bookkeeping store fails. *)
Definition readsOk (faults : Faults) : Prop :=
  (forall site key, loadErr faults site key = None) /\
  (forall site topic, iterErr faults site topic = None).

Definition setStore (s : store) (m : gmap string string) (st : State) : State :=
  match s with
  | DataKV => {| db := m; kv := kv st; topicMu := topicMu st;
                 topicRetetionTime := topicRetetionTime st; events := events st |}
  | MetaKV => {| db := db st; kv := m; topicMu := topicMu st;
                 topicRetetionTime := topicRetetionTime st; events := events st |}
  end.

Definition getStore (s : store) (st : State) : gmap string string :=
  match s with DataKV => db st | MetaKV => kv st end.

Definition emit (ev : event) (st : State) : State :=
  {| db := db st; kv := kv st; topicMu := topicMu st;
     topicRetetionTime := topicRetetionTime st; events := events st ++ [ev] |}.

Definition setRetentionTime (topic : string) (ts : Z) (st : State) : State :=
  {| db := db st; kv := kv st; topicMu := topicMu st;
     topicRetetionTime := <[topic := ts]> (topicRetetionTime st);
     events := events st |}.

(** Modelled from the spec: [Commit] of a batch of the missing store; it is
    atomic, so that on failure the store is as before. *)
Definition Commit (s : store) (fault : option error) (b : list pebblekv.batchOp)
    (st : State) : result unit * State :=
  match fault with
  | Some e => (Err e, st)
  | None =>
      (Ok tt, emit (EvCommit s b) (setStore s (pebblekv.applyBatch b (getStore s st)) st))
  end.

(** ** Keys of the bookkeeping store *)

(** The key titles, [constructKey] and [parsePageID] are declared in a file
    that is not among the sources at hand. Keys are
    [page_msg_size/{topic}/{pageID}], [page_ts/{topic}/{pageID}],
    [acked_ts/{topic}/{pageID}] and [topic_id/{topic}]. *)

(** Modelled from the spec: the missing constant [TopicIDTitle]. *)
Definition TopicIDTitle : string := "topic_id/".

(** Modelled from the spec: the missing constant [PageMsgSizeTitle]. *)
Definition PageMsgSizeTitle : string := "page_msg_size/".

(** Modelled from the spec: the missing constant [PageTsTitle]. *)
Definition PageTsTitle : string := "page_ts/".

(** Modelled from the spec: the missing constant [AckedTsTitle]. *)
Definition AckedTsTitle : string := "acked_ts/".

(** Modelled from the spec: the missing [constructKey]; a key starts with
    its title, which ends in a slash, followed by the topic. *)
Definition constructKey (metaName topic : string) : string := metaName +:+ topic.

(** Modelled from the spec: the missing [parsePageID]; a page key has the
    three components title, topic and page, the last one a decimal [int64],
    and is malformed otherwise. *)
Definition parsePageID (key : string) : result Z :=
  match strings.Split key "/" with
  | [_; _; page] => strconv.ParseInt page
  | _ => Err (ErrInvalidPageID key)
  end.

(** ** The retention engine ([pebblemq_retention.go]) *)

Section Retention.

(** The configuration, the reading of [time.Now().Unix()] during a pass,
    and the commits and the reads that fail. *)
Variable cfg : PebblemqCfg.
Variable now : Z.
Variable faults : Faults.

Definition msgTimeExpiredCheck (ackedTs : Z) : bool :=
  let retentionSeconds := RetentionTimeSeconds cfg in
  if retentionSeconds <? 0 then false
  else Int64.add ackedTs retentionSeconds <? now.

Definition msgSizeExpiredCheck (deletedAckedSize ackedSize : Z) : bool :=
  let size := RetentionSizeInMB cfg in
  if size <? 0 then false
  else Int64.mul size MB <? Int64.sub ackedSize deletedAckedSize.

(** Modelled from the spec: [ri.kv.Load(key)] of the missing facade, called
    in the scan [site]; the error of the store when the read fails, and
    otherwise the value, empty for an absent key, which is not an error. *)
Definition kvLoad (site : reader) (meta : gmap string string) (key : string)
  : result string :=
  match loadErr faults site key with
  | Some err => Err err
  | None => Ok (pebblekv.Load meta key)
  end.

(** Modelled from the spec: the entries that the iterator of the missing
    facade yields in the scan [site] of [topic] before it stops being
    [Valid]; all the entries [all] within its bounds, or the first [n] of
    them when a read fails after [n] entries. *)
Definition iterEntries (site : reader) (topic : string)
    (all : list (string * string)) : list (string * string) :=
  match iterErr faults site topic with
  | Some (n, _) => take n all
  | None => all
  end.

(** Modelled from the spec: what [pageIter.Err()] returns once that
    iterator is no longer [Valid]; its terminal error, which is distinct
    from exhaustion. *)
Definition iterError (site : reader) (topic : string) : option error :=
  match iterErr faults site topic with
  | Some (_, err) => Some err
  | None => None
  end.

(** The loop of [calculateTopicAckedSize] over the pages that the iterator
    still yields, followed by the test of [pageIter.Err()]; [iterEnd] is the
    error that the iterator reports when it has stopped being [Valid]. After
    a [break] the iterator is still [Valid] and reports no error. *)
Fixpoint ackedSizeLoop (meta : gmap string string) (fixedAckedTsKey : string)
    (iterEnd : option error) (pages : list (string * string)) (ackedSize : Z)
  : result Z :=
  match pages with
  | [] =>
      match iterEnd with
      | Some err => Err err
      | None => Ok ackedSize
      end
  | (key, val) :: rest =>
      pageID <- parsePageID key ;;
      (* check if page is acked *)
      let ackedTsKey := fixedAckedTsKey +:+ "/" +:+ strconv.FormatInt pageID in
      ackedTsVal <- kvLoad AckedSizeScan meta ackedTsKey ;;
      (* not acked yet, break *)
      if String.eqb ackedTsVal "" then Ok ackedSize
      else
        (* Get page size *)
        size <- strconv.ParseInt val ;;
        ackedSizeLoop meta fixedAckedTsKey iterEnd rest (Int64.add ackedSize size)
  end.

Definition calculateTopicAckedSize (meta : gmap string string) (topic : string)
  : result Z :=
  let fixedAckedTsKey := constructKey AckedTsTitle topic in
  let pageMsgPrefix := constructKey PageMsgSizeTitle topic +:+ "/" in
  (* ensure the iterator won't iterate to other topics *)
  let pageIter :=
    iterEntries AckedSizeScan topic
      (pebblekv.SeekUpTo meta pageMsgPrefix (typeutil.AddOne pageMsgPrefix)) in
  ackedSizeLoop meta fixedAckedTsKey (iterError AckedSizeScan topic) pageIter 0.

(** The local variables that the two loops of [expiredCleanUp] update. *)
Record passVars : Type := {
  deletedAckedSize : Z;
  pageCleaned : Z;
  pageEndID : Z;
  lastAck : Z
}.

Definition passVars0 : passVars :=
  {| deletedAckedSize := 0; pageCleaned := 0; pageEndID := 0; lastAck := 0 |}.

(** The first loop of [expiredCleanUp] (expiry by retention time),
    followed by the test of [pageIter.Err()]. It returns where the iterator
    stands when the loop is left: a [break] leaves it on the page that
    caused it, still [Valid] and without an error; [iterEnd] is the error
    that the iterator reports when it has stopped being [Valid]. *)
Fixpoint timeLoop (meta : gmap string string) (fixedAckedTsKey : string)
    (iterEnd : option error) (pages : list (string * string)) (v : passVars)
  : result (list (string * string) * passVars) :=
  match pages with
  | [] =>
      match iterEnd with
      | Some err => Err err
      | None => Ok ([], v)
      end
  | (pKey, pValue) :: rest =>
      pageID <- parsePageID pKey ;;
      let ackedTsKey := fixedAckedTsKey +:+ "/" +:+ strconv.FormatInt pageID in
      ackedTsVal <- kvLoad ExpiredScan meta ackedTsKey ;;
      (* not acked page *)
      if String.eqb ackedTsVal "" then Ok (pages, v)
      else
        ackedTs <- strconv.ParseInt ackedTsVal ;;
        if msgTimeExpiredCheck ackedTs then
          size <- strconv.ParseInt pValue ;;
          timeLoop meta fixedAckedTsKey iterEnd rest
            {| deletedAckedSize := Int64.add (deletedAckedSize v) size;
               pageCleaned := Int64.add (pageCleaned v) 1;
               pageEndID := pageID;
               lastAck := ackedTs |}
        else
          Ok (pages,
              {| deletedAckedSize := deletedAckedSize v;
                 pageCleaned := pageCleaned v;
                 pageEndID := pageEndID v;
                 lastAck := ackedTs |})
  end.

(** The second loop of [expiredCleanUp] (expiry by retained size), on the
    same iterator, followed by the second test of [pageIter.Err()]. *)
Fixpoint sizeLoop (totalAckedSize : Z) (iterEnd : option error)
    (pages : list (string * string)) (v : passVars) : result passVars :=
  match pages with
  | [] =>
      match iterEnd with
      | Some err => Err err
      | None => Ok v
      end
  | (pKey, pValue) :: rest =>
      size <- strconv.ParseInt pValue ;;
      let curDeleteSize := Int64.add (deletedAckedSize v) size in
      if msgSizeExpiredCheck curDeleteSize totalAckedSize then
        pageID <- parsePageID pKey ;;
        sizeLoop totalAckedSize iterEnd rest
          {| deletedAckedSize := Int64.add (deletedAckedSize v) size;
             pageCleaned := Int64.add (pageCleaned v) 1;
             pageEndID := pageID;
             lastAck := lastAck v |}
      else Ok v
  end.

(** Both loops of [expiredCleanUp], from the creation of the iterator to
    the test of [pageEndID]. *)
Definition expiredScan (meta : gmap string string) (topic : string)
    (totalAckedSize : Z) : result passVars :=
  let fixedAckedTsKey := constructKey AckedTsTitle topic in
  let pageMsgPrefix := constructKey PageMsgSizeTitle topic +:+ "/" in
  let pageIter :=
    iterEntries ExpiredScan topic
      (pebblekv.SeekUpTo meta pageMsgPrefix (typeutil.AddOne pageMsgPrefix)) in
  let iterEnd := iterError ExpiredScan topic in
  match timeLoop meta fixedAckedTsKey iterEnd pageIter passVars0 with
  | Err e => Err e
  | Ok (pageIter', v) => sizeLoop totalAckedSize iterEnd pageIter' v
  end.

(** DeleteMessages in pebble by range of [startID, endID) *)
Definition DeleteMessages (topic : string) (startID endID : Z) (st : State)
  : result unit * State :=
  let startKey := path.Join [topic; strconv.FormatInt startID] in
  let endKey := path.Join [topic; strconv.FormatInt (Int64.add endID 1)] in
  Commit DataKV (dataCommitErr faults topic)
    [pebblekv.OpDeleteRange startKey endKey] st.

Definition cleanData (topic : string) (pageEndID : Z) (st : State)
  : result unit * State :=
  let pageMsgPrefix := constructKey PageMsgSizeTitle topic in
  let fixedAckedTsKey := constructKey AckedTsTitle topic in
  let pageStartIDKey := pageMsgPrefix +:+ "/" in
  let pageEndIDKey :=
    pageMsgPrefix +:+ "/" +:+ strconv.FormatInt (Int64.add pageEndID 1) in
  let pageTsPrefix := constructKey PageTsTitle topic in
  let pageTsStartIDKey := pageTsPrefix +:+ "/" in
  let pageTsEndIDKey :=
    pageTsPrefix +:+ "/" +:+ strconv.FormatInt (Int64.add pageEndID 1) in
  let ackedStartIDKey := fixedAckedTsKey +:+ "/" in
  let ackedEndIDKey :=
    fixedAckedTsKey +:+ "/" +:+ strconv.FormatInt (Int64.add pageEndID 1) in
  let writeBatch :=
    [pebblekv.OpDeleteRange pageStartIDKey pageEndIDKey;
     pebblekv.OpDeleteRange pageTsStartIDKey pageTsEndIDKey;
     pebblekv.OpDeleteRange ackedStartIDKey ackedEndIDKey] in
  match topicMu st !! topic with
  | None => (Err (ErrTopicNotExist topic), st)
  | Some OtherEntry => (Err (ErrGetMutexFailed topic), st)
  | Some MutexEntry =>
      match DeleteMessages topic 0 pageEndID st with
      | (Err e, st1) => (Err e, st1)
      | (Ok _, st1) => Commit MetaKV (metaCommitErr faults topic) writeBatch st1
      end
  end.

(** expiredCleanUp check message retention by page:
    1. check acked timestamp of each page id, if expired, the whole page is expired;
    2. check acked size from the last unexpired page id;
    3. delete acked info by range of page id;
    4. delete message by range of page id; *)
Definition expiredCleanUp (topic : string) (st : State) : result unit * State :=
  (* calculate total acked size, simply add all page info *)
  match calculateTopicAckedSize (kv st) topic with
  | Err e => (Err e, st)
  | Ok totalAckedSize =>
      (* Quick Path, No page to check *)
      if totalAckedSize =? 0 then (Ok tt, st)
      else
        match expiredScan (kv st) topic totalAckedSize with
        | Err e => (Err e, st)
        | Ok v =>
            if pageEndID v =? 0 then (Ok tt, st)
            else cleanData topic (pageEndID v) st
        end
  end.

(** The test [lastRetentionTs+checkTime < timeNow] of [retention]. *)
Definition due (timeNow lastRetentionTs : Z) : bool :=
  let checkTime := CheckTimeSeconds cfg in
  Int64.add lastRetentionTs checkTime <? timeNow.

(** The callback that [retention] passes to [topicRetetionTime.Range] on a
    tick of the retention ticker, [timeNow] being the time of the tick. *)
Definition retentionVisit (timeNow : Z) (st : State) (entry : string * Z)
  : State :=
  let '(topic, lastRetentionTs) := entry in
  if due timeNow lastRetentionTs then
    let '(r, st1) := expiredCleanUp topic st in
    let st2 := match r with
               | Err e => emit (EvWarn e) st1
               | Ok _ => st1
               end in
    setRetentionTime topic timeNow st2
  else st.

(** [case t := <-ticker.C] of [retention]. *)
Definition retentionTick (timeNow : Z) (st : State) : State :=
  fold_left (retentionVisit timeNow) (map_to_list (topicRetetionTime st)) st.

End Retention.

(** One store's share of [case <-compactionTicker.C]: seek to the last
    entry and, when the iterator is valid, request the compaction. *)
Definition compactStore (s : store) (st : State) : State :=
  match pebblekv.SeekToLast (getStore s st) with
  | Some (_, value) => emit (EvCompact s None (typeutil.AddOne value) true) st
  | None => st
  end.

(** [case <-compactionTicker.C] of [retention]: compact pebble db, then
    compact pebble kv. *)
Definition compactionTick (st : State) : State :=
  compactStore MetaKV (compactStore DataKV st).

(** ** Concrete engine states used as test inputs *)

Definition mkState (data meta : list (string * string))
    (locks : list (string * lockEntry)) (times : list (string * Z)) : State :=
  {| db := list_to_map data; kv := list_to_map meta;
     topicMu := list_to_map locks; topicRetetionTime := list_to_map times;
     events := [] |}.

(** Retention after one minute, no size quota; recheck every six seconds. *)
Definition cfgTimeOnly : PebblemqCfg :=
  {| RetentionTimeSeconds := 60; CheckTimeSeconds := 6; RetentionSizeInMB := -1 |}.

(** Retention after one minute and a size quota of zero megabytes. *)
Definition cfgTimeAndSize : PebblemqCfg :=
  {| RetentionTimeSeconds := 60; CheckTimeSeconds := 6; RetentionSizeInMB := 0 |}.

(** A store whose last data key is [T/1], holding the payload [hello]. *)
Definition stCompact : State :=
  mkState [("T/1", "hello")] [("page_ts/T/1", "17")] [("T", MutexEntry)] [("T", 0)].

(** Topic [T] with page 0 only, acked at time 0 and long expired at 1000. *)
Definition stPageZero : State :=
  mkState [("T/0", "m0")]
          [("page_msg_size/T/0", "100"); ("page_ts/T/0", "0"); ("acked_ts/T/0", "0")]
          [("T", MutexEntry)] [("T", 0)].

(** Topic [T] whose only page has a size that is not a number. *)
Definition stBadSize : State :=
  mkState [("T/1", "m1")]
          [("page_msg_size/T/1", "x"); ("acked_ts/T/1", "5")]
          [("T", MutexEntry)] [("T", 0)].

(** Topic [T] with pages 2, 9 and 10, all acked at time 0. *)
Definition stMixedWidth : State :=
  mkState [("T/2", "m2"); ("T/9", "m9"); ("T/10", "m10")]
          [("page_msg_size/T/2", "100"); ("page_ts/T/2", "0"); ("acked_ts/T/2", "0");
           ("page_msg_size/T/9", "100"); ("page_ts/T/9", "0"); ("acked_ts/T/9", "0");
           ("page_msg_size/T/10", "100"); ("page_ts/T/10", "0"); ("acked_ts/T/10", "0")]
          [("T", MutexEntry)] [("T", 0)].

(** Topic [T] with page 1 acked at time 0 and page 10 not acked. *)
Definition stUnackedTen : State :=
  mkState [("T/1", "m1"); ("T/10", "m10")]
          [("page_msg_size/T/1", "100"); ("page_ts/T/1", "0"); ("acked_ts/T/1", "0");
           ("page_msg_size/T/10", "100"); ("page_ts/T/10", "900")]
          [("T", MutexEntry)] [("T", 0)].

(** Topic [T] with page 2 acked (5 bytes) and page 10 not acked (7 bytes). *)
Definition stTwoThenTen : State :=
  mkState [("T/2", "m2"); ("T/10", "m10")]
          [("page_msg_size/T/2", "5"); ("acked_ts/T/2", "990");
           ("page_msg_size/T/10", "7")]
          [("T", MutexEntry)] [("T", 0)].

(** Topic [T] with page 1 acked recently (at 990) and page 2 acked long ago
    (at 0): the acks did not arrive in page order. *)
Definition stLateAck : State :=
  mkState [("T/1", "m1"); ("T/2", "m2")]
          [("page_msg_size/T/1", "5"); ("acked_ts/T/1", "990");
           ("page_msg_size/T/2", "5"); ("acked_ts/T/2", "0")]
          [("T", MutexEntry)] [("T", 0)].

(** Topic [T] with pages 1, 2 and 3 of 5 bytes, acked in order at 100, 990
    and 995; topic [U] with one page. *)
Definition stOrderly : State :=
  mkState [("T/1", "m1"); ("T/2", "m2"); ("T/3", "m3"); ("U/1", "u1")]
          [("page_msg_size/T/1", "5"); ("page_ts/T/1", "90"); ("acked_ts/T/1", "100");
           ("page_msg_size/T/2", "5"); ("page_ts/T/2", "980"); ("acked_ts/T/2", "990");
           ("page_msg_size/T/3", "5"); ("page_ts/T/3", "985"); ("acked_ts/T/3", "995");
           ("page_msg_size/U/1", "5"); ("acked_ts/U/1", "100")]
          [("T", MutexEntry); ("U", MutexEntry)] [("T", 0); ("U", 0)].

(** The empty topic name next to topic [1]. *)
Definition stEmptyTopic : State :=
  mkState [("1/5", "m5"); ("3", "e3")] [] [("", MutexEntry); ("1", MutexEntry)] [].

(** Every commit to the message store on behalf of [T] is refused. *)
Definition faultsData : Faults :=
  {| dataCommitErr := fun _ => Some (ErrKV "pebble: closed");
     metaCommitErr := fun _ => None;
     loadErr := fun _ _ => None; iterErr := fun _ _ => None |}.

(** ** The topic a key belongs to *)

Fixpoint hasByte (c : ascii) (s : string) : bool :=
  match s with
  | EmptyString => false
  | String c' s' => Ascii.eqb c' c || hasByte c s'
  end.

(** The topic component of a bookkeeping key [title/topic/page]: the piece
    between the first slash and the second. *)
Definition metaKeyTopic (key : string) : option string :=
  match strings.Split key "/" with
  | _ :: topic :: _ => Some topic
  | _ => None
  end.

(** The topic component of a message key [topic/seqID]: the piece before the
    first slash. *)
Definition dataKeyTopic (key : string) : option string :=
  match strings.Split key "/" with
  | topic :: _ :: _ => Some topic
  | _ => None
  end.

Fixpoint allBytes (P : ascii -> bool) (s : string) : bool :=
  match s with
  | EmptyString => true
  | String c s' => P c && allBytes P s'
  end.

(** Bytes other than the slash and the dot. *)
Definition plainByte (c : ascii) : bool :=
  negb (Ascii.eqb c "/") && negb (Ascii.eqb c ".").

(** ** Reading a page entry of the scan *)

(** The key under which the ack of a page is recorded. *)
Definition ackedTsKeyOf (topic : string) (pageID : Z) : string :=
  constructKey AckedTsTitle topic +:+ "/" +:+ strconv.FormatInt pageID.

(** The page of the entry has a readable id and its [acked_ts] lookup
    returns a non-empty string. *)
Definition pageIsAcked (meta : gmap string string) (topic : string)
    (e : string * string) : bool :=
  match parsePageID e.1 with
  | Ok pageID => negb (String.eqb (pebblekv.Load meta (ackedTsKeyOf topic pageID)) "")
  | Err _ => false
  end.

(** The page of the entry has a readable id and its [acked_ts] lookup
    returns the empty string. *)
Definition pageIsUnacked (meta : gmap string string) (topic : string)
    (e : string * string) : bool :=
  match parsePageID e.1 with
  | Ok pageID => String.eqb (pebblekv.Load meta (ackedTsKeyOf topic pageID)) ""
  | Err _ => false
  end.

Definition pageSizeOf (e : string * string) : option Z :=
  match strconv.ParseInt e.2 with
  | Ok size => Some size
  | Err _ => None
  end.

(** The sum, over the integers, of the byte sizes of the pages. *)
Definition sumSizes (pages : list (string * string)) : Z :=
  fold_right (fun e acc => default 0 (pageSizeOf e) + acc) 0 pages.

(** The bounds of the scan of [calculateTopicAckedSize] and of
    [expiredCleanUp]. *)
Definition pageMsgPrefixOf (topic : string) : string :=
  constructKey PageMsgSizeTitle topic +:+ "/".

Definition topicPages (meta : gmap string string) (topic : string)
  : list (string * string) :=
  pebblekv.SeekUpTo meta (pageMsgPrefixOf topic)
    (typeutil.AddOne (pageMsgPrefixOf topic)).

(** ** The eviction decision on parsed pages

    What [expiredCleanUp] computes, written over the pages of a topic once
    their keys and values have been read: the id of the page, its size, and
    the time of its ack when it has one. The arithmetic is that of the
    integers. *)

Record pageView : Type := {
  pvID : Z;
  pvSize : Z;
  pvAck : option Z
}.

(** The ack of page [pageID] as the loops read it: [Some None] when the
    lookup returns the empty string, [Some (Some t)] when it returns the
    decimal [t]; [None] when it returns anything else. *)
Definition ackView (meta : gmap string string) (topic : string) (pageID : Z)
  : option (option Z) :=
  let ackedTsVal := pebblekv.Load meta (ackedTsKeyOf topic pageID) in
  if String.eqb ackedTsVal "" then Some None
  else match strconv.ParseInt ackedTsVal with
       | Ok t => Some (Some t)
       | Err _ => None
       end.

(** Entry [e] of the scan is the page [v]: its key is the prefix followed by
    the decimal id, and its id, size and ack read as in [v]. *)
Definition pageViewOf (meta : gmap string string) (topic : string)
    (e : string * string) (v : pageView) : Prop :=
  e.1 = pageMsgPrefixOf topic +:+ strconv.FormatInt (pvID v) /\
  parsePageID e.1 = Ok (pvID v) /\
  strconv.ParseInt e.2 = Ok (pvSize v) /\
  ackView meta topic (pvID v) = Some (pvAck v).

Definition sumSizesV (vs : list pageView) : Z :=
  fold_right (fun v acc => pvSize v + acc) 0 vs.

(** Total size of the pages before the first one without an ack. *)
Fixpoint ackedPrefixSize (vs : list pageView) : Z :=
  match vs with
  | [] => 0
  | v :: rest =>
      match pvAck v with
      | Some _ => pvSize v + ackedPrefixSize rest
      | None => 0
      end
  end.

Definition timeExpired (cfg : PebblemqCfg) (now ackedTs : Z) : bool :=
  (0 <=? RetentionTimeSeconds cfg) && (ackedTs + RetentionTimeSeconds cfg <? now).

Definition sizeExpired (cfg : PebblemqCfg) (curDeleteSize totalAckedSize : Z)
  : bool :=
  (0 <=? RetentionSizeInMB cfg) &&
  (RetentionSizeInMB cfg * MB <? totalAckedSize - curDeleteSize).

(** Number of pages that the time loop marks. *)
Fixpoint timeMarked (cfg : PebblemqCfg) (now : Z) (vs : list pageView) : nat :=
  match vs with
  | [] => O
  | v :: rest =>
      match pvAck v with
      | Some t => if timeExpired cfg now t then S (timeMarked cfg now rest) else O
      | None => O
      end
  end.

(** Number of pages that the size loop marks, [deleted] being the size
    marked so far. *)
Fixpoint sizeMarked (cfg : PebblemqCfg) (total deleted : Z) (vs : list pageView)
  : nat :=
  match vs with
  | [] => O
  | v :: rest =>
      if sizeExpired cfg (deleted + pvSize v) total
      then S (sizeMarked cfg total (deleted + pvSize v) rest)
      else O
  end.

(** Number of pages that the size loop marks when nothing is marked yet and
    the total is that of the pages given. *)
Definition sizeMarkedFrom (cfg : PebblemqCfg) (vs : list pageView) : nat :=
  sizeMarked cfg (ackedPrefixSize vs) 0 vs.

(** Number of pages that both loops mark. *)
Definition markedCount (cfg : PebblemqCfg) (now : Z) (vs : list pageView) : nat :=
  let tm := timeMarked cfg now vs in
  (tm + sizeMarked cfg (ackedPrefixSize vs) (sumSizesV (take tm vs)) (drop tm vs))%nat.

(** The id of the last page of [vs], or [d] when there is none. *)
Definition lastID (vs : list pageView) (d : Z) : Z :=
  List.last (map pvID vs) d.

(** The times of the acks, in page order. *)
Definition ackTimes (vs : list pageView) : list Z := omap pvAck vs.

(** A topic whose bookkeeping is in order. The scan meets the pages [vs] in
    ascending order of their ids. For any two pages of the topic, with ids
    [p] and [q], the decimal of [p] is byte-wise below the decimal of
    [q + 1] exactly when [p <= q]: the range deletes of [cleanData] up to
    [q + 1] then remove the pages up to [q] and no other. This is more than
    the decimals being ordered as the ids; it holds when all the ids and
    their successors are written with the same number of digits, and fails
    for a topic that has a page 9, 99, ..., or the pages 1 and 10. Sizes
    are not negative and their sum, the quota in bytes and the expiry times
    are within [int64]. The acks were recorded in page order. *)
Record OrderlyTopic (cfg : PebblemqCfg) (meta : gmap string string)
    (topic : string) (vs : list pageView) : Prop := {
  ot_views : Forall2 (pageViewOf meta topic) (topicPages meta topic) vs;
  ot_ascending : StronglySorted Z.lt (map pvID vs);
  ot_decimal :
    Forall (fun v => Forall (fun v' =>
      String.ltb (strconv.FormatInt (pvID v))
                 (strconv.FormatInt (Int64.add (pvID v') 1))
      = (pvID v <=? pvID v')) vs) vs;
  ot_sizes : Forall (fun v => 0 <= pvSize v) vs;
  ot_total : sumSizesV vs <= Int64.max;
  ot_quota : RetentionSizeInMB cfg * MB <= Int64.max;
  ot_times :
    Forall (fun t => Int64.inRange (t + RetentionTimeSeconds cfg)) (ackTimes vs);
  ot_acks_in_order : StronglySorted Z.le (ackTimes vs)
}.

(** The [k] low-order decimal digits of [n], most significant first. *)
Fixpoint fixedDigits (k : nat) (n : Z) : string :=
  match k with
  | O => EmptyString
  | S k' => fixedDigits k' (n / 10) +:+ String (strconv.digitChar (n mod 10)) EmptyString
  end.

(** The exclusive upper bound, after the prefix, of the range deletes of
    [cleanData topic E]. *)
Definition deleteBound (E : Z) : string := strconv.FormatInt (Int64.add E 1).

(** The bookkeeping store after the batch of [cleanData topic E]. *)
Definition metaAfterCleanData (meta : gmap string string) (topic : string)
    (E : Z) : gmap string string :=
  pebblekv.applyBatch
    [pebblekv.OpDeleteRange
       (constructKey PageMsgSizeTitle topic +:+ "/")
       (constructKey PageMsgSizeTitle topic +:+ "/" +:+ deleteBound E);
     pebblekv.OpDeleteRange
       (constructKey PageTsTitle topic +:+ "/")
       (constructKey PageTsTitle topic +:+ "/" +:+ deleteBound E);
     pebblekv.OpDeleteRange
       (constructKey AckedTsTitle topic +:+ "/")
       (constructKey AckedTsTitle topic +:+ "/" +:+ deleteBound E)] meta.

(** ** Start-up of the retention bookkeeping *)

(** The Go slice [s[n:]] of a string that has at least [n] bytes. *)
Fixpoint sliceFrom (n : nat) (s : string) : string :=
  match n, s with
  | O, _ => s
  | S n', String _ s' => sliceFrom n' s'
  | S _, EmptyString => EmptyString
  end.

(** One turn of the loop of [initRetentionInfo]: the topic is what follows
    the title in the key; its retention time becomes the reading of the
    clock and a new mutex is stored for it in [topicMu]. *)
Definition registerTopic (nowAt : string -> Z) (ri : State) (key : string)
  : State :=
  let topic := sliceFrom (String.length TopicIDTitle) key in
  {| db := db ri; kv := kv ri;
     topicMu := <[topic := MutexEntry]> (topicMu ri);
     topicRetetionTime := <[topic := nowAt key]> (topicRetetionTime ri);
     events := events ri |}.

(** [initRetentionInfo]: a new [retentionInfo] over the two stores, with the
    topics found under [TopicIDTitle]. [nowAt key] is the reading of
    [time.Now().Unix()] when [key] is handled, [loadFault] the error of
    [LoadWithPrefix] when it fails, [mu] the registry [topicMu] as it was. *)
Definition initRetentionInfo (nowAt : string -> Z) (loadFault : option error)
    (kvm dbm : gmap string string) (mu : gmap string lockEntry)
  : result State :=
  let ri := {| db := dbm; kv := kvm; topicMu := mu;
               topicRetetionTime := ∅; events := [] |} in
  (* Get topic from topic begin id *)
  match loadFault with
  | Some err => Err err
  | None =>
      let '(topicKeys, _) := pebblekv.LoadWithPrefix kvm TopicIDTitle in
      Ok (fold_left (registerTopic nowAt) topicKeys ri)
  end.

(** A topic name for which the keys of the topic can be told from those of
    other topics: not empty, not a single dot, without a slash. *)
Definition plainTopic (topic : string) : Prop :=
  hasByte "/" topic = false /\ topic <> "" /\ topic <> ".".

(** The errors of parsing a key or a value of the bookkeeping store. *)
Definition isParseError (e : error) : bool :=
  match e with
  | ErrSyntax _ _ | ErrRange _ _ | ErrInvalidPageID _ => true
  | _ => false
  end.

(** The batch that [cleanData topic E] commits to the bookkeeping store. *)
Definition metaBatch (topic : string) (E : Z) : list pebblekv.batchOp :=
  [pebblekv.OpDeleteRange
     (constructKey PageMsgSizeTitle topic +:+ "/")
     (constructKey PageMsgSizeTitle topic +:+ "/" +:+ deleteBound E);
   pebblekv.OpDeleteRange
     (constructKey PageTsTitle topic +:+ "/")
     (constructKey PageTsTitle topic +:+ "/" +:+ deleteBound E);
   pebblekv.OpDeleteRange
     (constructKey AckedTsTitle topic +:+ "/")
     (constructKey AckedTsTitle topic +:+ "/" +:+ deleteBound E)].

(** The batch that [DeleteMessages topic 0 E] commits to the message store. *)
Definition dataBatch (topic : string) (E : Z) : list pebblekv.batchOp :=
  [pebblekv.OpDeleteRange
     (path.Join [topic; strconv.FormatInt 0])
     (path.Join [topic; strconv.FormatInt (Int64.add E 1)])].

(** ** Further test inputs *)

(** Both retention policies disabled. *)
Definition cfgDisabled : PebblemqCfg :=
  {| RetentionTimeSeconds := -1; CheckTimeSeconds := 0; RetentionSizeInMB := -1 |}.

(** Topic [T] with page 1 not acked and page 2 acked long ago. *)
Definition stBlocked : State :=
  mkState [("T/1", "m1"); ("T/2", "m2")]
          [("page_msg_size/T/1", "100");
           ("page_msg_size/T/2", "100"); ("acked_ts/T/2", "0")]
          [("T", MutexEntry)] [("T", 0)].

(** A bookkeeping store with the topics [T] and [U] and a page of [T]. *)
Definition kvTwoTopics : gmap string string :=
  list_to_map [("topic_id/T", "1"); ("topic_id/U", "2");
               ("page_msg_size/T/1", "5")].

(** Every commit to the bookkeeping store is refused. *)
Definition faultsMeta : Faults :=
  {| dataCommitErr := fun _ => None;
     metaCommitErr := fun _ => Some (ErrKV "pebble: closed");
     loadErr := fun _ _ => None; iterErr := fun _ _ => None |}.

(** The page of the entry has a readable id, an ack that reads as a time,
    and that time is expired: what the time loop tests before it marks. *)
Definition pageTimeExpired (cfg : PebblemqCfg) (now : Z)
    (meta : gmap string string) (topic : string) (e : string * string) : bool :=
  match parsePageID e.1 with
  | Ok pageID =>
      let ackedTsVal := pebblekv.Load meta (ackedTsKeyOf topic pageID) in
      match strconv.ParseInt ackedTsVal with
      | Ok ackedTs =>
          negb (String.eqb ackedTsVal "") && msgTimeExpiredCheck cfg now ackedTs
      | Err _ => false
      end
  | Err _ => false
  end.

(** Topic [T] with page 1 acked at time 100 and page 2 not acked. *)
Definition stOpenPage : State :=
  mkState [("T/1", "m1"); ("T/2", "m2")]
          [("page_msg_size/T/1", "5"); ("page_ts/T/1", "90"); ("acked_ts/T/1", "100");
           ("page_msg_size/T/2", "5"); ("page_ts/T/2", "980")]
          [("T", MutexEntry)] [("T", 0)].

(** The errors that a failed read of the bookkeeping store returns under
    [faults]. *)
Definition isReadError (faults : Faults) (e : error) : Prop :=
  (exists site key, loadErr faults site key = Some e) \/
  (exists site topic n, iterErr faults site topic = Some (n, e)).

(** Every [Load] of the bookkeeping store fails. *)
Definition faultsLoad : Faults :=
  {| dataCommitErr := fun _ => None; metaCommitErr := fun _ => None;
     loadErr := fun _ _ => Some (ErrKV "pebble: closed");
     iterErr := fun _ _ => None |}.

(** The iterator of the scan of [expiredCleanUp] fails after one entry. *)
Definition faultsIter : Faults :=
  {| dataCommitErr := fun _ => None; metaCommitErr := fun _ => None;
     loadErr := fun _ _ => None;
     iterErr := fun site _ =>
       match site with
       | ExpiredScan => Some (1%nat, ErrKV "pebble: corruption")
       | AckedSizeScan => None
       end |}.



(** Topic [T] with page 9 only, acked at time 0. *)
Definition stPageNine : State :=
  mkState [("T/9", "m9")]
          [("page_msg_size/T/9", "5"); ("page_ts/T/9", "0"); ("acked_ts/T/9", "0")]
          [("T", MutexEntry)] [("T", 0)].

(** * Properties of the embedding *)

(** ** Arithmetic on [int64] *)

Lemma wrap_inRange (z : Z) : Int64.inRange (Int64.wrap z).
Proof.
  unfold Int64.inRange, Int64.wrap, Int64.min, Int64.max.
  pose proof (Z.mod_pos_bound (z + 2 ^ 63) (2 ^ 64) ltac:(lia)). lia.
Qed.

Lemma wrap_id (z : Z) : Int64.inRange z -> Int64.wrap z = z.
Proof.
  unfold Int64.inRange, Int64.wrap, Int64.min, Int64.max. intros Hz.
  rewrite Z.mod_small; lia.
Qed.

Ltac int64_range :=
  unfold Int64.inRange, Int64.max, Int64.min in *; lia.

Lemma wrap_add_l (a b : Z) : Int64.wrap (Int64.wrap a + b) = Int64.wrap (a + b).
Proof.
  unfold Int64.wrap.
  replace ((a + 2 ^ 63) mod 2 ^ 64 - 2 ^ 63 + b + 2 ^ 63)
    with ((a + 2 ^ 63) mod 2 ^ 64 + b) by lia.
  replace (a + b + 2 ^ 63) with ((a + 2 ^ 63) + b) by lia.
  rewrite Zplus_mod_idemp_l. reflexivity.
Qed.

(** ** The expiry predicates *)

Lemma msgTimeExpiredCheck_iff (cfg : PebblemqCfg) (now ackedTs : Z) :
  msgTimeExpiredCheck cfg now ackedTs = true <->
  0 <= RetentionTimeSeconds cfg /\
  Int64.add ackedTs (RetentionTimeSeconds cfg) < now.
Proof.
  unfold msgTimeExpiredCheck.
  destruct (Z.ltb_spec (RetentionTimeSeconds cfg) 0) as [Hneg | Hpos].
  - split; [discriminate | lia].
  - rewrite Z.ltb_lt. split; [intros H; split; assumption | intros [_ H]; exact H].
Qed.

Lemma msgSizeExpiredCheck_iff (cfg : PebblemqCfg) (deleted acked : Z) :
  msgSizeExpiredCheck cfg deleted acked = true <->
  0 <= RetentionSizeInMB cfg /\
  Int64.sub acked deleted > Int64.mul (RetentionSizeInMB cfg) (2 ^ 20).
Proof.
  unfold msgSizeExpiredCheck. change MB with (2 ^ 20).
  destruct (Z.ltb_spec (RetentionSizeInMB cfg) 0) as [Hneg | Hpos].
  - split; [discriminate | lia].
  - rewrite Z.ltb_lt. split; [intros H; split; lia | intros [_ H]; lia].
Qed.


(** Where nothing overflows, the program's arithmetic is that of the
    integers. *)
Lemma expiry_predicates_exact (cfg : PebblemqCfg)
    (now ackedTs deletedSize size totalAckedSize : Z) :
  Int64.inRange (ackedTs + RetentionTimeSeconds cfg) ->
  Int64.inRange (deletedSize + size) ->
  Int64.inRange (totalAckedSize - (deletedSize + size)) ->
  Int64.inRange (RetentionSizeInMB cfg * 2 ^ 20) ->
  (msgTimeExpiredCheck cfg now ackedTs = true <->
     0 <= RetentionTimeSeconds cfg /\ ackedTs + RetentionTimeSeconds cfg < now) /\
  (msgSizeExpiredCheck cfg (Int64.add deletedSize size) totalAckedSize = true <->
     0 <= RetentionSizeInMB cfg /\
     totalAckedSize - (deletedSize + size) > RetentionSizeInMB cfg * 2 ^ 20).
Proof.
  intros H1 H2 H3 H4.
  rewrite msgTimeExpiredCheck_iff, msgSizeExpiredCheck_iff.
  unfold Int64.add, Int64.sub, Int64.mul.
  rewrite (wrap_id _ H1), (wrap_id _ H2), (wrap_id _ H3), (wrap_id _ H4).
  split; reflexivity.
Qed.



(** ** What a batch commit and [cleanData] touch *)

Lemma Commit_frame (s : store) (fault : option error)
    (b : list pebblekv.batchOp) (st st' : State) (r : result unit) :
  Commit s fault b st = (r, st') ->
  topicMu st' = topicMu st /\ topicRetetionTime st' = topicRetetionTime st /\
  (forall s', s' <> s -> getStore s' st' = getStore s' st).
Proof.
  unfold Commit. destruct fault as [e |]; intros H; inversion H; subst; clear H.
  - repeat split; reflexivity.
  - destruct s; (repeat split; try reflexivity);
      intros [] Hne; try reflexivity; contradiction.
Qed.

Lemma cleanData_frame (faults : Faults) (topic : string) (E : Z)
    (st st' : State) (r : result unit) :
  cleanData faults topic E st = (r, st') ->
  topicMu st' = topicMu st /\ topicRetetionTime st' = topicRetetionTime st.
Proof.
  unfold cleanData, DeleteMessages.
  destruct (topicMu st !! topic) as [[] |] eqn:Hmu.
  - destruct (Commit DataKV _ _ st) as [[[] | e] st1] eqn:Hd.
    + intros Hm. apply Commit_frame in Hd as (Ha & Hb & _).
      apply Commit_frame in Hm as (Hc & Hd & _). split; congruence.
    + intros H; inversion H; subst.
      apply Commit_frame in Hd as (Ha & Hb & _). split; assumption.
  - intros H; inversion H; subst. split; reflexivity.
  - intros H; inversion H; subst. split; reflexivity.
Qed.

Lemma expiredCleanUp_frame (cfg : PebblemqCfg) (now : Z) (faults : Faults)
    (topic : string) (st st' : State) (r : result unit) :
  expiredCleanUp cfg now faults topic st = (r, st') ->
  topicMu st' = topicMu st /\ topicRetetionTime st' = topicRetetionTime st.
Proof.
  unfold expiredCleanUp.
  destruct (calculateTopicAckedSize faults (kv st) topic) as [total | e];
    [| intros H; inversion H; subst; split; reflexivity].
  destruct (total =? 0); [intros H; inversion H; subst; split; reflexivity |].
  destruct (expiredScan cfg now faults (kv st) topic total) as [v | e];
    [| intros H; inversion H; subst; split; reflexivity].
  destruct (pageEndID v =? 0); [intros H; inversion H; subst; split; reflexivity |].
  apply cleanData_frame.
Qed.

(** ** Passes that delete nothing *)

(** C7. [expiredCleanUp] returns success and leaves the state as it is (no
    batch is committed, whatever commits would fail) when the total acked
    size is 0, and when [pageEndID] is 0 after both loops, even if a page,
    page 0, has been counted as cleaned. *)
Theorem C7_nothing_to_delete (cfg : PebblemqCfg) (now : Z) (faults : Faults)
    (topic : string) (st : State) (totalAckedSize : Z) :
  calculateTopicAckedSize faults (kv st) topic = Ok totalAckedSize ->
  (totalAckedSize = 0 \/
   exists v, expiredScan cfg now faults (kv st) topic totalAckedSize = Ok v /\
             pageEndID v = 0) ->
  expiredCleanUp cfg now faults topic st = (Ok tt, st).
Proof.
  intros Hcalc Hcase. unfold expiredCleanUp. rewrite Hcalc.
  destruct (Z.eqb_spec totalAckedSize 0) as [Hz | Hnz]; [reflexivity |].
  destruct Hcase as [Hz | (v & Hscan & Hend)]; [contradiction |].
  rewrite Hscan, Hend. reflexivity.
Qed.

(** Page 0 of [stPageZero] is acked and expired, the time loop counts it,
    and the pass still deletes nothing. *)
Lemma C7_nothing_to_delete_witness :
  expiredScan cfgTimeOnly 1000 faultsData (kv stPageZero) "T" 100
    = Ok {| deletedAckedSize := 100; pageCleaned := 1; pageEndID := 0; lastAck := 0 |} /\
  expiredCleanUp cfgTimeOnly 1000 faultsData "T" stPageZero = (Ok tt, stPageZero).
Proof.
  split; [vm_compute; reflexivity |].
  apply (C7_nothing_to_delete cfgTimeOnly 1000 faultsData "T" stPageZero 100).
  - vm_compute. reflexivity.
  - right. eexists. split; [vm_compute; reflexivity | reflexivity].
Defined.

(** ** Errors of [cleanData] *)

(** C9. Without an entry for the topic in the lock registry, [cleanData]
    returns the error that names the topic and changes nothing; when the
    commit of [DeleteMessages] fails, its error is returned, the batch for
    the bookkeeping store is not committed and that store is unchanged. *)
Theorem C9_cleanData_errors (faults : Faults) (topic : string) (E : Z) (st : State) :
  (topicMu st !! topic = None ->
     cleanData faults topic E st = (Err (ErrTopicNotExist topic), st) /\
     errorString (ErrTopicNotExist topic) = "topic name = " +:+ topic +:+ " not exist") /\
  (forall e, topicMu st !! topic = Some MutexEntry ->
     dataCommitErr faults topic = Some e ->
     exists st', cleanData faults topic E st = (Err e, st') /\
                 kv st' = kv st /\ events st' = events st).
Proof.
  split.
  - intros Hmu. unfold cleanData. rewrite Hmu. split; reflexivity.
  - intros e Hmu He. exists st. unfold cleanData, DeleteMessages.
    rewrite Hmu, He. repeat split; reflexivity.
Qed.

Lemma C9_cleanData_errors_witness :
  cleanData noFaults "V" 5 stOrderly = (Err (ErrTopicNotExist "V"), stOrderly) /\
  exists st', cleanData faultsData "T" 2 stOrderly = (Err (ErrKV "pebble: closed"), st') /\
              kv st' = kv stOrderly /\ events st' = events stOrderly.
Proof.
  split.
  - apply (proj1 (C9_cleanData_errors noFaults "V" 5 stOrderly)).
    vm_compute. reflexivity.
  - apply (proj2 (C9_cleanData_errors faultsData "T" 2 stOrderly)).
    + vm_compute. reflexivity.
    + reflexivity.
Defined.

(** ** The compaction tick *)

Lemma compactStore_events (s : store) (st : State) :
  events (compactStore s st) =
  (events st ++
   match pebblekv.SeekToLast (getStore s st) with
   | Some (_, value) => [EvCompact s None (typeutil.AddOne value) true]
   | None => []
   end)%list.
Proof.
  unfold compactStore.
  destruct (pebblekv.SeekToLast (getStore s st)) as [[key value] |]; simpl.
  - reflexivity.
  - rewrite app_nil_r. reflexivity.
Qed.

Lemma SeekToLast_None (m : gmap string string) :
  pebblekv.SeekToLast m = None <-> m = ∅.
Proof.
  unfold pebblekv.SeekToLast, pebblekv.entries. rewrite last_None. split.
  - intros Hnil. apply map_to_list_empty_iff.
    apply Permutation_nil_r.
    rewrite <- (merge_sort_Permutation pebblekv.entryLe (map_to_list m)).
    rewrite Hnil. reflexivity.
  - intros ->. rewrite map_to_list_empty. reflexivity.
Qed.

(** A compaction tick asks for one compaction per store that is not empty,
    the message store first, and for none of an empty store; the limit is
    the successor of the value of the last entry. *)
Lemma compactionTick_events (st : State) :
  events (compactionTick st) =
  (events st ++
   match pebblekv.SeekToLast (db st) with
   | Some (_, value) => [EvCompact DataKV None (typeutil.AddOne value) true]
   | None => []
   end ++
   match pebblekv.SeekToLast (kv st) with
   | Some (_, value) => [EvCompact MetaKV None (typeutil.AddOne value) true]
   | None => []
   end)%list.
Proof.
  unfold compactionTick. rewrite !compactStore_events.
  assert (Hkv : getStore MetaKV (compactStore DataKV st) = kv st).
  { unfold compactStore.
    destruct (pebblekv.SeekToLast (getStore DataKV st)) as [[key value] |];
      reflexivity. }
  rewrite Hkv. cbn [getStore]. rewrite <- app_assoc. reflexivity.
Qed.

(** C2, at the failing input [stCompact]. The last entry of the message
    store is [T/1 -> hello] and that of the bookkeeping store is
    [page_ts/T/1 -> 17]; the successors of the last keys are [T/2] and
    [page_ts/T/2], yet the limits of the two compactions requested are the
    successors of the last values, [hellp] and [18]. *)
Theorem C2_compaction_limit_is_successor_of_value :
  pebblekv.SeekToLast (db stCompact) = Some ("T/1", "hello") /\
  pebblekv.SeekToLast (kv stCompact) = Some ("page_ts/T/1", "17") /\
  typeutil.AddOne "T/1" = "T/2" /\
  typeutil.AddOne "page_ts/T/1" = "page_ts/T/2" /\
  events (compactionTick stCompact) =
    [EvCompact DataKV None "hellp" true; EvCompact MetaKV None "18" true].
Proof. vm_compute. repeat split; reflexivity. Qed.

(** ** Range deletes and the order of decimal page ids *)

(** C3, at the failing input [stMixedWidth]. [cleanData] for [pageEndID = 10]
    succeeds and deletes page 10, but the three keys of pages 2 and 9 are
    still there: as strings, [2] and [9] are not below [11]. *)
Theorem C3_cleanData_leaves_lower_pages :
  exists st',
    cleanData noFaults "T" 10 stMixedWidth = (Ok tt, st') /\
    kv st' !! "page_msg_size/T/10" = None /\
    kv st' !! "page_msg_size/T/2" = Some "100" /\
    kv st' !! "page_ts/T/2" = Some "0" /\
    kv st' !! "acked_ts/T/2" = Some "0" /\
    kv st' !! "page_msg_size/T/9" = Some "100" /\
    db st' !! "T/2" = Some "m2".
Proof. eexists. vm_compute. repeat split; reflexivity. Qed.

(** C4, at the failing input [stUnackedTen]. Page 1 is acked and expired,
    page 10 has no [acked_ts] key; the time loop stops at page 10 with
    [pageEndID = 1], and the range deletes of [cleanData] up to [T/2] remove
    the keys of page 10 with those of page 1. *)
Theorem C4_unacked_page_evicted :
  kv stUnackedTen !! "acked_ts/T/10" = None /\
  calculateTopicAckedSize noFaults (kv stUnackedTen) "T" = Ok 100 /\
  expiredScan cfgTimeOnly 1000 noFaults (kv stUnackedTen) "T" 100
    = Ok {| deletedAckedSize := 100; pageCleaned := 1; pageEndID := 1; lastAck := 0 |} /\
  exists st',
    expiredCleanUp cfgTimeOnly 1000 noFaults "T" stUnackedTen = (Ok tt, st') /\
    kv st' !! "page_msg_size/T/10" = None /\
    kv st' !! "page_ts/T/10" = None /\
    db st' !! "T/10" = None.
Proof.
  split; [vm_compute; reflexivity |].
  split; [vm_compute; reflexivity |].
  split; [vm_compute; reflexivity |].
  eexists. vm_compute. repeat split; reflexivity.
Qed.

(** ** The retention tick *)

Section RetentionTick.

Variable cfg : PebblemqCfg.
Variable now : Z.
Variable faults : Faults.
Variable timeNow : Z.

Lemma retentionVisit_due (st : State) (topic : string) (last : Z) :
  due cfg timeNow last = true ->
  retentionVisit cfg now faults timeNow st (topic, last) =
  setRetentionTime topic timeNow
    (match expiredCleanUp cfg now faults topic st with
     | (Err e, st1) => emit (EvWarn e) st1
     | (Ok _, st1) => st1
     end).
Proof.
  unfold retentionVisit. intros ->.
  destruct (expiredCleanUp cfg now faults topic st) as [[[] | e] st1]; reflexivity.
Qed.

Lemma retentionVisit_not_due (st : State) (topic : string) (last : Z) :
  due cfg timeNow last = false ->
  retentionVisit cfg now faults timeNow st (topic, last) = st.
Proof. unfold retentionVisit. intros ->. reflexivity. Qed.

Lemma retentionVisit_tracker (st : State) (topic t : string) (last : Z) :
  topicRetetionTime (retentionVisit cfg now faults timeNow st (topic, last)) !! t =
  if due cfg timeNow last && bool_decide (t = topic) then Some timeNow
  else topicRetetionTime st !! t.
Proof.
  destruct (due cfg timeNow last) eqn:Hdue.
  - rewrite retentionVisit_due by assumption.
    destruct (expiredCleanUp cfg now faults topic st) as [r st1] eqn:Hrun.
    apply expiredCleanUp_frame in Hrun as [_ Htr].
    assert (Htr' : topicRetetionTime
              (match r with Err e => emit (EvWarn e) st1 | Ok _ => st1 end)
            = topicRetetionTime st).
    { destruct r; simpl; assumption. }
    destruct r; simpl in *; rewrite Htr'; clear Htr';
      (case_bool_decide as Ht;
       [subst t; apply lookup_insert_eq
       | apply lookup_insert_ne; congruence]).
  - rewrite retentionVisit_not_due by assumption. reflexivity.
Qed.

Lemma retentionFold_other (l : list (string * Z)) (st : State) (t : string) :
  t ∉ l.*1 ->
  topicRetetionTime (fold_left (retentionVisit cfg now faults timeNow) l st) !! t =
  topicRetetionTime st !! t.
Proof.
  revert st. induction l as [| [topic last] l IH]; intros st Hnot; cbn [fold_left].
  - reflexivity.
  - rewrite fmap_cons, not_elem_of_cons in Hnot. destruct Hnot as [Hne Hnot].
    rewrite IH by assumption. rewrite retentionVisit_tracker.
    rewrite bool_decide_eq_false_2 by assumption.
    rewrite andb_false_r. reflexivity.
Qed.

Lemma retentionFold_visited (l : list (string * Z)) (st : State)
    (t : string) (last : Z) :
  NoDup l.*1 -> (t, last) ∈ l ->
  topicRetetionTime (fold_left (retentionVisit cfg now faults timeNow) l st) !! t =
  if due cfg timeNow last then Some timeNow else topicRetetionTime st !! t.
Proof.
  revert st. induction l as [| [topic last'] l IH]; intros st Hnd Hin;
    cbn [fold_left].
  - inversion Hin.
  - rewrite fmap_cons in Hnd. apply NoDup_cons in Hnd as [Hfresh Hnd].
    apply elem_of_cons in Hin as [Heq | Hin].
    + inversion Heq; subst topic last'.
      rewrite retentionFold_other by assumption.
      rewrite retentionVisit_tracker.
      rewrite bool_decide_eq_true_2 by reflexivity.
      rewrite andb_true_r. reflexivity.
    + assert (Hne : t <> topic).
      { intros ->. apply Hfresh. simpl.
        apply (list_elem_of_fmap_2 fst) in Hin. exact Hin. }
      rewrite IH by assumption. rewrite retentionVisit_tracker.
      rewrite bool_decide_eq_false_2 by assumption.
      rewrite andb_false_r. reflexivity.
Qed.

Lemma retentionTick_tracker (st : State) (topic : string) (last : Z) :
  topicRetetionTime st !! topic = Some last ->
  topicRetetionTime (retentionTick cfg now faults timeNow st) !! topic =
  Some (if due cfg timeNow last then timeNow else last).
Proof.
  intros Hlook. unfold retentionTick.
  rewrite (retentionFold_visited _ _ topic last).
  - destruct (due cfg timeNow last); [reflexivity | assumption].
  - apply NoDup_fst_map_to_list.
  - apply elem_of_map_to_list. assumption.
Qed.

End RetentionTick.




(** ** Byte-wise order of keys *)

Lemma append_cons (c : ascii) (s t : string) :
  String c s +:+ t = String c (s +:+ t).
Proof. reflexivity. Qed.

Lemma append_nil_l (t : string) : "" +:+ t = t.
Proof. reflexivity. Qed.

Lemma append_assoc (a b c : string) : (a +:+ b) +:+ c = a +:+ (b +:+ c).
Proof.
  induction a as [| x a IH]; [reflexivity |].
  rewrite !append_cons, IH. reflexivity.
Qed.

Lemma ascii_compare_refl (c : ascii) : Ascii.compare c c = Eq.
Proof. unfold Ascii.compare. apply N.compare_refl. Qed.

Lemma compare_app_common (c a b : string) :
  String.compare (c +:+ a) (c +:+ b) = String.compare a b.
Proof.
  induction c as [| x c IH]; [reflexivity |].
  rewrite !append_cons. simpl. rewrite ascii_compare_refl. exact IH.
Qed.

Lemma inRange_app_common (c a b r : string) :
  pebblekv.inRange (c +:+ a) (c +:+ b) (c +:+ r) = pebblekv.inRange a b r.
Proof.
  unfold pebblekv.inRange, String.leb, String.ltb.
  rewrite !compare_app_common. reflexivity.
Qed.

(** A key between two keys that share a prefix has that prefix. *)
Lemma inRange_prefix (c a b k : string) :
  pebblekv.inRange (c +:+ a) (c +:+ b) k = true ->
  exists r, k = c +:+ r /\ pebblekv.inRange a b r = true.
Proof.
  revert k. induction c as [| x c IH]; intros k Hin.
  - exists k. split; [reflexivity | exact Hin].
  - rewrite !append_cons in Hin.
    unfold pebblekv.inRange, String.leb, String.ltb in Hin.
    destruct k as [| y k]; [discriminate |]. simpl in Hin.
    rewrite (Ascii.compare_antisym y x) in Hin.
    destruct (Ascii.compare x y) eqn:Hxy; simpl in Hin; try discriminate.
    apply Ascii.compare_eq_iff in Hxy. subst y.
    destruct (IH k) as (r & -> & Hr).
    { unfold pebblekv.inRange, String.leb, String.ltb. exact Hin. }
    exists r. split; [reflexivity | exact Hr].
Qed.

Lemma append_nil_r (s : string) : s +:+ "" = s.
Proof.
  induction s as [| c s IH]; [reflexivity |].
  rewrite append_cons, IH. reflexivity.
Qed.

Lemma inRange_prefix_lo (c b k : string) :
  pebblekv.inRange c (c +:+ b) k = true -> exists r, k = c +:+ r.
Proof.
  intros Hin. rewrite <- (append_nil_r c) in Hin at 1.
  apply inRange_prefix in Hin as (r & -> & _). exists r. reflexivity.
Qed.

Lemma AddOne_slash (q : string) :
  typeutil.AddOne (q +:+ "/") = q +:+ "0".
Proof.
  induction q as [| x q IH]; [reflexivity |].
  rewrite !append_cons. simpl. rewrite IH.
  destruct (q +:+ "/") eqn:Hq; [| reflexivity].
  destruct q; discriminate.
Qed.

Lemma compare_cons (a b : ascii) (s t : string) :
  String.compare (String a s) (String b t) =
  match Ascii.compare a b with
  | Eq => String.compare s t
  | o => o
  end.
Proof. reflexivity. Qed.

Lemma inRange_slash_zero (r : string) :
  pebblekv.inRange "/" "0" r = true <-> exists r', r = String "/" r'.
Proof.
  unfold pebblekv.inRange, String.leb, String.ltb. split.
  - destruct r as [| c r']; [discriminate |].
    rewrite !compare_cons. unfold Ascii.compare.
    change (N_of_ascii "/") with 47%N. change (N_of_ascii "0") with 48%N.
    destruct (N.compare_spec 47 (N_of_ascii c)) as [Heq | Hlt | Hgt];
      cbv iota.
    + intros _. exists r'. f_equal.
      rewrite <- (ascii_N_embedding c), <- Heq. reflexivity.
    + destruct (N.compare_spec (N_of_ascii c) 48) as [Heq | Hlt' | Hgt];
        cbv iota; [| lia | discriminate].
      destruct r'; discriminate.
    + discriminate.
  - intros [r' ->]. rewrite !compare_cons. 
    change (Ascii.compare "/" "/") with Eq. change (Ascii.compare "/" "0") with Lt.
    cbv iota. destruct r'; reflexivity.
Qed.

(** The bounds of a prefix scan enclose exactly the keys with the prefix. *)
Lemma inRange_scan_prefix (q k : string) :
  pebblekv.inRange (q +:+ "/") (typeutil.AddOne (q +:+ "/")) k = true <->
  exists r, k = (q +:+ "/") +:+ r.
Proof.
  rewrite AddOne_slash. split.
  - intros Hin. apply inRange_prefix in Hin as (r & -> & Hr).
    apply inRange_slash_zero in Hr as [r' ->]. exists r'.
    rewrite append_assoc. reflexivity.
  - intros [r ->]. rewrite append_assoc. rewrite inRange_app_common.
    apply inRange_slash_zero. exists r. reflexivity.
Qed.

(** ** Decimal renderings, [strings.Split] and [path.Join] *)

Lemma digitChar_plain (d : Z) : 0 <= d < 10 -> plainByte (strconv.digitChar d) = true.
Proof.
  intros Hd.
  assert (Hcases : d = 0 \/ d = 1 \/ d = 2 \/ d = 3 \/ d = 4 \/
                   d = 5 \/ d = 6 \/ d = 7 \/ d = 8 \/ d = 9) by lia.
  repeat (destruct Hcases as [-> | Hcases]; [reflexivity |]).
  subst d. reflexivity.
Qed.

Lemma formatDigits_plain (fuel : nat) (n : Z) (acc : string) :
  allBytes plainByte acc = true ->
  allBytes plainByte (strconv.formatDigits fuel n acc) = true.
Proof.
  revert n acc. induction fuel as [| fuel IH]; intros n acc Hacc; simpl.
  - exact Hacc.
  - assert (Hstep : allBytes plainByte
                      (String (strconv.digitChar (n mod 10)) acc) = true).
    { cbn [allBytes]. rewrite Hacc, digitChar_plain; [reflexivity |].
      apply Z.mod_pos_bound. lia. }
    destruct (n / 10 =? 0); [exact Hstep | apply IH; exact Hstep].
Qed.

Lemma formatDigits_nonempty (fuel : nat) (n : Z) (acc : string) :
  strconv.formatDigits (S fuel) n acc <> "".
Proof.
  revert n acc. induction fuel as [| fuel IH]; intros n acc.
  - simpl. destruct (n / 10 =? 0); discriminate.
  - change (strconv.formatDigits (S (S fuel)) n acc)
      with (if n / 10 =? 0 then String (strconv.digitChar (n mod 10)) acc
            else strconv.formatDigits (S fuel) (n / 10)
                   (String (strconv.digitChar (n mod 10)) acc)).
    destruct (n / 10 =? 0); [discriminate | apply IH].
Qed.

Lemma FormatInt_plain (n : Z) :
  allBytes plainByte (strconv.FormatInt n) = true /\ strconv.FormatInt n <> "".
Proof.
  unfold strconv.FormatInt. destruct (n <? 0).
  - split; [| discriminate]. cbn [allBytes].
    rewrite formatDigits_plain; reflexivity.
  - split; [apply formatDigits_plain; reflexivity | apply formatDigits_nonempty].
Qed.

Lemma plain_no_slash (s : string) :
  allBytes plainByte s = true -> hasByte "/" s = false.
Proof.
  induction s as [| c s IH]; [reflexivity |]. cbn [allBytes hasByte].
  intros [Hc Hs]%andb_prop. rewrite (IH Hs).
  unfold plainByte in Hc. apply andb_prop in Hc as [Hc _].
  apply negb_true_iff in Hc. rewrite Hc. reflexivity.
Qed.

Lemma plain_not_dots (s : string) :
  allBytes plainByte s = true -> s <> "." /\ s <> "..".
Proof.
  destruct s as [| c s]; [split; discriminate |]. cbn [allBytes].
  intros [Hc _]%andb_prop. unfold plainByte in Hc.
  apply andb_prop in Hc as [_ Hc]. apply negb_true_iff, Ascii.eqb_neq in Hc.
  split; intros Heq; inversion Heq; contradiction.
Qed.

Lemma Split_no_sep (s : string) (sep : ascii) :
  hasByte sep s = false -> strings.Split s sep = [s].
Proof.
  induction s as [| c s IH]; [reflexivity |]. cbn [hasByte strings.Split].
  intros [Hc Hs]%orb_false_elim. rewrite Hc, (IH Hs). reflexivity.
Qed.

Lemma Split_nonempty (s : string) (sep : ascii) : strings.Split s sep <> [].
Proof.
  induction s as [| c s IH]; [discriminate |]. cbn [strings.Split].
  destruct (Ascii.eqb c sep); [discriminate |].
  destruct (strings.Split s sep); discriminate.
Qed.

Lemma Split_app_sep (a b : string) (sep : ascii) :
  hasByte sep a = false ->
  strings.Split (a +:+ String sep b) sep = a :: strings.Split b sep.
Proof.
  induction a as [| c a IH].
  - intros _. rewrite append_nil_l. cbn [strings.Split].
    rewrite Ascii.eqb_refl. reflexivity.
  - cbn [hasByte]. intros [Hc Ha]%orb_false_elim.
    rewrite append_cons. cbn [strings.Split]. rewrite Hc, (IH Ha). reflexivity.
Qed.

Lemma cleanStep_first (elem : string) :
  elem <> "" -> elem <> "." -> path.cleanStep false [] elem = [elem].
Proof.
  intros H1%String.eqb_neq H2%String.eqb_neq. unfold path.cleanStep.
  rewrite H1, H2. destruct (String.eqb elem ".."); reflexivity.
Qed.

Lemma cleanStep_real (rooted : bool) (out : list string) (elem : string) :
  elem <> "" -> elem <> "." -> elem <> ".." ->
  path.cleanStep rooted out elem = elem :: out.
Proof.
  intros H1%String.eqb_neq H2%String.eqb_neq H3%String.eqb_neq.
  unfold path.cleanStep. rewrite H1, H2, H3. reflexivity.
Qed.

(** For a topic without a slash, other than the empty one and the dot, the
    message key is the topic, a slash and the decimal number. *)
Lemma path_Join_topic (topic s : string) :
  hasByte "/" topic = false -> topic <> "" -> topic <> "." ->
  allBytes plainByte s = true -> s <> "" ->
  path.Join [topic; s] = topic +:+ "/" +:+ s.
Proof.
  intros Hslash Hne Hdot Hplain Hs.
  destruct (plain_not_dots s Hplain) as [Hs1 Hs2].
  pose proof (plain_no_slash s Hplain) as Hs0.
  unfold path.Join. cbn [List.filter].
  rewrite (proj2 (String.eqb_neq topic "") Hne), (proj2 (String.eqb_neq s "") Hs).
  cbn [negb strings.Join].
  destruct topic as [| c topic']; [contradiction |].
  set (topic := String c topic') in *.
  change (topic +:+ "/" +:+ s) with (String c (topic' +:+ "/" +:+ s)) at 1.
  unfold path.Clean.
  change (String c (topic' +:+ "/" +:+ s)) with (topic +:+ String "/" s).
  assert (Hc : Ascii.eqb c "/" = false).
  { subst topic. cbn [hasByte] in Hslash.
    apply orb_false_elim in Hslash as [Hc _]. exact Hc. }
  rewrite Hc. rewrite (Split_app_sep topic s "/" Hslash), (Split_no_sep s "/" Hs0).
  cbn [fold_left]. rewrite (cleanStep_first topic Hne Hdot).
  rewrite (cleanStep_real false [topic] s Hs Hs1 Hs2).
  cbn [rev app strings.Join].
  assert (Hbody : String.eqb (topic +:+ "/" +:+ s) "" = false)
    by (subst topic; reflexivity).
  rewrite Hbody. reflexivity.
Qed.

(** ** Range deletes *)

Lemma lookup_DeleteRange (lo hi : string) (m : gmap string string) (k : string) :
  pebblekv.DeleteRange lo hi m !! k =
  if pebblekv.inRange lo hi k then None else m !! k.
Proof.
  unfold pebblekv.DeleteRange.
  destruct (pebblekv.inRange lo hi k) eqn:Hin.
  - apply map_lookup_filter_None. right. intros v _. simpl. congruence.
  - destruct (m !! k) as [v |] eqn:Hk.
    + apply map_lookup_filter_Some. split; [exact Hk | exact Hin].
    + apply map_lookup_filter_None. left. exact Hk.
Qed.

(** The bookkeeping store after the batch of [cleanData]. *)
Lemma lookup_applyBatch3 (lo1 hi1 lo2 hi2 lo3 hi3 : string)
    (m : gmap string string) (k : string) :
  pebblekv.applyBatch
    [pebblekv.OpDeleteRange lo1 hi1; pebblekv.OpDeleteRange lo2 hi2;
     pebblekv.OpDeleteRange lo3 hi3] m !! k =
  if pebblekv.inRange lo1 hi1 k || pebblekv.inRange lo2 hi2 k
     || pebblekv.inRange lo3 hi3 k
  then None else m !! k.
Proof.
  unfold pebblekv.applyBatch. cbn [fold_left pebblekv.applyOp].
  rewrite !lookup_DeleteRange.
  destruct (pebblekv.inRange lo1 hi1 k), (pebblekv.inRange lo2 hi2 k),
    (pebblekv.inRange lo3 hi3 k); reflexivity.
Qed.

(** A successful [cleanData] has committed both batches. *)
Lemma cleanData_ok (faults : Faults) (topic : string) (E : Z) (st st' : State) :
  cleanData faults topic E st = (Ok tt, st') ->
  db st' =
    pebblekv.DeleteRange
      (path.Join [topic; strconv.FormatInt 0])
      (path.Join [topic; strconv.FormatInt (Int64.add E 1)]) (db st) /\
  kv st' =
    pebblekv.applyBatch
      [pebblekv.OpDeleteRange
         (constructKey PageMsgSizeTitle topic +:+ "/")
         (constructKey PageMsgSizeTitle topic +:+ "/"
            +:+ strconv.FormatInt (Int64.add E 1));
       pebblekv.OpDeleteRange
         (constructKey PageTsTitle topic +:+ "/")
         (constructKey PageTsTitle topic +:+ "/"
            +:+ strconv.FormatInt (Int64.add E 1));
       pebblekv.OpDeleteRange
         (constructKey AckedTsTitle topic +:+ "/")
         (constructKey AckedTsTitle topic +:+ "/"
            +:+ strconv.FormatInt (Int64.add E 1))] (kv st).
Proof.
  unfold cleanData, DeleteMessages, Commit.
  destruct (topicMu st !! topic) as [[] |]; try discriminate.
  destruct (dataCommitErr faults topic); [discriminate |].
  destruct (metaCommitErr faults topic); [discriminate |].
  intros H. inversion H; subst; clear H. split; reflexivity.
Qed.

Lemma metaKeyTopic_of_prefix (title topic r : string) :
  hasByte "/" title = false -> hasByte "/" topic = false ->
  metaKeyTopic ((constructKey (title +:+ "/") topic +:+ "/") +:+ r) = Some topic.
Proof.
  intros Htitle Htopic. unfold metaKeyTopic, constructKey.
  rewrite !append_assoc.
  change ("/" +:+ topic +:+ "/" +:+ r) with (String "/" (topic +:+ String "/" r)).
  rewrite (Split_app_sep title _ "/" Htitle).
  rewrite (Split_app_sep topic r "/" Htopic). reflexivity.
Qed.

Lemma dataKeyTopic_of_prefix (topic r : string) :
  hasByte "/" topic = false ->
  dataKeyTopic ((topic +:+ "/") +:+ r) = Some topic.
Proof.
  intros Htopic. unfold dataKeyTopic. rewrite append_assoc.
  change ("/" +:+ r) with (String "/" r).
  rewrite (Split_app_sep topic r "/" Htopic).
  pose proof (Split_nonempty r "/") as Hne.
  destruct (strings.Split r "/"); [contradiction | reflexivity].
Qed.

Lemma metaRange_topic (title topic s k : string) :
  hasByte "/" title = false -> hasByte "/" topic = false ->
  pebblekv.inRange (constructKey (title +:+ "/") topic +:+ "/")
    (constructKey (title +:+ "/") topic +:+ "/" +:+ s) k = true ->
  metaKeyTopic k = Some topic.
Proof.
  intros Htitle Htopic Hin.
  rewrite <- (append_assoc _ "/" s) in Hin.
  apply inRange_prefix_lo in Hin as (r & ->).
  apply metaKeyTopic_of_prefix; assumption.
Qed.

(** ** Eviction stays within the topic *)

(** C10 as stated fails for the empty topic name, which contains no slash:
    [path.Join] drops the empty element, so [cleanData] of the empty topic
    deletes the message keys from [0] up to [6], among them key [1/5] of
    topic [1]. *)
Lemma C10_counterexample :
  hasByte "/" "" = false /\
  path.Join [""; strconv.FormatInt 0] = "0" /\
  path.Join [""; strconv.FormatInt (Int64.add 5 1)] = "6" /\
  dataKeyTopic "1/5" = Some "1" /\
  db stEmptyTopic !! "1/5" = Some "m5" /\
  exists st',
    cleanData noFaults "" 5 stEmptyTopic = (Ok tt, st') /\
    db st' !! "1/5" = None.
Proof.
  repeat (split; [vm_compute; reflexivity |]).
  eexists. vm_compute. split; reflexivity.
Qed.

(** C10, amended. For a topic name that is neither empty nor a single dot
    and contains no slash, a successful [cleanData] leaves every key of the
    bookkeeping store whose topic component is another topic, and every
    message key whose topic component is another topic, as it was. *)
Theorem C10_cleanData_topic_isolation (faults : Faults) (topic : string)
    (E : Z) (st st' : State) :
  hasByte "/" topic = false -> topic <> "" -> topic <> "." ->
  cleanData faults topic E st = (Ok tt, st') ->
  (forall k, metaKeyTopic k <> Some topic -> kv st' !! k = kv st !! k) /\
  (forall k, dataKeyTopic k <> Some topic -> db st' !! k = db st !! k).
Proof.
  intros Hslash Hne Hdot Hrun.
  apply cleanData_ok in Hrun as [Hdb Hkv]. split; intros k Hk.
  - rewrite Hkv, lookup_applyBatch3.
    rewrite (not_true_is_false _
      (fun H => Hk (metaRange_topic "page_msg_size" topic _ k eq_refl Hslash H))).
    rewrite (not_true_is_false _
      (fun H => Hk (metaRange_topic "page_ts" topic _ k eq_refl Hslash H))).
    rewrite (not_true_is_false _
      (fun H => Hk (metaRange_topic "acked_ts" topic _ k eq_refl Hslash H))).
    reflexivity.
  - rewrite Hdb, lookup_DeleteRange.
    destruct (pebblekv.inRange _ _ k) eqn:Hin; [| reflexivity].
    exfalso. apply Hk.
    destruct (FormatInt_plain 0) as [Hp0 Hn0].
    destruct (FormatInt_plain (Int64.add E 1)) as [Hp1 Hn1].
    rewrite (path_Join_topic topic _ Hslash Hne Hdot Hp0 Hn0) in Hin.
    rewrite (path_Join_topic topic _ Hslash Hne Hdot Hp1 Hn1) in Hin.
    rewrite <- !(append_assoc topic "/" _) in Hin.
    apply inRange_prefix in Hin as (r & -> & _).
    apply dataKeyTopic_of_prefix. exact Hslash.
Qed.

Lemma C10_cleanData_topic_isolation_witness :
  exists st',
    cleanData noFaults "T" 2 stOrderly = (Ok tt, st') /\
    kv st' !! "page_msg_size/U/1" = kv stOrderly !! "page_msg_size/U/1" /\
    db st' !! "U/1" = db stOrderly !! "U/1".
Proof.
  eexists. split; [vm_compute; reflexivity |].
  destruct (C10_cleanData_topic_isolation noFaults "T" 2 stOrderly _
              eq_refl ltac:(discriminate) ltac:(discriminate) eq_refl)
    as [Hmeta Hdata].
  split; [apply Hmeta | apply Hdata]; vm_compute; discriminate.
Defined.

(** ** The iterator *)

Global Instance entryLe_trans : Transitive pebblekv.entryLe.
Proof.
  intros a b c Hab Hbc. unfold pebblekv.entryLe in *.
  etransitivity; eassumption.
Qed.

Global Instance entryLe_total : Total pebblekv.entryLe.
Proof. intros a b. unfold pebblekv.entryLe. apply (total String.le). Qed.

Lemma StronglySorted_list_filter {A : Type} (R : relation A) (f : A -> bool)
    (l : list A) :
  StronglySorted R l -> StronglySorted R (List.filter f l).
Proof.
  induction 1 as [| x l Hsorted IH Hall]; cbn [List.filter].
  - constructor.
  - destruct (f x); [| exact IH]. constructor; [exact IH |].
    apply List.Forall_forall. intros y Hy. apply List.filter_In in Hy as [Hy _].
    rewrite List.Forall_forall in Hall. apply Hall. exact Hy.
Qed.

Lemma NoDup_keys_list_filter (f : string * string -> bool)
    (l : list (string * string)) :
  NoDup l.*1 -> NoDup (List.filter f l).*1.
Proof.
  induction l as [| e l IH]; cbn [List.filter]; [intros; constructor |].
  rewrite fmap_cons. intros [Hfresh Hnd]%NoDup_cons.
  destruct (f e); [| apply IH; exact Hnd].
  rewrite fmap_cons. apply NoDup_cons. split; [| apply IH; exact Hnd].
  intros Hin. apply Hfresh.
  apply list_elem_of_fmap in Hin as (e' & -> & Hin).
  apply list_elem_of_fmap. exists e'. split; [reflexivity |].
  apply list_elem_of_In. apply list_elem_of_In in Hin.
  apply List.filter_In in Hin as [Hin _]. exact Hin.
Qed.

Lemma entries_sorted (m : gmap string string) :
  StronglySorted pebblekv.entryLe (pebblekv.entries m).
Proof. unfold pebblekv.entries. apply StronglySorted_merge_sort; apply _. Qed.

Lemma entries_NoDup (m : gmap string string) : NoDup (pebblekv.entries m).*1.
Proof.
  unfold pebblekv.entries.
  rewrite (merge_sort_Permutation pebblekv.entryLe (map_to_list m)).
  apply NoDup_fst_map_to_list.
Qed.

Lemma elem_of_entries (m : gmap string string) (k v : string) :
  (k, v) ∈ pebblekv.entries m <-> m !! k = Some v.
Proof.
  unfold pebblekv.entries.
  rewrite (merge_sort_Permutation pebblekv.entryLe (map_to_list m)).
  apply elem_of_map_to_list.
Qed.

(** The iterator visits the entries within its bounds once each, in
    ascending byte-wise order of their keys. *)
Lemma SeekUpTo_spec (m : gmap string string) (lo hi : string) :
  StronglySorted pebblekv.entryLe (pebblekv.SeekUpTo m lo hi) /\
  NoDup (pebblekv.SeekUpTo m lo hi).*1 /\
  forall k v, (k, v) ∈ pebblekv.SeekUpTo m lo hi <->
              m !! k = Some v /\ pebblekv.inRange lo hi k = true.
Proof.
  unfold pebblekv.SeekUpTo. split; [| split].
  - apply StronglySorted_list_filter, entries_sorted.
  - apply NoDup_keys_list_filter, entries_NoDup.
  - intros k v. rewrite list_elem_of_In, List.filter_In, <- list_elem_of_In.
    rewrite elem_of_entries. reflexivity.
Qed.

Lemma topicPages_spec (m : gmap string string) (topic : string) :
  StronglySorted pebblekv.entryLe (topicPages m topic) /\
  NoDup (topicPages m topic).*1 /\
  forall k v, (k, v) ∈ topicPages m topic <->
              m !! k = Some v /\ exists r, k = pageMsgPrefixOf topic +:+ r.
Proof.
  unfold topicPages.
  destruct (SeekUpTo_spec m (pageMsgPrefixOf topic)
              (typeutil.AddOne (pageMsgPrefixOf topic))) as (Hs & Hn & Hin).
  split; [exact Hs |]. split; [exact Hn |].
  intros k v. rewrite Hin. unfold pageMsgPrefixOf.
  rewrite inRange_scan_prefix. reflexivity.
Qed.

(** ** [calculateTopicAckedSize] *)

Lemma sumSizes_cons (e : string * string) (pages : list (string * string))
    (size : Z) :
  pageSizeOf e = Some size -> sumSizes (e :: pages) = size + sumSizes pages.
Proof. intros He. unfold sumSizes. simpl. rewrite He. reflexivity. Qed.

(** When no read fails, [ri.kv.Load] returns the value of the store. *)
Lemma kvLoad_ok (faults : Faults) (site : reader) (meta : gmap string string)
    (key : string) :
  readsOk faults -> kvLoad faults site meta key = Ok (pebblekv.Load meta key).
Proof. intros [Hload _]. unfold kvLoad. rewrite Hload. reflexivity. Qed.

(** When no read fails, the iterator yields all the entries within its
    bounds and reports no error. *)
Lemma iterEntries_ok (faults : Faults) (site : reader) (topic : string)
    (all : list (string * string)) :
  readsOk faults -> iterEntries faults site topic all = all.
Proof. intros [_ Hiter]. unfold iterEntries. rewrite Hiter. reflexivity. Qed.

Lemma iterError_ok (faults : Faults) (site : reader) (topic : string) :
  readsOk faults -> iterError faults site topic = None.
Proof. intros [_ Hiter]. unfold iterError. rewrite Hiter. reflexivity. Qed.

Lemma readsOk_noFaults : readsOk noFaults.
Proof. split; reflexivity. Qed.

Lemma readsOk_faultsData : readsOk faultsData.
Proof. split; reflexivity. Qed.

Lemma ackedSizeLoop_prefix (faults : Faults) (meta : gmap string string)
    (topic : string) (pre rest : list (string * string)) (a : Z) :
  readsOk faults ->
  Forall (fun e => pageIsAcked meta topic e = true /\ is_Some (pageSizeOf e)) pre ->
  match rest with
  | [] => True
  | e :: _ => pageIsUnacked meta topic e = true
  end ->
  ackedSizeLoop faults meta (constructKey AckedTsTitle topic) None
    (pre ++ rest)%list (Int64.wrap a)
  = Ok (Int64.wrap (a + sumSizes pre)).
Proof.
  intros Hreads Hpre Hrest. revert a.
  induction Hpre as [| e pre [Hacked [size Hsize]] Hpre IH]; intros a.
  - cbn [app sumSizes fold_right]. rewrite Z.add_0_r.
    destruct rest as [| [key val] rest']; [reflexivity |].
    cbn [ackedSizeLoop]. unfold pageIsUnacked, ackedTsKeyOf in Hrest.
    cbn [fst] in Hrest.
    destruct (parsePageID key) as [pageID | err]; [| discriminate].
    cbn [bind]. rewrite (kvLoad_ok _ _ _ _ Hreads). cbn [bind].
    rewrite Hrest. reflexivity.
  - destruct e as [key val]. cbn [app ackedSizeLoop].
    unfold pageIsAcked, ackedTsKeyOf in Hacked. cbn [fst] in Hacked.
    unfold pageSizeOf in Hsize. cbn [snd] in Hsize.
    destruct (parsePageID key) as [pageID | err]; [| discriminate].
    cbn [bind]. rewrite (kvLoad_ok _ _ _ _ Hreads). cbn [bind].
    apply negb_true_iff in Hacked. rewrite Hacked.
    destruct (strconv.ParseInt val) as [sz | err] eqn:Hval; [| discriminate].
    cbn [bind]. unfold Int64.add. rewrite wrap_add_l. rewrite IH.
    f_equal. f_equal.
    rewrite (sumSizes_cons (key, val) pre sz); [lia |].
    unfold pageSizeOf. cbn [snd]. rewrite Hval. reflexivity.
Qed.

(** C5 as stated fails at [stTwoThenTen]: page 2 is acked with 5 bytes and
    page 10 is not acked, but the scan meets page 10 before page 2, stops
    there, and the sum returned is 0, not 5. *)
Lemma C5_counterexample :
  topicPages (kv stTwoThenTen) "T"
    = [("page_msg_size/T/10", "7"); ("page_msg_size/T/2", "5")] /\
  parsePageID "page_msg_size/T/10" = Ok 10 /\
  parsePageID "page_msg_size/T/2" = Ok 2 /\
  pageIsAcked (kv stTwoThenTen) "T" ("page_msg_size/T/2", "5") = true /\
  pageIsUnacked (kv stTwoThenTen) "T" ("page_msg_size/T/10", "7") = true /\
  calculateTopicAckedSize noFaults (kv stTwoThenTen) "T" = Ok 0.
Proof. vm_compute. repeat split; reflexivity. Qed.

(** C5, amended. When no read of the store fails,
    [calculateTopicAckedSize] visits the entries whose key
    starts with [page_msg_size/{topic}/], once each, in ascending byte-wise
    order of the keys; it stops at the first page visited whose [acked_ts]
    lookup returns the empty string, whatever follows that page, and
    returns the sum, as an [int64], of the sizes of the pages visited before
    the stop. *)
Theorem C5_acked_size_in_key_order (faults : Faults)
    (meta : gmap string string) (topic : string)
    (pre rest : list (string * string)) :
  readsOk faults ->
  topicPages meta topic = (pre ++ rest)%list ->
  Forall (fun e => pageIsAcked meta topic e = true /\ is_Some (pageSizeOf e)) pre ->
  match rest with
  | [] => True
  | e :: _ => pageIsUnacked meta topic e = true
  end ->
  StronglySorted pebblekv.entryLe (pre ++ rest)%list /\
  NoDup (pre ++ rest)%list.*1 /\
  (forall k v, (k, v) ∈ (pre ++ rest)%list <->
               meta !! k = Some v /\ exists r, k = pageMsgPrefixOf topic +:+ r) /\
  calculateTopicAckedSize faults meta topic = Ok (Int64.wrap (sumSizes pre)).
Proof.
  intros Hreads Hscan Hpre Hrest.
  destruct (topicPages_spec meta topic) as (Hs & Hn & Hin).
  rewrite Hscan in Hs, Hn, Hin.
  split; [exact Hs |]. split; [exact Hn |]. split; [exact Hin |].
  unfold calculateTopicAckedSize. rewrite (iterEntries_ok _ _ _ _ Hreads), (iterError_ok _ _ _ Hreads).
  change (pebblekv.SeekUpTo meta _ _) with (topicPages meta topic).
  rewrite Hscan. change 0 with (Int64.wrap 0) at 1.
  rewrite (ackedSizeLoop_prefix faults meta topic pre rest 0 Hreads Hpre Hrest).
  reflexivity.
Qed.

Lemma C5_acked_size_in_key_order_witness :
  calculateTopicAckedSize noFaults (kv stUnackedTen) "T" = Ok 100.
Proof.
  refine (proj2 (proj2 (proj2
    (C5_acked_size_in_key_order noFaults (kv stUnackedTen) "T"
       [("page_msg_size/T/1", "100")] [("page_msg_size/T/10", "100")] _ _ _ _)))).
  - split; reflexivity.
  - vm_compute. reflexivity.
  - constructor; [| constructor]. split; [vm_compute; reflexivity |].
    exists 100. vm_compute. reflexivity.
  - vm_compute. reflexivity.
Defined.

(** ** The eviction decision on parsed pages: a second pass marks nothing *)

Section Decision.

Variable cfg : PebblemqCfg.
Variable now : Z.

Lemma sizeMarked_shift (total deleted : Z) (vs : list pageView) :
  sizeMarked cfg total deleted vs = sizeMarked cfg (total - deleted) 0 vs.
Proof.
  revert total deleted. induction vs as [| v vs IH]; intros total deleted.
  - reflexivity.
  - cbn [sizeMarked].
    assert (Hc : sizeExpired cfg (deleted + pvSize v) total
                 = sizeExpired cfg (0 + pvSize v) (total - deleted)).
    { unfold sizeExpired. f_equal. f_equal. lia. }
    rewrite Hc. destruct (sizeExpired cfg (0 + pvSize v) (total - deleted)).
    + f_equal. rewrite IH. rewrite (IH (total - deleted)). f_equal. lia.
    + reflexivity.
Qed.

Lemma timeMarked_drop (vs : list pageView) :
  timeMarked cfg now (drop (timeMarked cfg now vs) vs) = O.
Proof.
  induction vs as [| v vs IH]; [reflexivity |].
  cbn [timeMarked]. destruct (pvAck v) as [t |] eqn:Hack.
  - destruct (timeExpired cfg now t) eqn:Hexp.
    + cbn [drop]. exact IH.
    + cbn [drop timeMarked]. rewrite Hack, Hexp. reflexivity.
  - cbn [drop timeMarked]. rewrite Hack. reflexivity.
Qed.

Lemma ackedPrefixSize_timeMarked (vs : list pageView) :
  ackedPrefixSize vs =
  sumSizesV (take (timeMarked cfg now vs) vs)
  + ackedPrefixSize (drop (timeMarked cfg now vs) vs).
Proof.
  induction vs as [| v vs IH]; [reflexivity |].
  cbn [timeMarked]. destruct (pvAck v) as [t |] eqn:Hack.
  - destruct (timeExpired cfg now t).
    + cbn [take drop ackedPrefixSize]. rewrite Hack, IH.
      unfold sumSizesV. cbn [fold_right]. lia.
    + reflexivity.
  - reflexivity.
Qed.

Lemma ackedPrefixSize_nonneg (vs : list pageView) :
  Forall (fun v => 0 <= pvSize v) vs -> 0 <= ackedPrefixSize vs.
Proof.
  induction 1 as [| v vs Hv Hvs IH]; cbn [ackedPrefixSize]; [lia |].
  destruct (pvAck v); lia.
Qed.

(** The size loop marks acked pages only and, started again on the pages it
    left, marks nothing. *)
Lemma sizeMarkedFrom_spec (vs : list pageView) :
  Forall (fun v => 0 <= pvSize v) vs ->
  Forall (fun v => is_Some (pvAck v)) (take (sizeMarkedFrom cfg vs) vs) /\
  sizeMarkedFrom cfg (drop (sizeMarkedFrom cfg vs) vs) = O.
Proof.
  unfold sizeMarkedFrom.
  induction 1 as [| v vs Hv Hvs IH].
  - split; [constructor | reflexivity].
  - cbn [sizeMarked].
    destruct (sizeExpired cfg (0 + pvSize v) (ackedPrefixSize (v :: vs)))
      eqn:Hexp.
    + assert (Hack : is_Some (pvAck v) /\
                     ackedPrefixSize (v :: vs) - (0 + pvSize v)
                     = ackedPrefixSize vs).
      { unfold sizeExpired in Hexp. apply andb_prop in Hexp as [Hq Hlt].
        apply Z.leb_le in Hq. apply Z.ltb_lt in Hlt.
        cbn [ackedPrefixSize] in *. unfold MB in Hlt.
        destruct (pvAck v); [split; [eexists; reflexivity | lia] | lia]. }
      destruct Hack as [Hack Hrem].
      rewrite sizeMarked_shift, Hrem. cbn [take drop].
      destruct IH as [IH1 IH2]. split; [constructor; assumption | exact IH2].
    + cbn [take drop sizeMarked]. rewrite Hexp. split; [constructor | reflexivity].
Qed.

Lemma timeExpired_mono (t t' : Z) :
  t <= t' -> timeExpired cfg now t = false -> timeExpired cfg now t' = false.
Proof.
  unfold timeExpired. intros Hle Ht.
  destruct (Z.leb_spec 0 (RetentionTimeSeconds cfg)); [| reflexivity].
  cbn [andb] in *. apply Z.ltb_ge in Ht. apply Z.ltb_ge. lia.
Qed.

Lemma ackTimes_cons_acked (v : pageView) (vs : list pageView) (t : Z) :
  pvAck v = Some t -> ackTimes (v :: vs) = t :: ackTimes vs.
Proof. intros Hack. unfold ackTimes. simpl. rewrite Hack. reflexivity. Qed.

Lemma ackTimes_drop (n : nat) (vs : list pageView) (t : Z) :
  t ∈ ackTimes (drop n vs) -> t ∈ ackTimes vs.
Proof.
  unfold ackTimes. rewrite !list_elem_of_omap.
  intros (v & Hv & Hack). exists v. split; [| exact Hack].
  rewrite <- (take_drop n vs). apply elem_of_app. right. exact Hv.
Qed.

(** After the head page, acked and not expired, no later page is expired
    when the acks are in page order. *)
Lemma timeMarked_after (v : pageView) (vs : list pageView) (t : Z) (n : nat) :
  pvAck v = Some t -> timeExpired cfg now t = false ->
  StronglySorted Z.le (ackTimes (v :: vs)) ->
  timeMarked cfg now (drop n vs) = O.
Proof.
  intros Hack Hexp Hsorted.
  destruct (drop n vs) as [| v' rest] eqn:Hdrop; [reflexivity |].
  cbn [timeMarked]. destruct (pvAck v') as [t' |] eqn:Hack'; [| reflexivity].
  assert (Hin : t' ∈ ackTimes vs).
  { apply (ackTimes_drop n). rewrite Hdrop. unfold ackTimes.
    apply list_elem_of_omap. exists v'. split; [left | exact Hack']. }
  rewrite (ackTimes_cons_acked v vs t Hack) in Hsorted.
  apply StronglySorted_inv in Hsorted as [_ Hall].
  rewrite List.Forall_forall in Hall.
  assert (Hle : t <= t') by (apply Hall, list_elem_of_In, Hin).
  rewrite (timeExpired_mono t t' Hle Hexp). reflexivity.
Qed.

Lemma ackTimes_suffix_sorted (n : nat) (vs : list pageView) :
  StronglySorted Z.le (ackTimes vs) -> StronglySorted Z.le (ackTimes (drop n vs)).
Proof.
  intros Hsorted. rewrite <- (take_drop n vs) in Hsorted.
  unfold ackTimes in *. rewrite omap_app in Hsorted.
  apply StronglySorted_app in Hsorted as (_ & _ & Hs). exact Hs.
Qed.

(** Once both loops have marked their pages and these are gone, the loops
    mark nothing on the pages that are left. *)
Lemma markedCount_idempotent (vs : list pageView) :
  Forall (fun v => 0 <= pvSize v) vs ->
  StronglySorted Z.le (ackTimes vs) ->
  markedCount cfg now (drop (markedCount cfg now vs) vs) = O.
Proof.
  intros Hsizes Hacks. unfold markedCount at 2.
  set (tm := timeMarked cfg now vs).
  rewrite sizeMarked_shift.
  assert (Hrem : ackedPrefixSize vs - sumSizesV (take tm vs)
                 = ackedPrefixSize (drop tm vs)).
  { rewrite (ackedPrefixSize_timeMarked vs). fold tm. lia. }
  rewrite Hrem. fold (sizeMarkedFrom cfg (drop tm vs)).
  set (W := drop tm vs). set (sm := sizeMarkedFrom cfg W).
  rewrite <- drop_drop. fold W.
  assert (HW : Forall (fun v => 0 <= pvSize v) W) by (apply Forall_drop, Hsizes).
  destruct (sizeMarkedFrom_spec W HW) as [Hacked Hsize0]. fold sm in Hacked, Hsize0.
  assert (Htime0 : timeMarked cfg now (drop sm W) = O).
  { destruct sm as [| sm'] eqn:Hsm.
    - cbn [drop]. subst W tm. apply timeMarked_drop.
    - destruct W as [| u W0] eqn:HWeq; [reflexivity |].
      cbn [take drop] in *. apply Forall_cons in Hacked as [[t Hack] _].
      assert (Hnot : timeMarked cfg now (u :: W0) = O).
      { rewrite <- HWeq. subst W tm. apply timeMarked_drop. }
      cbn [timeMarked] in Hnot. rewrite Hack in Hnot.
      destruct (timeExpired cfg now t) eqn:Hexp; [discriminate |].
      apply (timeMarked_after u W0 t sm' Hack Hexp).
      rewrite <- HWeq. subst W. apply ackTimes_suffix_sorted, Hacks. }
  unfold markedCount. rewrite Htime0. cbn [take drop plus].
  unfold sumSizesV at 1. cbn [fold_right].
  unfold sizeMarkedFrom in Hsize0. exact Hsize0.
Qed.

End Decision.

(** ** The loops of [expiredCleanUp] against the decision on parsed pages *)

Lemma last_cons_default {A : Type} (x : A) (l : list A) (d : A) :
  List.last (x :: l) d = List.last l x.
Proof.
  revert x d. induction l as [| y l IH]; intros x d; [reflexivity |].
  change (List.last (x :: y :: l) d) with (List.last (y :: l) d).
  rewrite (IH y d), (IH y x). reflexivity.
Qed.

Lemma lastID_cons (v : pageView) (vs : list pageView) (d : Z) :
  lastID (v :: vs) d = lastID vs (pvID v).
Proof. unfold lastID. cbn [map]. apply last_cons_default. Qed.

Lemma lastID_app (vs1 vs2 : list pageView) (d : Z) :
  lastID (vs1 ++ vs2)%list d = lastID vs2 (lastID vs1 d).
Proof.
  revert d. induction vs1 as [| v vs1 IH]; intros d; [reflexivity |].
  cbn [app]. rewrite !lastID_cons. apply IH.
Qed.

Lemma sumSizesV_cons (v : pageView) (vs : list pageView) :
  sumSizesV (v :: vs) = pvSize v + sumSizesV vs.
Proof. reflexivity. Qed.

Lemma sumSizesV_nonneg (vs : list pageView) :
  Forall (fun v => 0 <= pvSize v) vs -> 0 <= sumSizesV vs.
Proof.
  induction 1 as [| v vs Hv Hvs IH]; [unfold sumSizesV; simpl; lia |].
  rewrite sumSizesV_cons. lia.
Qed.

Lemma ackView_unacked (meta : gmap string string) (topic : string) (n : Z) :
  ackView meta topic n = Some None ->
  String.eqb (pebblekv.Load meta (ackedTsKeyOf topic n)) "" = true.
Proof.
  unfold ackView.
  destruct (String.eqb (pebblekv.Load meta (ackedTsKeyOf topic n)) "");
    [reflexivity |].
  destruct (strconv.ParseInt _); discriminate.
Qed.

Lemma ackView_acked (meta : gmap string string) (topic : string) (n t : Z) :
  ackView meta topic n = Some (Some t) ->
  String.eqb (pebblekv.Load meta (ackedTsKeyOf topic n)) "" = false /\
  strconv.ParseInt (pebblekv.Load meta (ackedTsKeyOf topic n)) = Ok t.
Proof.
  unfold ackView.
  destruct (String.eqb (pebblekv.Load meta (ackedTsKeyOf topic n)) "");
    [discriminate |].
  destruct (strconv.ParseInt _) as [t' | err]; [| discriminate].
  intros H. inversion H. split; reflexivity.
Qed.

Section Refinement.

Variable cfg : PebblemqCfg.
Variable now : Z.
Variable meta : gmap string string.
Variable topic : string.
Variable faults : Faults.
Hypothesis Hreads : readsOk faults.

Lemma msgTimeExpiredCheck_exact (t : Z) :
  Int64.inRange (t + RetentionTimeSeconds cfg) ->
  msgTimeExpiredCheck cfg now t = timeExpired cfg now t.
Proof.
  intros Hr. unfold msgTimeExpiredCheck, timeExpired, Int64.add.
  rewrite (wrap_id _ Hr).
  destruct (Z.ltb_spec (RetentionTimeSeconds cfg) 0);
    destruct (Z.leb_spec 0 (RetentionTimeSeconds cfg)); try lia; reflexivity.
Qed.

Lemma msgSizeExpiredCheck_exact (deleted size total : Z) :
  RetentionSizeInMB cfg * MB <= Int64.max ->
  0 <= deleted -> 0 <= size -> deleted + size <= Int64.max ->
  0 <= total <= Int64.max ->
  msgSizeExpiredCheck cfg (Int64.add deleted size) total
  = sizeExpired cfg (deleted + size) total.
Proof.
  intros Hq Hd Hs Hds Ht.
  unfold msgSizeExpiredCheck, sizeExpired, Int64.add, Int64.sub, Int64.mul.
  destruct (Z.ltb_spec (RetentionSizeInMB cfg) 0) as [Hneg | Hpos].
  - destruct (Z.leb_spec 0 (RetentionSizeInMB cfg)); [lia | reflexivity].
  - destruct (Z.leb_spec 0 (RetentionSizeInMB cfg)); [| lia].
    cbn [andb].
    rewrite (wrap_id (deleted + size)) by int64_range.
    rewrite (wrap_id (total - (deleted + size))) by int64_range.
    rewrite (wrap_id (RetentionSizeInMB cfg * MB)) by (unfold MB in *; int64_range).
    reflexivity.
Qed.

Lemma ackedSizeLoop_refines (pages : list (string * string))
    (vs : list pageView) (a : Z) :
  Forall2 (pageViewOf meta topic) pages vs ->
  Forall (fun v => 0 <= pvSize v) vs ->
  0 <= a -> a + sumSizesV vs <= Int64.max ->
  ackedSizeLoop faults meta (constructKey AckedTsTitle topic) None pages a
  = Ok (a + ackedPrefixSize vs).
Proof.
  intros Hviews. revert a.
  induction Hviews as [| [key val] v pages vs (Hkey & Hid & Hsize & Hack) _ IH];
    intros a Hsizes Ha Hsum.
  - cbn [ackedSizeLoop ackedPrefixSize]. f_equal. lia.
  - apply Forall_cons in Hsizes as [Hv Hsizes]. rewrite sumSizesV_cons in Hsum.
    pose proof (sumSizesV_nonneg vs Hsizes) as Hnn.
    cbn [fst snd] in *. cbn [ackedSizeLoop ackedPrefixSize]. rewrite Hid.
    cbn [bind]. fold (ackedTsKeyOf topic (pvID v)).
    rewrite (kvLoad_ok _ _ _ _ Hreads). cbn [bind].
    destruct (pvAck v) as [t |].
    + apply ackView_acked in Hack as [Hne _]. rewrite Hne, Hsize. cbn [bind].
      unfold Int64.add. rewrite wrap_id;
        [| unfold Int64.inRange, Int64.max, Int64.min in *; lia].
      rewrite IH; [f_equal; lia | assumption | lia | lia].
    + apply ackView_unacked in Hack. rewrite Hack. f_equal. lia.
Qed.

Lemma timeLoop_refines (pages : list (string * string)) (vs : list pageView)
    (v0 : passVars) :
  Forall2 (pageViewOf meta topic) pages vs ->
  Forall (fun v => 0 <= pvSize v) vs ->
  Forall (fun t => Int64.inRange (t + RetentionTimeSeconds cfg)) (ackTimes vs) ->
  0 <= deletedAckedSize v0 -> deletedAckedSize v0 + sumSizesV vs <= Int64.max ->
  exists v1,
    timeLoop cfg now faults meta (constructKey AckedTsTitle topic) None pages v0
    = Ok (drop (timeMarked cfg now vs) pages, v1) /\
    deletedAckedSize v1
    = deletedAckedSize v0 + sumSizesV (take (timeMarked cfg now vs) vs) /\
    pageEndID v1 = lastID (take (timeMarked cfg now vs) vs) (pageEndID v0).
Proof.
  intros Hviews. revert v0.
  induction Hviews as [| [key val] v pages vs (Hkey & Hid & Hsize & Hack) _ IH];
    intros v0 Hsizes Htimes Hd Hsum.
  - exists v0. cbn [timeLoop timeMarked take drop]. repeat split.
    unfold sumSizesV. simpl. lia.
  - apply Forall_cons in Hsizes as [Hv Hsizes]. rewrite sumSizesV_cons in Hsum.
    pose proof (sumSizesV_nonneg vs Hsizes) as Hnn.
    cbn [fst snd] in *. cbn [timeLoop timeMarked]. rewrite Hid.
    cbn [bind]. fold (ackedTsKeyOf topic (pvID v)).
    rewrite (kvLoad_ok _ _ _ _ Hreads). cbn [bind].
    destruct (pvAck v) as [t |] eqn:Hpv.
    + rewrite (ackTimes_cons_acked v vs t Hpv) in Htimes.
      apply Forall_cons in Htimes as [Ht Htimes].
      apply ackView_acked in Hack as [Hne Hts]. rewrite Hne, Hts. cbn [bind].
      rewrite (msgTimeExpiredCheck_exact t Ht).
      destruct (timeExpired cfg now t).
      * rewrite Hsize. cbn [bind].
        edestruct (IH {| deletedAckedSize := Int64.add (deletedAckedSize v0) (pvSize v);
                         pageCleaned := Int64.add (pageCleaned v0) 1;
                         pageEndID := pvID v;
                         lastAck := t |}) as (v1 & Hrun & Hdel & Hend);
          try assumption.
        { cbn [deletedAckedSize]. unfold Int64.add. rewrite wrap_id;
            [lia | unfold Int64.inRange, Int64.max, Int64.min in *; lia]. }
        { cbn [deletedAckedSize]. unfold Int64.add. rewrite wrap_id;
            [lia | unfold Int64.inRange, Int64.max, Int64.min in *; lia]. }
        exists v1. cbn [take drop]. split; [exact Hrun |]. split.
        -- rewrite Hdel. cbn [deletedAckedSize]. unfold Int64.add.
           rewrite wrap_id;
             [| unfold Int64.inRange, Int64.max, Int64.min in *; lia].
           rewrite sumSizesV_cons. lia.
        -- rewrite Hend. rewrite lastID_cons. reflexivity.
      * eexists. cbn [take drop]. split; [reflexivity |].
        cbn [deletedAckedSize pageEndID]. split; [unfold sumSizesV; simpl; lia |].
        reflexivity.
    + apply ackView_unacked in Hack. rewrite Hack.
      exists v0. cbn [take drop]. split; [reflexivity |].
      split; [unfold sumSizesV; simpl; lia | reflexivity].
Qed.

Lemma sizeLoop_refines (total : Z) (pages : list (string * string))
    (vs : list pageView) (v0 : passVars) :
  Forall2 (pageViewOf meta topic) pages vs ->
  Forall (fun v => 0 <= pvSize v) vs ->
  RetentionSizeInMB cfg * MB <= Int64.max ->
  0 <= total <= Int64.max ->
  0 <= deletedAckedSize v0 -> deletedAckedSize v0 + sumSizesV vs <= Int64.max ->
  exists v1,
    sizeLoop cfg total None pages v0 = Ok v1 /\
    pageEndID v1
    = lastID (take (sizeMarked cfg total (deletedAckedSize v0) vs) vs)
        (pageEndID v0).
Proof.
  intros Hviews. revert v0.
  induction Hviews as [| [key val] v pages vs (Hkey & Hid & Hsize & Hack) _ IH];
    intros v0 Hsizes Hq Htotal Hd Hsum.
  - exists v0. split; reflexivity.
  - apply Forall_cons in Hsizes as [Hv Hsizes]. rewrite sumSizesV_cons in Hsum.
    pose proof (sumSizesV_nonneg vs Hsizes) as Hnn.
    cbn [fst snd] in *. cbn [sizeLoop sizeMarked]. rewrite Hsize. cbn [bind].
    rewrite (msgSizeExpiredCheck_exact (deletedAckedSize v0) (pvSize v) total)
      by (assumption || lia).
    destruct (sizeExpired cfg (deletedAckedSize v0 + pvSize v) total).
    + rewrite Hid. cbn [bind].
      assert (Hadd : Int64.add (deletedAckedSize v0) (pvSize v)
                     = deletedAckedSize v0 + pvSize v).
      { unfold Int64.add. apply wrap_id.
        unfold Int64.inRange, Int64.max, Int64.min in *. lia. }
      edestruct (IH {| deletedAckedSize := Int64.add (deletedAckedSize v0) (pvSize v);
                       pageCleaned := Int64.add (pageCleaned v0) 1;
                       pageEndID := pvID v;
                       lastAck := lastAck v0 |}) as (v1 & Hrun & Hend);
        try assumption.
      { cbn [deletedAckedSize]. rewrite Hadd. lia. }
      { cbn [deletedAckedSize]. rewrite Hadd. lia. }
      exists v1. split; [exact Hrun |]. rewrite Hend.
      cbn [deletedAckedSize pageEndID take]. rewrite Hadd, lastID_cons.
      reflexivity.
    + exists v0. split; reflexivity.
Qed.

End Refinement.

Lemma sumSizesV_app (vs1 vs2 : list pageView) :
  sumSizesV (vs1 ++ vs2)%list = sumSizesV vs1 + sumSizesV vs2.
Proof.
  induction vs1 as [| v vs1 IH]; [reflexivity |].
  cbn [app]. rewrite !sumSizesV_cons, IH. lia.
Qed.

Lemma sumSizesV_take_drop (n : nat) (vs : list pageView) :
  sumSizesV (take n vs) + sumSizesV (drop n vs) = sumSizesV vs.
Proof. rewrite <- sumSizesV_app, take_drop. reflexivity. Qed.

Lemma ackedPrefixSize_le_sum (vs : list pageView) :
  Forall (fun v => 0 <= pvSize v) vs -> ackedPrefixSize vs <= sumSizesV vs.
Proof.
  induction 1 as [| v vs Hv Hvs IH]; [reflexivity |].
  cbn [ackedPrefixSize]. rewrite sumSizesV_cons.
  pose proof (sumSizesV_nonneg vs Hvs). destruct (pvAck v); lia.
Qed.

(** [expiredCleanUp] on a topic whose pages read as [vs], when no read
    fails: it calls [cleanData] exactly when some acked size is there and
    the last page marked by the two loops has an id other than 0. *)
Lemma expiredCleanUp_decision (cfg : PebblemqCfg) (now : Z) (faults : Faults)
    (topic : string) (st : State) (vs : list pageView) :
  readsOk faults ->
  Forall2 (pageViewOf (kv st) topic) (topicPages (kv st) topic) vs ->
  Forall (fun v => 0 <= pvSize v) vs ->
  sumSizesV vs <= Int64.max ->
  RetentionSizeInMB cfg * MB <= Int64.max ->
  Forall (fun t => Int64.inRange (t + RetentionTimeSeconds cfg)) (ackTimes vs) ->
  expiredCleanUp cfg now faults topic st =
  if ackedPrefixSize vs =? 0 then (Ok tt, st)
  else if lastID (take (markedCount cfg now vs) vs) 0 =? 0 then (Ok tt, st)
       else cleanData faults topic
              (lastID (take (markedCount cfg now vs) vs) 0) st.
Proof.
  intros Hreads Hviews Hsizes Hsum Hquota Htimes.
  pose proof (sumSizesV_nonneg vs Hsizes) as Hnn.
  pose proof (ackedPrefixSize_nonneg vs Hsizes) as Hann.
  pose proof (ackedPrefixSize_le_sum vs Hsizes) as Hale.
  unfold expiredCleanUp, calculateTopicAckedSize. rewrite (iterEntries_ok _ _ _ _ Hreads), (iterError_ok _ _ _ Hreads).
  change (pebblekv.SeekUpTo (kv st) _ _) with (topicPages (kv st) topic).
  rewrite (ackedSizeLoop_refines (kv st) topic faults Hreads _ vs 0 Hviews Hsizes)
    by lia.
  rewrite Z.add_0_l. destruct (ackedPrefixSize vs =? 0); [reflexivity |].
  unfold expiredScan. rewrite (iterEntries_ok _ _ _ _ Hreads), (iterError_ok _ _ _ Hreads).
  change (pebblekv.SeekUpTo (kv st) _ _) with (topicPages (kv st) topic).
  destruct (timeLoop_refines cfg now (kv st) topic faults Hreads _ vs passVars0
              Hviews Hsizes Htimes) as (v1 & Hrun1 & Hdel1 & Hend1);
    [cbn; lia | cbn; lia |].
  rewrite Hrun1. cbn [deletedAckedSize pageEndID passVars0] in Hdel1, Hend1.
  rewrite Z.add_0_l in Hdel1.
  set (tm := timeMarked cfg now vs) in *.
  pose proof (sumSizesV_take_drop tm vs) as Hsplit.
  assert (Hnn1 : 0 <= sumSizesV (take tm vs))
    by (apply sumSizesV_nonneg, Forall_take, Hsizes).
  destruct (sizeLoop_refines cfg (kv st) topic (ackedPrefixSize vs)
              (drop tm (topicPages (kv st) topic)) (drop tm vs) v1)
    as (v2 & Hrun2 & Hend2).
  { apply Forall2_drop. exact Hviews. }
  { apply Forall_drop. exact Hsizes. }
  { exact Hquota. }
  { lia. }
  { lia. }
  { lia. }
  rewrite Hrun2.
  assert (Hend : pageEndID v2 = lastID (take (markedCount cfg now vs) vs) 0).
  { rewrite Hend2, Hend1, Hdel1. rewrite <- lastID_app.
    unfold markedCount. fold tm. rewrite take_take_drop. reflexivity. }
  rewrite Hend. reflexivity.
Qed.

(** ** The scan after a range delete *)

Lemma list_filter_comm {A : Type} (f g : A -> bool) (l : list A) :
  List.filter f (List.filter g l) = List.filter g (List.filter f l).
Proof.
  induction l as [| x l IH]; [reflexivity |]. cbn [List.filter].
  destruct (g x) eqn:Hg, (f x) eqn:Hf; cbn [List.filter];
    rewrite ?Hg, ?Hf, IH; reflexivity.
Qed.

Lemma list_filter_all {A : Type} (f : A -> bool) (l : list A) :
  Forall (fun x => f x = true) l -> List.filter f l = l.
Proof.
  induction 1 as [| x l Hx Hl IH]; [reflexivity |].
  cbn [List.filter]. rewrite Hx, IH. reflexivity.
Qed.

Lemma list_filter_none {A : Type} (f : A -> bool) (l : list A) :
  Forall (fun x => f x = false) l -> List.filter f l = [].
Proof.
  induction 1 as [| x l Hx Hl IH]; [reflexivity |].
  cbn [List.filter]. rewrite Hx, IH. reflexivity.
Qed.

Lemma elem_of_entries_DeleteRange (lo hi : string) (m : gmap string string)
    (k v : string) :
  (k, v) ∈ pebblekv.entries (pebblekv.DeleteRange lo hi m) <->
  (k, v) ∈ List.filter (fun e => negb (pebblekv.inRange lo hi e.1))
             (pebblekv.entries m).
Proof.
  rewrite elem_of_entries, lookup_DeleteRange.
  rewrite list_elem_of_In, List.filter_In, <- list_elem_of_In, elem_of_entries.
  cbn [fst]. destruct (pebblekv.inRange lo hi k); cbn [negb].
  - split; [discriminate | intros [_ H]; discriminate].
  - split; [intros H; split; [exact H | reflexivity] | intros [H _]; exact H].
Qed.

(** Iterating after a range delete meets the entries met before it, but for
    those in the range. *)
Lemma entries_DeleteRange (lo hi : string) (m : gmap string string) :
  pebblekv.entries (pebblekv.DeleteRange lo hi m) =
  List.filter (fun e => negb (pebblekv.inRange lo hi e.1)) (pebblekv.entries m).
Proof.
  apply (StronglySorted_unique_strong pebblekv.entryLe).
  - intros [k1 v1] [k2 v2] H1 H2 Hle1 Hle2.
    apply elem_of_entries_DeleteRange in H1.
    apply list_elem_of_In, List.filter_In in H1 as [H1 _].
    apply list_elem_of_In, List.filter_In in H2 as [H2 _].
    apply list_elem_of_In, elem_of_entries in H1.
    apply list_elem_of_In, elem_of_entries in H2.
    unfold pebblekv.entryLe in Hle1, Hle2. cbn [fst] in Hle1, Hle2.
    assert (k1 = k2) by (apply (anti_symm String.le); assumption).
    subst k2. congruence.
  - apply entries_sorted.
  - apply StronglySorted_list_filter, entries_sorted.
  - apply NoDup_Permutation.
    + apply (NoDup_fmap_1 fst), entries_NoDup.
    + apply (NoDup_fmap_1 fst), NoDup_keys_list_filter, entries_NoDup.
    + intros [k v]. apply elem_of_entries_DeleteRange.
Qed.

Lemma SeekUpTo_DeleteRange (lo hi a b : string) (m : gmap string string) :
  pebblekv.SeekUpTo (pebblekv.DeleteRange lo hi m) a b =
  List.filter (fun e => negb (pebblekv.inRange lo hi e.1))
    (pebblekv.SeekUpTo m a b).
Proof.
  unfold pebblekv.SeekUpTo. rewrite entries_DeleteRange.
  apply list_filter_comm.
Qed.

Lemma inRange_prefix_bound (c x s : string) :
  pebblekv.inRange c (c +:+ x) (c +:+ s) = String.ltb s x.
Proof.
  rewrite <- (append_nil_r c) at 1. rewrite inRange_app_common.
  unfold pebblekv.inRange, String.leb. destruct s; reflexivity.
Qed.

(** Keys of the three families of a topic do not mix. *)
Lemma pageMsg_not_pageTs (topic r r' : string) :
  pageMsgPrefixOf topic +:+ r <> (constructKey PageTsTitle topic +:+ "/") +:+ r'.
Proof.
  unfold pageMsgPrefixOf, constructKey, PageMsgSizeTitle, PageTsTitle.
  rewrite !append_assoc, !append_cons. intros H. inversion H.
Qed.

Lemma pageMsg_not_acked (topic r r' : string) :
  pageMsgPrefixOf topic +:+ r <> (constructKey AckedTsTitle topic +:+ "/") +:+ r'.
Proof.
  unfold pageMsgPrefixOf, constructKey, PageMsgSizeTitle, AckedTsTitle.
  rewrite !append_assoc, !append_cons. intros H. inversion H.
Qed.

Lemma acked_not_pageTs (topic r r' : string) :
  (constructKey AckedTsTitle topic +:+ "/") +:+ r
  <> (constructKey PageTsTitle topic +:+ "/") +:+ r'.
Proof.
  unfold constructKey, PageTsTitle, AckedTsTitle.
  rewrite !append_assoc, !append_cons. intros H. inversion H.
Qed.

Lemma inRange_other_family (lo x k : string) :
  (forall r, k <> lo +:+ r) -> pebblekv.inRange lo (lo +:+ x) k = false.
Proof.
  intros Hne. destruct (pebblekv.inRange lo (lo +:+ x) k) eqn:Hin; [| reflexivity].
  apply inRange_prefix_lo in Hin as (r & ->). exfalso. apply (Hne r). reflexivity.
Qed.

Lemma last_elem_of (l : list Z) (d : Z) : l = [] \/ List.last l d ∈ l.
Proof.
  revert d. induction l as [| y l IH]; intros d; [left; reflexivity |].
  right. rewrite last_cons_default.
  destruct (IH y) as [-> | Hin]; [left | right; exact Hin].
Qed.

Lemma sorted_le_last (l : list Z) (d : Z) :
  StronglySorted Z.lt l -> Forall (fun x => x <= List.last l d) l.
Proof.
  intros Hsorted. revert d.
  induction Hsorted as [| y l Hsorted IH Hall]; intros d; [constructor |].
  rewrite last_cons_default. constructor; [| apply IH].
  destruct (last_elem_of l y) as [-> | Hin]; [reflexivity |].
  rewrite List.Forall_forall in Hall. apply Z.lt_le_incl, Hall.
  apply list_elem_of_In, Hin.
Qed.

Section AfterCleanData.

Variable meta : gmap string string.
Variable topic : string.
Variable E : Z.

Lemma topicPages_after_cleanData :
  topicPages (metaAfterCleanData meta topic E) topic =
  List.filter
    (fun e => negb (pebblekv.inRange (pageMsgPrefixOf topic)
                      (pageMsgPrefixOf topic +:+ deleteBound E) e.1))
    (topicPages meta topic).
Proof.
  unfold metaAfterCleanData, pebblekv.applyBatch.
  cbn [fold_left pebblekv.applyOp].
  unfold topicPages. rewrite !SeekUpTo_DeleteRange.
  fold (topicPages meta topic).
  rewrite <- !(append_assoc _ "/" (deleteBound E)). fold (pageMsgPrefixOf topic).
  rewrite list_filter_all.
  - rewrite list_filter_all; [reflexivity |].
    apply List.Forall_forall. intros [k v] Hin.
    apply List.filter_In in Hin as [Hin _].
    apply list_elem_of_In, topicPages_spec in Hin as (_ & r & ->).
    cbn [fst]. rewrite inRange_other_family; [reflexivity |].
    intros r'. apply pageMsg_not_pageTs.
  - apply List.Forall_forall. intros [k v] Hin.
    apply List.filter_In in Hin as [Hin _].
    apply List.filter_In in Hin as [Hin _].
    apply list_elem_of_In, topicPages_spec in Hin as (_ & r & ->).
    cbn [fst]. rewrite inRange_other_family; [reflexivity |].
    intros r'. apply pageMsg_not_acked.
Qed.

(** A page whose decimal id is not below the bound keeps its ack. *)
Lemma ackView_after_cleanData (n : Z) :
  String.ltb (strconv.FormatInt n) (deleteBound E) = false ->
  ackView (metaAfterCleanData meta topic E) topic n = ackView meta topic n.
Proof.
  intros Hge. unfold ackView, pebblekv.Load.
  assert (Hlook : metaAfterCleanData meta topic E !! ackedTsKeyOf topic n
                  = meta !! ackedTsKeyOf topic n).
  { unfold metaAfterCleanData. rewrite lookup_applyBatch3.
    unfold ackedTsKeyOf.
    rewrite <- !(append_assoc _ "/" (deleteBound E)).
    rewrite <- !(append_assoc _ "/" (strconv.FormatInt n)).
    rewrite (inRange_other_family (constructKey PageMsgSizeTitle topic +:+ "/"));
      [| intros r H; symmetry in H; exact (pageMsg_not_acked topic _ _ H)].
    rewrite (inRange_other_family (constructKey PageTsTitle topic +:+ "/"));
      [| intros r; apply acked_not_pageTs].
    rewrite inRange_prefix_bound, Hge. reflexivity. }
  rewrite Hlook. reflexivity.
Qed.

Lemma pageViews_after_cleanData (pages : list (string * string))
    (vs : list pageView) :
  Forall2 (pageViewOf meta topic) pages vs ->
  Forall (fun v => String.ltb (strconv.FormatInt (pvID v)) (deleteBound E) = false)
    vs ->
  Forall2 (pageViewOf (metaAfterCleanData meta topic E) topic) pages vs.
Proof.
  induction 1 as [| e v pages vs (Hkey & Hid & Hsize & Hack) _ IH];
    intros Hall; [constructor |].
  apply Forall_cons in Hall as [Hv Hall]. constructor; [| apply IH, Hall].
  repeat split; try assumption.
  rewrite (ackView_after_cleanData _ Hv). exact Hack.
Qed.

Lemma inRange_by_view (pages : list (string * string)) (vs : list pageView)
    (b : bool) :
  Forall2 (pageViewOf meta topic) pages vs ->
  Forall (fun v => String.ltb (strconv.FormatInt (pvID v)) (deleteBound E) = b)
    vs ->
  Forall (fun e => negb (pebblekv.inRange (pageMsgPrefixOf topic)
                           (pageMsgPrefixOf topic +:+ deleteBound E) e.1) = negb b)
    pages.
Proof.
  induction 1 as [| e v pages vs (Hkey & _) _ IH]; intros Hall; [constructor |].
  apply Forall_cons in Hall as [Hv Hall]. constructor; [| apply IH, Hall].
  rewrite Hkey, inRange_prefix_bound, Hv. reflexivity.
Qed.

End AfterCleanData.

(** With ids ascending along the scan and decimal order agreeing with the
    order of the ids, the pages up to the last one marked are below the
    bound of the range delete, and the others are not. *)
Lemma decimal_split (vs : list pageView) (m : nat) :
  StronglySorted Z.lt (map pvID vs) ->
  Forall (fun v => Forall (fun v' =>
    String.ltb (strconv.FormatInt (pvID v))
               (strconv.FormatInt (Int64.add (pvID v') 1))
    = (pvID v <=? pvID v')) vs) vs ->
  take m vs <> [] ->
  Forall (fun v =>
    String.ltb (strconv.FormatInt (pvID v))
      (strconv.FormatInt (Int64.add (lastID (take m vs) 0) 1)) = true)
    (take m vs) /\
  Forall (fun v =>
    String.ltb (strconv.FormatInt (pvID v))
      (strconv.FormatInt (Int64.add (lastID (take m vs) 0) 1)) = false)
    (drop m vs).
Proof.
  intros Hsorted Hdec Hne.
  rewrite <- (take_drop m vs) in Hsorted at 1. rewrite map_app in Hsorted.
  apply StronglySorted_app in Hsorted as (Hcross & Hs1 & _).
  pose proof (sorted_le_last _ 0 Hs1) as Hle. fold (lastID (take m vs) 0) in Hle.
  assert (HE : exists vE, vE ∈ vs /\ pvID vE = lastID (take m vs) 0).
  { destruct (last_elem_of (map pvID (take m vs)) 0) as [Hnil | Hin].
    - destruct (take m vs); [contradiction | discriminate].
    - fold (lastID (take m vs) 0) in Hin.
      apply list_elem_of_fmap in Hin as (vE & HvE & Hin). exists vE. split.
      + rewrite <- (take_drop m vs). apply elem_of_app. left. exact Hin.
      + symmetry. exact HvE. }
  destruct HE as (vE & HvEin & HvE).
  rewrite List.Forall_forall in Hdec.
  split; apply List.Forall_forall; intros v Hv.
  - assert (Hvin : In v vs).
    { rewrite <- (take_drop m vs). apply List.in_or_app. left. exact Hv. }
    specialize (Hdec v Hvin). rewrite List.Forall_forall in Hdec.
    specialize (Hdec vE (proj1 (list_elem_of_In _ _) HvEin)).
    rewrite HvE in Hdec. rewrite Hdec. apply Z.leb_le.
    rewrite List.Forall_forall in Hle. apply Hle. apply List.in_map. exact Hv.
  - assert (Hvin : In v vs).
    { rewrite <- (take_drop m vs). apply List.in_or_app. right. exact Hv. }
    specialize (Hdec v Hvin). rewrite List.Forall_forall in Hdec.
    specialize (Hdec vE (proj1 (list_elem_of_In _ _) HvEin)).
    rewrite HvE in Hdec. rewrite Hdec. apply Z.leb_gt.
    apply Hcross.
    + destruct (last_elem_of (map pvID (take m vs)) 0) as [Hnil | Hin].
      * destruct (take m vs); [contradiction | discriminate].
      * exact Hin.
    + apply list_elem_of_In, List.in_map. exact Hv.
Qed.

(** ** Running [expiredCleanUp] twice *)

Lemma cleanData_err_noFaults (topic : string) (E : Z) (st st' : State) (e : error) :
  cleanData noFaults topic E st = (Err e, st') -> st' = st.
Proof.
  unfold cleanData, DeleteMessages, Commit. cbn [noFaults dataCommitErr metaCommitErr].
  destruct (topicMu st !! topic) as [[] |]; intros H; inversion H; reflexivity.
Qed.

Lemma lastID_nil (d : Z) : lastID [] d = d.
Proof. reflexivity. Qed.

Lemma ackTimes_drop_Forall (P : Z -> Prop) (n : nat) (vs : list pageView) :
  Forall P (ackTimes vs) -> Forall P (ackTimes (drop n vs)).
Proof.
  rewrite !List.Forall_forall. intros Hall t Hin. apply Hall.
  apply list_elem_of_In, (ackTimes_drop n), list_elem_of_In, Hin.
Qed.

(** C8 as stated fails at [stLateAck], with a retention time of 60 s, a
    quota of 0 MB and the clock at 1000: the first pass stops its time loop
    at page 1 (acked at 990), evicts page 1 by size and leaves page 2; the
    second pass finds page 2 (acked at 0) expired and commits two more
    batches that delete it. *)
Lemma C8_counterexample :
  exists st1 st2,
    expiredCleanUp cfgTimeAndSize 1000 noFaults "T" stLateAck = (Ok tt, st1) /\
    expiredCleanUp cfgTimeAndSize 1000 noFaults "T" st1 = (Ok tt, st2) /\
    kv st1 !! "page_msg_size/T/2" = Some "5" /\
    kv st2 !! "page_msg_size/T/2" = None /\
    db st1 !! "T/2" = Some "m2" /\
    db st2 !! "T/2" = None /\
    length (events st1) = 2%nat /\
    length (events st2) = 4%nat.
Proof.
  eexists. eexists.
  split; [vm_compute; reflexivity |].
  split; [vm_compute; reflexivity |].
  vm_compute. repeat split; reflexivity.
Qed.

(** What a pass does to the scan of an orderly topic: either it leaves the
    state as it is, or it removes from the scan exactly the pages that the
    two loops marked, and the pages that stay read as before. *)
Lemma first_pass_outcome (cfg : PebblemqCfg) (now : Z) (topic : string)
    (st st1 : State) (r1 : result unit) (vs : list pageView) :
  OrderlyTopic cfg (kv st) topic vs ->
  expiredCleanUp cfg now noFaults topic st = (r1, st1) ->
  st1 = st \/
  (topicPages (kv st1) topic
   = drop (markedCount cfg now vs) (topicPages (kv st) topic) /\
   Forall2 (pageViewOf (kv st1) topic) (topicPages (kv st1) topic)
     (drop (markedCount cfg now vs) vs)).
Proof.
  intros [Hviews Hasc Hdec Hsizes Htotal Hquota Htimes Hacks] Hrun1.
  rewrite (expiredCleanUp_decision cfg now noFaults topic st vs
             readsOk_noFaults Hviews Hsizes Htotal Hquota Htimes) in Hrun1.
  destruct (ackedPrefixSize vs =? 0);
    [left; inversion Hrun1; reflexivity |].
  set (m := markedCount cfg now vs) in *.
  destruct (Z.eqb_spec (lastID (take m vs) 0) 0) as [HE0 | HE];
    [left; inversion Hrun1; reflexivity |].
  destruct r1 as [[] | e];
    [| left; apply (cleanData_err_noFaults _ _ _ _ _ Hrun1)].
  right. apply cleanData_ok in Hrun1 as [_ Hkv].
  change (kv st1 = metaAfterCleanData (kv st) topic (lastID (take m vs) 0)) in Hkv.
  assert (Hne : take m vs <> []).
  { intros Hnil. apply HE. rewrite Hnil. reflexivity. }
  destruct (decimal_split vs m Hasc Hdec Hne) as [Hbelow Hnot].
  assert (Hpages : topicPages (kv st1) topic = drop m (topicPages (kv st) topic)).
  { rewrite Hkv, topicPages_after_cleanData.
    rewrite <- (take_drop m (topicPages (kv st) topic)) at 1.
    rewrite List.filter_app.
    rewrite (list_filter_none _ (take m (topicPages (kv st) topic))).
    - rewrite list_filter_all; [reflexivity |].
      apply (inRange_by_view (kv st) topic _ _ (drop m vs) false);
        [apply Forall2_drop, Hviews | exact Hnot].
    - apply (inRange_by_view (kv st) topic _ _ (take m vs) true);
        [apply Forall2_take, Hviews | exact Hbelow]. }
  split; [exact Hpages |].
  rewrite Hpages, Hkv. apply pageViews_after_cleanData;
    [apply Forall2_drop, Hviews | exact Hnot].
Qed.

(** C8, amended. On a topic whose bookkeeping is in order (see
    [OrderlyTopic]: page ids ascending along the scan; for any two pages
    with ids [p] and [q], the decimal of [p] byte-wise below the decimal of
    [q + 1] exactly when [p <= q]; sizes not negative and within [int64] in
    total, quota and expiry times within [int64]; acks recorded in page
    order), with no commit refused and no read of the store failing,
    running [expiredCleanUp] twice with the stores, the configuration and
    the clock untouched in between makes the second execution a no-op: it
    leaves the state as the first left it, so it commits no batch and
    deletes nothing. *)
Theorem C8_second_pass_is_noop (cfg : PebblemqCfg) (now : Z) (topic : string)
    (st st1 st2 : State) (r1 r2 : result unit) (vs : list pageView) :
  OrderlyTopic cfg (kv st) topic vs ->
  expiredCleanUp cfg now noFaults topic st = (r1, st1) ->
  expiredCleanUp cfg now noFaults topic st1 = (r2, st2) ->
  st2 = st1.
Proof.
  intros Horderly Hrun1 Hrun2.
  destruct (first_pass_outcome cfg now topic st st1 r1 vs Horderly Hrun1)
    as [-> | [_ Hviews1]].
  { rewrite Hrun1 in Hrun2. inversion Hrun2. reflexivity. }
  destruct Horderly as [_ _ _ Hsizes Htotal Hquota Htimes Hacks].
  set (m := markedCount cfg now vs) in *.
  pose proof (sumSizesV_take_drop m vs) as Hsplit.
  assert (Hnn1 : 0 <= sumSizesV (take m vs))
    by (apply sumSizesV_nonneg, Forall_take, Hsizes).
  rewrite (expiredCleanUp_decision cfg now noFaults topic st1 (drop m vs)
             readsOk_noFaults) in Hrun2.
  - subst m. rewrite (markedCount_idempotent cfg now vs Hsizes Hacks) in Hrun2.
    cbn [take] in Hrun2. rewrite lastID_nil in Hrun2. cbn [Z.eqb] in Hrun2.
    destruct (ackedPrefixSize _ =? 0); inversion Hrun2; reflexivity.
  - exact Hviews1.
  - apply Forall_drop, Hsizes.
  - lia.
  - exact Hquota.
  - apply ackTimes_drop_Forall, Htimes.
Qed.

(** The condition on the decimals of the ids and of their successors is
    needed: on [stPageNine], whose only page has id 9, the first pass commits
    its two batches with the bound [10], which is byte-wise below [9], so
    that page 9 stays; the second pass finds it again and commits two more
    batches. *)
Lemma second_pass_commits_again_on_page_nine :
  exists st1 st2,
    expiredCleanUp cfgTimeOnly 1000 noFaults "T" stPageNine = (Ok tt, st1) /\
    kv st1 = kv stPageNine /\ length (events st1) = 2%nat /\
    expiredCleanUp cfgTimeOnly 1000 noFaults "T" st1 = (Ok tt, st2) /\
    length (events st2) = 4%nat.
Proof.
  eexists. eexists. split; [vm_compute; reflexivity |].
  split; [vm_compute; reflexivity |]. split; [reflexivity |].
  split; [vm_compute; reflexivity |]. reflexivity.
Qed.

Lemma stOrderly_in_order :
  OrderlyTopic cfgTimeAndSize (kv stOrderly) "T"
    [ {| pvID := 1; pvSize := 5; pvAck := Some 100 |};
      {| pvID := 2; pvSize := 5; pvAck := Some 990 |};
      {| pvID := 3; pvSize := 5; pvAck := Some 995 |} ].
Proof.
  constructor.
  - assert (Hpages : topicPages (kv stOrderly) "T"
                     = [("page_msg_size/T/1", "5"); ("page_msg_size/T/2", "5");
                        ("page_msg_size/T/3", "5")])
      by (vm_compute; reflexivity).
    rewrite Hpages.
    repeat (constructor; [repeat split; vm_compute; reflexivity |]).
    constructor.
  - cbn [map pvID]. repeat constructor; lia.
  - repeat constructor.
  - cbn [pvSize]. repeat constructor; cbn; lia.
  - vm_compute. discriminate.
  - vm_compute. discriminate.
  - change (Forall (fun t => Int64.inRange (t + 60)) [100; 990; 995]).
    repeat constructor; vm_compute; discriminate.
  - change (StronglySorted Z.le [100; 990; 995]).
    repeat constructor; lia.
Defined.

(** On [stOrderly] the first pass evicts pages 1 and 2 of topic [T] and the
    second pass changes nothing. *)
Lemma C8_second_pass_is_noop_witness :
  exists st1,
    expiredCleanUp cfgTimeAndSize 1000 noFaults "T" stOrderly = (Ok tt, st1) /\
    kv st1 !! "page_msg_size/T/2" = None /\
    kv st1 !! "page_msg_size/T/3" = Some "5" /\
    forall r2 st2,
      expiredCleanUp cfgTimeAndSize 1000 noFaults "T" st1 = (r2, st2) -> st2 = st1.
Proof.
  eexists. split; [vm_compute; reflexivity |].
  split; [vm_compute; reflexivity |]. split; [vm_compute; reflexivity |].
  intros r2 st2 Hrun2.
  refine (C8_second_pass_is_noop cfgTimeAndSize 1000 "T" stOrderly _ st2
            (Ok tt) r2 _ stOrderly_in_order _ Hrun2).
  vm_compute. reflexivity.
Defined.

(** ** Page ids with the same number of digits

    Among ids written with the same number of decimal digits, byte-wise order
    of the keys is the order of the ids; such a topic meets the condition
    [ot_decimal] of [OrderlyTopic]. *)

Lemma formatDigits_fixed (fuel k : nat) (n : Z) (acc : string) :
  (1 <= k <= fuel)%nat -> 0 <= n < 10 ^ Z.of_nat k ->
  (k = 1%nat \/ 10 ^ (Z.of_nat k - 1) <= n) ->
  strconv.formatDigits fuel n acc = fixedDigits k n +:+ acc.
Proof.
  revert k n acc. induction fuel as [| fuel IH]; intros k n acc Hk Hn Hlow; [lia |].
  cbn [strconv.formatDigits].
  destruct (Z.eqb_spec (n / 10) 0) as [Hq | Hq].
  - assert (Hn10 : n < 10).
    { pose proof (Z.div_mod n 10 ltac:(lia)).
      pose proof (Z.mod_pos_bound n 10 ltac:(lia)). lia. }
    assert (k = 1%nat) as ->.
    { destruct Hlow as [-> | Hlow]; [reflexivity |].
      destruct k as [| [| k]]; [lia | reflexivity |].
      exfalso.
      assert (10 ^ 1 <= 10 ^ (Z.of_nat (S (S k)) - 1))
        by (apply Z.pow_le_mono_r; lia).
      lia. }
    cbn [fixedDigits]. reflexivity.
  - assert (Hge : 10 <= n).
    { destruct (Z_lt_le_dec n 10) as [Hlt | Hge]; [| exact Hge].
      exfalso. apply Hq. apply Z.div_small. lia. }
    destruct k as [| [| k]]; [lia | simpl in Hn; lia |].
    rewrite (IH (S k)).
    + change (fixedDigits (S (S k)) n)
        with (fixedDigits (S k) (n / 10)
              +:+ String (strconv.digitChar (n mod 10)) "").
      rewrite append_assoc. reflexivity.
    + lia.
    + replace (Z.of_nat (S (S k))) with (Z.succ (Z.of_nat (S k))) in Hn by lia.
      rewrite Z.pow_succ_r in Hn by lia.
      split; [apply Z.div_pos; lia | apply Z.div_lt_upper_bound; lia].
    + destruct Hlow as [Hlow | Hlow]; [discriminate |].
      right.
      replace (Z.of_nat (S (S k)) - 1) with (Z.succ (Z.of_nat (S k) - 1)) in Hlow by lia.
      rewrite Z.pow_succ_r in Hlow by lia.
      apply Z.div_le_lower_bound; lia.
Qed.

Lemma fixedDigits_length (k : nat) (n : Z) : String.length (fixedDigits k n) = k.
Proof.
  revert n. induction k as [| k IH]; intros n; [reflexivity |].
  cbn [fixedDigits].
  assert (Happ : forall a b, String.length (a +:+ b)
                             = (String.length a + String.length b)%nat).
  { induction a as [| c a IHa]; intros b; [reflexivity |].
    rewrite append_cons. cbn [String.length]. rewrite IHa. reflexivity. }
  rewrite Happ, IH. cbn [String.length]. lia.
Qed.

Lemma compare_app_same_length (a b x y : string) :
  String.length a = String.length b ->
  String.compare (a +:+ x) (b +:+ y) =
  match String.compare a b with
  | Eq => String.compare x y
  | o => o
  end.
Proof.
  revert b. induction a as [| c a IH]; intros [| d b] Hlen; try discriminate.
  - reflexivity.
  - rewrite !append_cons, !compare_cons.
    destruct (Ascii.compare c d); [| reflexivity | reflexivity].
    apply IH. cbn [String.length] in Hlen. lia.
Qed.

Lemma digitChar_compare (d d' : Z) :
  0 <= d < 10 -> 0 <= d' < 10 ->
  Ascii.compare (strconv.digitChar d) (strconv.digitChar d') = (d ?= d').
Proof.
  intros Hd Hd'. unfold Ascii.compare, strconv.digitChar.
  rewrite !N_ascii_embedding by lia.
  rewrite <- N2Z.inj_compare, !N2Z.inj_add, !Z2N.id by lia.
  apply Z.add_compare_mono_l.
Qed.

Lemma compare_div_mod (n n' : Z) :
  (n ?= n') =
  match n / 10 ?= n' / 10 with
  | Eq => n mod 10 ?= n' mod 10
  | o => o
  end.
Proof.
  pose proof (Z.div_mod n 10 ltac:(lia)) as Hn.
  pose proof (Z.div_mod n' 10 ltac:(lia)) as Hn'.
  pose proof (Z.mod_pos_bound n 10 ltac:(lia)).
  pose proof (Z.mod_pos_bound n' 10 ltac:(lia)).
  destruct (Z.compare_spec (n / 10) (n' / 10)) as [Heq | Hlt | Hgt].
  - destruct (Z.compare_spec (n mod 10) (n' mod 10));
      [apply Z.compare_eq_iff | apply Z.compare_lt_iff | apply Z.compare_gt_iff];
      lia.
  - apply Z.compare_lt_iff. lia.
  - apply Z.compare_gt_iff. lia.
Qed.

Lemma compare_fixedDigits (k : nat) (n n' : Z) :
  0 <= n < 10 ^ Z.of_nat k -> 0 <= n' < 10 ^ Z.of_nat k ->
  String.compare (fixedDigits k n) (fixedDigits k n') = (n ?= n').
Proof.
  revert n n'. induction k as [| k IH]; intros n n' Hn Hn'.
  - simpl in Hn, Hn'. assert (n = 0) as -> by lia. assert (n' = 0) as -> by lia.
    reflexivity.
  - cbn [fixedDigits].
    rewrite compare_app_same_length by (rewrite !fixedDigits_length; reflexivity).
    replace (Z.of_nat (S k)) with (Z.succ (Z.of_nat k)) in Hn, Hn' by lia.
    rewrite Z.pow_succ_r in Hn, Hn' by lia.
    rewrite IH;
      [| split; [apply Z.div_pos; lia | apply Z.div_lt_upper_bound; lia]
       | split; [apply Z.div_pos; lia | apply Z.div_lt_upper_bound; lia]].
    rewrite (compare_div_mod n n').
    destruct (n / 10 ?= n' / 10); [| reflexivity | reflexivity].
    rewrite compare_cons.
    rewrite digitChar_compare by (apply Z.mod_pos_bound; lia).
    destruct (n mod 10 ?= n' mod 10); reflexivity.
Qed.

Lemma FormatInt_fixed (k : nat) (n : Z) :
  (1 <= k <= 20)%nat -> 10 ^ (Z.of_nat k - 1) <= n < 10 ^ Z.of_nat k ->
  strconv.FormatInt n = fixedDigits k n.
Proof.
  intros Hk Hn.
  assert (0 < 10 ^ (Z.of_nat k - 1)) by (apply Z.pow_pos_nonneg; lia).
  unfold strconv.FormatInt.
  destruct (Z.ltb_spec n 0) as [Hneg | _]; [lia |].
  rewrite (formatDigits_fixed 20 k n "") by (try right; lia).
  apply append_nil_r.
Qed.

(** Decimal ids of the same width are ordered as numbers. *)
Lemma FormatInt_order_same_width (k : nat) (n n' : Z) :
  (1 <= k <= 20)%nat ->
  10 ^ (Z.of_nat k - 1) <= n < 10 ^ Z.of_nat k ->
  10 ^ (Z.of_nat k - 1) <= n' < 10 ^ Z.of_nat k ->
  String.ltb (strconv.FormatInt n) (strconv.FormatInt n') = (n <? n').
Proof.
  intros Hk Hn Hn'.
  assert (0 < 10 ^ (Z.of_nat k - 1)) by (apply Z.pow_pos_nonneg; lia).
  rewrite (FormatInt_fixed k n Hk Hn), (FormatInt_fixed k n' Hk Hn').
  unfold String.ltb, Z.ltb. rewrite compare_fixedDigits by lia.
  destruct (n ?= n'); reflexivity.
Qed.

(** Pages whose ids, and the ids that follow them, all have [k] digits meet
    the condition [ot_decimal] of [OrderlyTopic]. *)
Lemma same_width_ids_decimal (k : nat) (vs : list pageView) :
  (1 <= k <= 18)%nat ->
  Forall (fun v => 10 ^ (Z.of_nat k - 1) <= pvID v /\
                   pvID v + 1 < 10 ^ Z.of_nat k) vs ->
  Forall (fun v => Forall (fun v' =>
    String.ltb (strconv.FormatInt (pvID v))
               (strconv.FormatInt (Int64.add (pvID v') 1))
    = (pvID v <=? pvID v')) vs) vs.
Proof.
  intros Hk Hall.
  assert (Hpow : 10 ^ Z.of_nat k <= 10 ^ 18) by (apply Z.pow_le_mono_r; lia).
  assert (0 < 10 ^ (Z.of_nat k - 1)) by (apply Z.pow_pos_nonneg; lia).
  rewrite List.Forall_forall in Hall.
  apply List.Forall_forall. intros v Hv. apply List.Forall_forall. intros v' Hv'.
  destruct (Hall v Hv) as [Hlo Hhi]. destruct (Hall v' Hv') as [Hlo' Hhi'].
  unfold Int64.add. rewrite wrap_id by int64_range.
  rewrite (FormatInt_order_same_width k) by lia.
  destruct (Z.ltb_spec (pvID v) (pvID v' + 1));
    destruct (Z.leb_spec (pvID v) (pvID v')); try lia; reflexivity.
Qed.

(** ** What the range deletes do reach *)

(** After a successful [cleanData], the three keys of every page whose
    decimal id is byte-wise below that of [pageEndID + 1] are absent. *)
Lemma cleanData_removes_byte_range (faults : Faults) (topic : string) (E : Z)
    (st st' : State) (s : string) :
  cleanData faults topic E st = (Ok tt, st') ->
  String.ltb s (strconv.FormatInt (Int64.add E 1)) = true ->
  kv st' !! ((constructKey PageMsgSizeTitle topic +:+ "/") +:+ s) = None /\
  kv st' !! ((constructKey PageTsTitle topic +:+ "/") +:+ s) = None /\
  kv st' !! ((constructKey AckedTsTitle topic +:+ "/") +:+ s) = None.
Proof.
  intros Hrun Hlt. apply cleanData_ok in Hrun as [_ Hkv].
  rewrite Hkv, !lookup_applyBatch3.
  rewrite <- !(append_assoc _ "/" (strconv.FormatInt (Int64.add E 1))).
  rewrite !inRange_prefix_bound, Hlt.
  repeat split;
    repeat match goal with
           | |- context [pebblekv.inRange ?lo ?hi ?k] =>
               destruct (pebblekv.inRange lo hi k)
           end; reflexivity.
Qed.

(** Where the ids up to [pageEndID + 1] are written with the same number of
    digits, all pages up to [pageEndID] are removed. *)
Lemma cleanData_removes_same_width (faults : Faults) (topic : string) (E : Z)
    (st st' : State) (k : nat) (p : Z) :
  cleanData faults topic E st = (Ok tt, st') ->
  (1 <= k <= 18)%nat ->
  10 ^ (Z.of_nat k - 1) <= p -> p <= E -> E + 1 < 10 ^ Z.of_nat k ->
  kv st' !! ((constructKey PageMsgSizeTitle topic +:+ "/")
             +:+ strconv.FormatInt p) = None /\
  kv st' !! ((constructKey PageTsTitle topic +:+ "/")
             +:+ strconv.FormatInt p) = None /\
  kv st' !! ((constructKey AckedTsTitle topic +:+ "/")
             +:+ strconv.FormatInt p) = None.
Proof.
  intros Hrun Hk Hlo Hle Hhi.
  assert (Hpow : 10 ^ Z.of_nat k <= 10 ^ 18) by (apply Z.pow_le_mono_r; lia).
  assert (0 < 10 ^ (Z.of_nat k - 1)) by (apply Z.pow_pos_nonneg; lia).
  apply (cleanData_removes_byte_range faults topic E st st' _ Hrun).
  unfold Int64.add. rewrite wrap_id by int64_range.
  rewrite (FormatInt_order_same_width k) by lia.
  apply Z.ltb_lt. lia.
Qed.

Lemma timeMarked_acked (cfg : PebblemqCfg) (now : Z) (vs : list pageView) :
  Forall (fun v => is_Some (pvAck v)) (take (timeMarked cfg now vs) vs).
Proof.
  induction vs as [| v vs IH]; [constructor |].
  cbn [timeMarked]. destruct (pvAck v) as [t |] eqn:Hack; [| constructor].
  destruct (timeExpired cfg now t); [| constructor].
  cbn [take]. constructor; [rewrite Hack; eexists; reflexivity | exact IH].
Qed.

(** The loops mark acked pages only. *)
Lemma markedCount_acked (cfg : PebblemqCfg) (now : Z) (vs : list pageView) :
  Forall (fun v => 0 <= pvSize v) vs ->
  Forall (fun v => is_Some (pvAck v)) (take (markedCount cfg now vs) vs).
Proof.
  intros Hsizes. unfold markedCount.
  set (tm := timeMarked cfg now vs).
  rewrite <- take_take_drop. apply Forall_app. split.
  - apply timeMarked_acked.
  - rewrite sizeMarked_shift.
    assert (Hrem : ackedPrefixSize vs - sumSizesV (take tm vs)
                   = ackedPrefixSize (drop tm vs)).
    { rewrite (ackedPrefixSize_timeMarked cfg now vs). fold tm. lia. }
    rewrite Hrem. fold (sizeMarkedFrom cfg (drop tm vs)).
    apply sizeMarkedFrom_spec, Forall_drop, Hsizes.
Qed.

(** On an orderly topic a pass keeps the size entry of every page that has
    no ack. *)
Lemma orderly_pass_keeps_unacked (cfg : PebblemqCfg) (now : Z) (topic : string)
    (st st1 : State) (r1 : result unit) (vs : list pageView)
    (i : nat) (e : string * string) (v : pageView) :
  OrderlyTopic cfg (kv st) topic vs ->
  expiredCleanUp cfg now noFaults topic st = (r1, st1) ->
  topicPages (kv st) topic !! i = Some e -> vs !! i = Some v ->
  pvAck v = None ->
  kv st1 !! e.1 = Some e.2.
Proof.
  intros Horderly Hrun He Hv Hack.
  assert (Hin : forall st', e ∈ topicPages (kv st') topic ->
                            kv st' !! e.1 = Some e.2).
  { intros st' Hin. destruct e as [key val].
    apply topicPages_spec in Hin as [Hlook _]. exact Hlook. }
  destruct (first_pass_outcome cfg now topic st st1 r1 vs Horderly Hrun)
    as [-> | [Hpages _]].
  - apply Hin. apply list_elem_of_lookup. exists i. exact He.
  - apply Hin. rewrite Hpages. apply list_elem_of_lookup.
    set (m := markedCount cfg now vs) in *.
    assert (Hge : (m <= i)%nat).
    { destruct (le_lt_dec m i) as [Hle | Hlt]; [exact Hle |]. exfalso.
      pose proof (markedCount_acked cfg now vs (ot_sizes _ _ _ _ Horderly)) as Hall.
      fold m in Hall. rewrite Forall_lookup in Hall.
      assert (Hvi : take m vs !! i = Some v)
        by (rewrite lookup_take_lt by exact Hlt; exact Hv).
      destruct (Hall i v Hvi) as [t Ht]. congruence. }
    exists (i - m)%nat. rewrite lookup_drop.
    replace (m + (i - m))%nat with i by lia. exact He.
Qed.

(** * Further properties of the retention engine *)

(** ** Start-up: [initRetentionInfo] *)

Lemma prefix_spec (p k : string) :
  String.prefix p k = true <-> exists r, k = p +:+ r.
Proof.
  revert k. induction p as [| a p IH]; intros k.
  - split; [intros _; exists k; reflexivity |].
    intros _. destruct k; reflexivity.
  - destruct k as [| b k]; cbn [String.prefix].
    + split; [discriminate | intros [r Hr]; discriminate].
    + destruct (ascii_dec a b) as [-> | Hne].
      * rewrite IH. split; intros [r Hr]; exists r.
        -- rewrite append_cons, Hr. reflexivity.
        -- rewrite append_cons in Hr. inversion Hr. reflexivity.
      * split; [discriminate |]. intros [r Hr]. rewrite append_cons in Hr.
        exfalso. apply Hne. congruence.
Qed.

Lemma sliceFrom_app (p r : string) : sliceFrom (String.length p) (p +:+ r) = r.
Proof.
  induction p as [| a p IH]; [destruct r; reflexivity |].
  rewrite append_cons. cbn [String.length sliceFrom]. exact IH.
Qed.

Lemma LoadWithPrefix_keys (m : gmap string string) (p k : string) :
  k ∈ (pebblekv.LoadWithPrefix m p).1 <->
  is_Some (m !! k) /\ exists r, k = p +:+ r.
Proof.
  unfold pebblekv.LoadWithPrefix. cbn [fst].
  rewrite list_elem_of_In, List.in_map_iff. split.
  - intros ([k' v] & <- & Hin). apply List.filter_In in Hin as [Hin Hp].
    apply list_elem_of_In, elem_of_entries in Hin. cbn [fst] in *.
    split; [eexists; exact Hin | apply prefix_spec, Hp].
  - intros [[v Hv] Hp]. exists (k, v). split; [reflexivity |].
    apply List.filter_In. split.
    + apply list_elem_of_In, elem_of_entries, Hv.
    + apply prefix_spec, Hp.
Qed.

Lemma registerTopic_fold (nowAt : string -> Z) (keys : list string) (ri : State)
    (topic : string) :
  Forall (fun key => exists t, key = TopicIDTitle +:+ t) keys ->
  db (fold_left (registerTopic nowAt) keys ri) = db ri /\
  kv (fold_left (registerTopic nowAt) keys ri) = kv ri /\
  events (fold_left (registerTopic nowAt) keys ri) = events ri /\
  (TopicIDTitle +:+ topic ∈ keys ->
     topicRetetionTime (fold_left (registerTopic nowAt) keys ri) !! topic
     = Some (nowAt (TopicIDTitle +:+ topic)) /\
     topicMu (fold_left (registerTopic nowAt) keys ri) !! topic = Some MutexEntry) /\
  (TopicIDTitle +:+ topic ∉ keys ->
     topicRetetionTime (fold_left (registerTopic nowAt) keys ri) !! topic
     = topicRetetionTime ri !! topic /\
     topicMu (fold_left (registerTopic nowAt) keys ri) !! topic
     = topicMu ri !! topic).
Proof.
  intros Hkeys. revert ri.
  induction Hkeys as [| key keys [t ->] _ IH]; intros ri; cbn [fold_left].
  - split; [reflexivity |]. split; [reflexivity |]. split; [reflexivity |].
    split; [intros Hin; inversion Hin | intros _; split; reflexivity].
  - destruct (IH (registerTopic nowAt ri (TopicIDTitle +:+ t)))
      as (Hdb & Hkv & Hev & Hin & Hout).
    set (ri1 := registerTopic nowAt ri (TopicIDTitle +:+ t)) in *.
    assert (Hslice : sliceFrom (String.length TopicIDTitle) (TopicIDTitle +:+ t) = t)
      by apply sliceFrom_app.
    split; [rewrite Hdb; reflexivity |].
    split; [rewrite Hkv; reflexivity |].
    split; [rewrite Hev; reflexivity |]. split.
    + intros Hmem.
      destruct (decide (TopicIDTitle +:+ topic ∈ keys)) as [Hk | Hk];
        [apply Hin, Hk |].
      apply elem_of_cons in Hmem as [Heq | Hmem]; [| contradiction].
      apply (inj (String.app TopicIDTitle)) in Heq. subst t.
      destruct (Hout Hk) as [Ht Hm]. rewrite Ht, Hm.
      subst ri1. unfold registerTopic. cbn [topicRetetionTime topicMu].
      rewrite Hslice, !lookup_insert_eq. split; reflexivity.
    + intros Hmem. apply not_elem_of_cons in Hmem as [Hne Hmem].
      destruct (Hout Hmem) as [Ht Hm]. rewrite Ht, Hm.
      subst ri1. unfold registerTopic. cbn [topicRetetionTime topicMu].
      rewrite Hslice.
      assert (t <> topic) by (intros ->; apply Hne; reflexivity).
      rewrite !lookup_insert_ne by assumption. split; reflexivity.
Qed.

Lemma initRetentionInfo_spec (nowAt : string -> Z)
    (kvm dbm : gmap string string) (mu : gmap string lockEntry) :
  (forall err, initRetentionInfo nowAt (Some err) kvm dbm mu = Err err) /\
  exists ri,
    initRetentionInfo nowAt None kvm dbm mu = Ok ri /\
    db ri = dbm /\ kv ri = kvm /\
    forall topic,
      (is_Some (kvm !! (TopicIDTitle +:+ topic)) ->
         topicRetetionTime ri !! topic = Some (nowAt (TopicIDTitle +:+ topic)) /\
         topicMu ri !! topic = Some MutexEntry) /\
      (kvm !! (TopicIDTitle +:+ topic) = None ->
         topicRetetionTime ri !! topic = None /\
         topicMu ri !! topic = mu !! topic).
Proof.
  split; [reflexivity |].
  unfold initRetentionInfo.
  destruct (pebblekv.LoadWithPrefix kvm TopicIDTitle) as [topicKeys vals] eqn:Hload.
  eexists. split; [reflexivity |].
  assert (Hkeys : forall k, k ∈ topicKeys <->
            is_Some (kvm !! k) /\ exists r, k = TopicIDTitle +:+ r).
  { intros k. rewrite <- LoadWithPrefix_keys, Hload. reflexivity. }
  assert (Hall : Forall (fun key => exists t, key = TopicIDTitle +:+ t) topicKeys).
  { apply List.Forall_forall. intros k Hk.
    apply list_elem_of_In, Hkeys in Hk as [_ Hk]. exact Hk. }
  set (ri0 := {| db := dbm; kv := kvm; topicMu := mu;
                 topicRetetionTime := ∅; events := [] |}).
  split; [exact (proj1 (registerTopic_fold nowAt topicKeys ri0 "" Hall)) |].
  split; [exact (proj1 (proj2 (registerTopic_fold nowAt topicKeys ri0 "" Hall))) |].
  intros topic.
  destruct (registerTopic_fold nowAt topicKeys ri0 topic Hall)
    as (_ & _ & _ & Hin & Hout).
  split.
  - intros Hsome. apply Hin, Hkeys.
    split; [exact Hsome | eexists; reflexivity].
  - intros Hnone. destruct Hout as [Ht Hm].
    { intros Hmem. apply Hkeys in Hmem as [[v Hv] _]. congruence. }
    rewrite Ht, Hm. split; [apply lookup_empty | reflexivity].
Qed.

(** [initRetentionInfo] gives every topic that has a key [topic_id/{topic}]
    the reading of the clock as its last retention time and a mutex in the
    registry; it tracks no other topic, leaves the registry entries of other
    topics as they were and does not write to the stores. When
    [LoadWithPrefix] fails, its error is returned. *)
Theorem initRetentionInfo_registers (nowAt : string -> Z)
    (kvm dbm : gmap string string) (mu : gmap string lockEntry) :
  (forall err, initRetentionInfo nowAt (Some err) kvm dbm mu = Err err) /\
  exists ri,
    initRetentionInfo nowAt None kvm dbm mu = Ok ri /\
    db ri = dbm /\ kv ri = kvm /\
    forall topic,
      (is_Some (kvm !! (TopicIDTitle +:+ topic)) ->
         topicRetetionTime ri !! topic = Some (nowAt (TopicIDTitle +:+ topic)) /\
         topicMu ri !! topic = Some MutexEntry) /\
      (kvm !! (TopicIDTitle +:+ topic) = None ->
         topicRetetionTime ri !! topic = None /\
         topicMu ri !! topic = mu !! topic).
Proof. exact (initRetentionInfo_spec nowAt kvm dbm mu). Qed.

(** ** Errors of a pass *)

Lemma ParseInt_error (s : string) (e : error) :
  strconv.ParseInt s = Err e -> isParseError e = true.
Proof.
  unfold strconv.ParseInt. destruct s as [| c s']; [intros H; inversion H; reflexivity |].
  destruct (if Ascii.eqb c "-" || Ascii.eqb c "+" then s' else String c s');
    [intros H; inversion H; reflexivity |].
  destruct (strconv.parseDigits _ 0); [| intros H; inversion H; reflexivity].
  destruct (negb (Ascii.eqb c "-") && (2 ^ 63 <=? z));
    [intros H; inversion H; reflexivity |].
  destruct (Ascii.eqb c "-" && (2 ^ 63 <? z));
    [intros H; inversion H; reflexivity | discriminate].
Qed.

Lemma parsePageID_error (key : string) (e : error) :
  parsePageID key = Err e -> isParseError e = true.
Proof.
  unfold parsePageID.
  destruct (strings.Split key "/") as [| a [| b [| c [| d l]]]];
    try (intros H; inversion H; reflexivity).
  apply ParseInt_error.
Qed.

Lemma kvLoad_value (faults : Faults) (site : reader)
    (meta : gmap string string) (key value : string) :
  kvLoad faults site meta key = Ok value -> value = pebblekv.Load meta key.
Proof.
  unfold kvLoad. destruct (loadErr faults site key); [discriminate |].
  intros H; injection H as <-. reflexivity.
Qed.

Lemma kvLoad_error (faults : Faults) (site : reader)
    (meta : gmap string string) (key : string) (e : error) :
  kvLoad faults site meta key = Err e -> loadErr faults site key = Some e.
Proof.
  unfold kvLoad. destruct (loadErr faults site key) as [e' |]; [| discriminate].
  intros H; injection H as <-. reflexivity.
Qed.

Lemma ackedSizeLoop_error (faults : Faults) (meta : gmap string string)
    (A : string) (iterEnd : option error) (pages : list (string * string))
    (a : Z) (e : error) :
  ackedSizeLoop faults meta A iterEnd pages a = Err e ->
  isParseError e = true \/
  (exists key, loadErr faults AckedSizeScan key = Some e) \/ iterEnd = Some e.
Proof.
  revert a. induction pages as [| [key val] pages IH]; intros a; cbn [ackedSizeLoop].
  - destruct iterEnd as [e' |]; [| discriminate].
    intros H; injection H as <-. right. right. reflexivity.
  - destruct (parsePageID key) as [pageID | e'] eqn:Hid; cbn [bind];
      [| intros H; inversion H; subst; left; exact (parsePageID_error _ _ Hid)].
    destruct (kvLoad faults AckedSizeScan meta _) as [ackedTsVal | e'] eqn:Hload;
      cbn [bind];
      [| intros H; inversion H; subst; right; left; eexists;
         exact (kvLoad_error _ _ _ _ _ Hload)].
    destruct (String.eqb ackedTsVal ""); [discriminate |].
    destruct (strconv.ParseInt val) as [size | e'] eqn:Hval; cbn [bind];
      [apply IH | intros H; inversion H; subst; left; exact (ParseInt_error _ _ Hval)].
Qed.

Lemma timeLoop_error (cfg : PebblemqCfg) (now : Z) (faults : Faults)
    (meta : gmap string string) (A : string) (iterEnd : option error)
    (pages : list (string * string)) (v : passVars) (e : error) :
  timeLoop cfg now faults meta A iterEnd pages v = Err e ->
  isParseError e = true \/
  (exists key, loadErr faults ExpiredScan key = Some e) \/ iterEnd = Some e.
Proof.
  revert v. induction pages as [| [key val] pages IH]; intros v; cbn [timeLoop].
  - destruct iterEnd as [e' |]; [| discriminate].
    intros H; injection H as <-. right. right. reflexivity.
  - destruct (parsePageID key) as [pageID | e'] eqn:Hid; cbn [bind];
      [| intros H; inversion H; subst; left; exact (parsePageID_error _ _ Hid)].
    destruct (kvLoad faults ExpiredScan meta _) as [ackedTsVal | e'] eqn:Hload;
      cbn [bind];
      [| intros H; inversion H; subst; right; left; eexists;
         exact (kvLoad_error _ _ _ _ _ Hload)].
    destruct (String.eqb ackedTsVal ""); [discriminate |].
    destruct (strconv.ParseInt ackedTsVal) as [ts | e'] eqn:Hts; cbn [bind];
      [| intros H; inversion H; subst; left; exact (ParseInt_error _ _ Hts)].
    destruct (msgTimeExpiredCheck cfg now ts); [| discriminate].
    destruct (strconv.ParseInt val) as [size | e'] eqn:Hval; cbn [bind];
      [apply IH | intros H; inversion H; subst; left; exact (ParseInt_error _ _ Hval)].
Qed.

Lemma sizeLoop_error (cfg : PebblemqCfg) (total : Z) (iterEnd : option error)
    (pages : list (string * string)) (v : passVars) (e : error) :
  sizeLoop cfg total iterEnd pages v = Err e ->
  isParseError e = true \/ iterEnd = Some e.
Proof.
  revert v. induction pages as [| [key val] pages IH]; intros v; cbn [sizeLoop].
  - destruct iterEnd as [e' |]; [| discriminate].
    intros H; injection H as <-. right. reflexivity.
  - destruct (strconv.ParseInt val) as [size | e'] eqn:Hval; cbn [bind];
      [| intros H; inversion H; subst; left; exact (ParseInt_error _ _ Hval)].
    destruct (msgSizeExpiredCheck cfg _ total); [| discriminate].
    destruct (parsePageID key) as [pageID | e'] eqn:Hid; cbn [bind];
      [apply IH | intros H; inversion H; subst; left; exact (parsePageID_error _ _ Hid)].
Qed.

Lemma iterError_Some (faults : Faults) (site : reader) (topic : string)
    (e : error) :
  iterError faults site topic = Some e ->
  exists n, iterErr faults site topic = Some (n, e).
Proof.
  unfold iterError. destruct (iterErr faults site topic) as [[n e'] |];
    [| discriminate].
  intros H; injection H as <-. exists n. reflexivity.
Qed.

Lemma calculateTopicAckedSize_error (faults : Faults)
    (meta : gmap string string) (topic : string) (e : error) :
  calculateTopicAckedSize faults meta topic = Err e ->
  isParseError e = true \/ isReadError faults e.
Proof.
  unfold calculateTopicAckedSize. intros Hcalc.
  apply ackedSizeLoop_error in Hcalc as [Hp | [[key Hload] | Hiter]].
  - left. exact Hp.
  - right. left. exists AckedSizeScan, key. exact Hload.
  - right. right. exists AckedSizeScan, topic.
    exact (iterError_Some _ _ _ _ Hiter).
Qed.

Lemma expiredScan_error (cfg : PebblemqCfg) (now : Z) (faults : Faults)
    (meta : gmap string string) (topic : string) (total : Z) (e : error) :
  expiredScan cfg now faults meta topic total = Err e ->
  isParseError e = true \/ isReadError faults e.
Proof.
  unfold expiredScan. intros Hscan.
  destruct (timeLoop cfg now faults meta _ _ _ passVars0) as [[rest v1] | e1] eqn:Ht.
  - apply sizeLoop_error in Hscan as [Hp | Hiter].
    + left. exact Hp.
    + right. right. exists ExpiredScan, topic.
      exact (iterError_Some _ _ _ _ Hiter).
  - injection Hscan as <-.
    apply timeLoop_error in Ht as [Hp | [[key Hload] | Hiter]].
    + left. exact Hp.
    + right. left. exists ExpiredScan, key. exact Hload.
    + right. right. exists ExpiredScan, topic.
      exact (iterError_Some _ _ _ _ Hiter).
Qed.

(** A read that fails ends the pass with its error and the state as it
    was: a failing [Load] in [calculateTopicAckedSize], and an iterator that
    fails at the end of the scan of [expiredCleanUp]. *)
Lemma read_errors_end_the_pass :
  expiredCleanUp cfgTimeOnly 1000 faultsLoad "T" stPageZero
    = (Err (ErrKV "pebble: closed"), stPageZero) /\
  expiredCleanUp cfgTimeOnly 1000 faultsIter "T" stPageZero
    = (Err (ErrKV "pebble: corruption"), stPageZero).
Proof. split; vm_compute; reflexivity. Qed.

(** The ways of [expiredCleanUp]: it returns the state as it is, with
    success, with an error of parsing a key or a value or with the error of
    a read that failed, or it returns what [cleanData] returns for a page id
    other than 0. *)
Lemma expiredCleanUp_cases (cfg : PebblemqCfg) (now : Z) (faults : Faults)
    (topic : string) (st st' : State) (r : result unit) :
  expiredCleanUp cfg now faults topic st = (r, st') ->
  (st' = st /\
   (r = Ok tt \/
    exists e, r = Err e /\ (isParseError e = true \/ isReadError faults e))) \/
  (exists E, E <> 0 /\ cleanData faults topic E st = (r, st')).
Proof.
  unfold expiredCleanUp.
  destruct (calculateTopicAckedSize faults (kv st) topic) as [total | e] eqn:Hcalc.
  - destruct (total =? 0).
    { intros H; injection H as <- <-. left.
      split; [reflexivity | left; reflexivity]. }
    destruct (expiredScan cfg now faults (kv st) topic total) as [v | e] eqn:Hscan.
    + destruct (Z.eqb_spec (pageEndID v) 0) as [Hz | Hnz].
      { intros H; injection H as <- <-. left.
        split; [reflexivity | left; reflexivity]. }
      intros H. right. exists (pageEndID v). split; assumption.
    + intros H; injection H as <- <-. left. split; [reflexivity |]. right.
      exists e. split; [reflexivity |]. exact (expiredScan_error _ _ _ _ _ _ _ Hscan).
  - intros H; injection H as <- <-. left. split; [reflexivity |]. right.
    exists e. split; [reflexivity |].
    exact (calculateTopicAckedSize_error _ _ _ _ Hcalc).
Qed.

(** Whatever [expiredCleanUp] returns as an error, the state is as before,
    unless the commit to the bookkeeping store was refused; in that case the
    message store alone has changed. *)
Theorem expiredCleanUp_error_leaves_state (cfg : PebblemqCfg) (now : Z)
    (faults : Faults) (topic : string) (st st' : State) (e : error) :
  expiredCleanUp cfg now faults topic st = (Err e, st') ->
  kv st' = kv st /\
  topicMu st' = topicMu st /\ topicRetetionTime st' = topicRetetionTime st /\
  (metaCommitErr faults topic = None -> st' = st).
Proof.
  intros Hrun.
  destruct (expiredCleanUp_frame _ _ _ _ _ _ _ Hrun) as [Hmu Htr].
  apply expiredCleanUp_cases in Hrun as [[-> _] | (E & _ & Hclean)].
  { repeat split; reflexivity. }
  split; [| split; [exact Hmu | split; [exact Htr |]]].
  - revert Hclean. unfold cleanData, DeleteMessages, Commit.
    destruct (topicMu st !! topic) as [[] |];
      try (intros H; inversion H; reflexivity).
    destruct (dataCommitErr faults topic); [intros H; inversion H; reflexivity |].
    destruct (metaCommitErr faults topic); [| discriminate].
    intros H; inversion H; reflexivity.
  - intros Hmeta. revert Hclean. unfold cleanData, DeleteMessages, Commit.
    rewrite Hmeta.
    destruct (topicMu st !! topic) as [[] |];
      try (intros H; inversion H; reflexivity).
    destruct (dataCommitErr faults topic); [intros H; inversion H; reflexivity |].
    discriminate.
Qed.

Lemma expiredCleanUp_error_leaves_state_witness :
  exists st',
    expiredCleanUp cfgTimeOnly 1000 faultsData "T" stUnackedTen
      = (Err (ErrKV "pebble: closed"), st') /\
    st' = stUnackedTen.
Proof.
  eexists. split; [vm_compute; reflexivity |].
  refine (proj2 (proj2 (proj2
    (expiredCleanUp_error_leaves_state cfgTimeOnly 1000 faultsData "T"
       stUnackedTen _ (ErrKV "pebble: closed") _))) eq_refl).
  vm_compute. reflexivity.
Defined.


Lemma initRetentionInfo_registers_witness :
  exists ri,
    initRetentionInfo (fun _ => 7) None kvTwoTopics ∅ ∅ = Ok ri /\
    topicRetetionTime ri !! "T" = Some 7 /\
    topicMu ri !! "U" = Some MutexEntry /\
    topicRetetionTime ri !! "V" = None.
Proof.
  destruct (initRetentionInfo_registers (fun _ => 7) kvTwoTopics ∅ ∅)
    as (_ & ri & Hinit & _ & _ & Htopics).
  exists ri. split; [exact Hinit |].
  split; [apply (proj1 (Htopics "T")); vm_compute; eexists; reflexivity |].
  split; [apply (proj1 (Htopics "U")); vm_compute; eexists; reflexivity |].
  apply (proj2 (Htopics "V")). vm_compute. reflexivity.
Defined.


(** ** Passes that cannot evict *)

Lemma timeLoop_no_expiry (cfg : PebblemqCfg) (now : Z) (faults : Faults)
    (meta : gmap string string) (A : string) (iterEnd : option error)
    (pages rest : list (string * string)) (v v' : passVars) :
  (forall ts, msgTimeExpiredCheck cfg now ts = false) ->
  timeLoop cfg now faults meta A iterEnd pages v = Ok (rest, v') ->
  pageEndID v' = pageEndID v /\ deletedAckedSize v' = deletedAckedSize v.
Proof.
  intros Ht. destruct pages as [| [key val] pages]; cbn [timeLoop].
  - destruct iterEnd; [discriminate |].
    intros H; injection H as <- <-. split; reflexivity.
  - destruct (parsePageID key); cbn [bind]; [| discriminate].
    destruct (kvLoad faults ExpiredScan meta _) as [ackedTsVal | e];
      cbn [bind]; [| discriminate].
    destruct (String.eqb ackedTsVal "").
    + intros H; injection H as <- <-. split; reflexivity.
    + destruct (strconv.ParseInt ackedTsVal); cbn [bind]; [| discriminate].
      rewrite Ht. intros H; injection H as <- <-. split; reflexivity.
Qed.

Lemma sizeLoop_no_expiry (cfg : PebblemqCfg) (total : Z)
    (iterEnd : option error) (pages : list (string * string))
    (v v' : passVars) :
  (forall d, msgSizeExpiredCheck cfg d total = false) ->
  sizeLoop cfg total iterEnd pages v = Ok v' -> v' = v.
Proof.
  intros Hs. destruct pages as [| [key val] pages]; cbn [sizeLoop].
  - destruct iterEnd; [discriminate |]. intros H; injection H as <-. reflexivity.
  - destruct (strconv.ParseInt val); cbn [bind]; [| discriminate].
    rewrite Hs. intros H; injection H as <-. reflexivity.
Qed.

(** With both retention policies disabled, that is with the retention time
    in seconds and the quota in megabytes that the two predicates test both
    negative, no pass evicts: [expiredCleanUp] returns the state as it is,
    with success, with the error of a key or a value that it cannot parse,
    or with the error of a read of the store that failed. *)
Theorem disabled_policies_never_evict (cfg : PebblemqCfg) (now : Z)
    (faults : Faults) (topic : string) (st st' : State) (r : result unit) :
  RetentionTimeSeconds cfg < 0 -> RetentionSizeInMB cfg < 0 ->
  expiredCleanUp cfg now faults topic st = (r, st') ->
  st' = st /\
  (r = Ok tt \/
   exists e, r = Err e /\ (isParseError e = true \/ isReadError faults e)).
Proof.
  intros Htime Hsize Hrun.
  assert (Hscan : forall total v,
            expiredScan cfg now faults (kv st) topic total = Ok v -> pageEndID v = 0).
  { intros total v. unfold expiredScan.
    assert (Ht : forall ts, msgTimeExpiredCheck cfg now ts = false).
    { intros ts. unfold msgTimeExpiredCheck.
      apply Z.ltb_lt in Htime. rewrite Htime. reflexivity. }
    assert (Hs : forall d, msgSizeExpiredCheck cfg d total = false).
    { intros d. unfold msgSizeExpiredCheck.
      apply Z.ltb_lt in Hsize. rewrite Hsize. reflexivity. }
    destruct (timeLoop cfg now faults (kv st) _ _ _ passVars0)
      as [[rest v1] | e1] eqn:Hloop; [| discriminate].
    apply (timeLoop_no_expiry _ _ _ _ _ _ _ _ _ _ Ht) in Hloop as [Hend _].
    intros Hsz. apply (sizeLoop_no_expiry _ _ _ _ _ _ Hs) in Hsz. subst v.
    exact Hend. }
  revert Hrun. unfold expiredCleanUp.
  destruct (calculateTopicAckedSize faults (kv st) topic) as [total | e] eqn:Hcalc.
  - destruct (total =? 0).
    { intros H; injection H as <- <-. split; [reflexivity | left; reflexivity]. }
    destruct (expiredScan cfg now faults (kv st) topic total) as [v | e] eqn:Hrun.
    + rewrite (Hscan total v Hrun). cbn [Z.eqb].
      intros H; injection H as <- <-. split; [reflexivity | left; reflexivity].
    + intros H; injection H as <- <-. split; [reflexivity |]. right.
      exists e. split; [reflexivity |]. exact (expiredScan_error _ _ _ _ _ _ _ Hrun).
  - intros H; injection H as <- <-. split; [reflexivity |]. right.
    exists e. split; [reflexivity |].
    exact (calculateTopicAckedSize_error _ _ _ _ Hcalc).
Qed.

(** With both policies disabled the pass on [stOrderly] changes nothing,
    also when every [Load] fails and the pass returns the error of the
    read. *)
Lemma disabled_policies_never_evict_witness :
  expiredCleanUp cfgDisabled 1000 noFaults "T" stOrderly = (Ok tt, stOrderly) /\
  expiredCleanUp cfgDisabled 1000 faultsLoad "T" stOrderly
    = (Err (ErrKV "pebble: closed"), stOrderly).
Proof.
  split.
  - destruct (expiredCleanUp cfgDisabled 1000 noFaults "T" stOrderly)
      as [r st'] eqn:Hrun.
    destruct (disabled_policies_never_evict cfgDisabled 1000 noFaults "T"
                stOrderly st' r) as [-> Hr].
    + reflexivity.
    + reflexivity.
    + exact Hrun.
    + f_equal. vm_compute in Hrun. injection Hrun as <-. reflexivity.
  - destruct (expiredCleanUp cfgDisabled 1000 faultsLoad "T" stOrderly)
      as [r st'] eqn:Hrun.
    destruct (disabled_policies_never_evict cfgDisabled 1000 faultsLoad "T"
                stOrderly st' r) as [-> Hr].
    + reflexivity.
    + reflexivity.
    + exact Hrun.
    + f_equal. vm_compute in Hrun. injection Hrun as <-. reflexivity.
Defined.

(** When no read of the store fails, a topic without pages, or whose
    first page in the scan has no ack, is left alone: [expiredCleanUp]
    returns success and the state as it is, whatever pages follow, whatever
    their acks and sizes, and whichever commits would fail. *)
Theorem unacked_first_page_blocks_pass (cfg : PebblemqCfg) (now : Z)
    (faults : Faults) (topic : string) (st : State) :
  readsOk faults ->
  match topicPages (kv st) topic with
  | [] => True
  | e :: _ => pageIsUnacked (kv st) topic e = true
  end ->
  calculateTopicAckedSize faults (kv st) topic = Ok 0 /\
  expiredCleanUp cfg now faults topic st = (Ok tt, st).
Proof.
  intros Hreads Hhead.
  assert (Hcalc : calculateTopicAckedSize faults (kv st) topic = Ok 0).
  { unfold calculateTopicAckedSize. rewrite (iterEntries_ok _ _ _ _ Hreads), (iterError_ok _ _ _ Hreads).
    change (pebblekv.SeekUpTo (kv st) _ _) with (topicPages (kv st) topic).
    change 0 with (Int64.wrap 0) at 1.
    rewrite <- (app_nil_l (topicPages (kv st) topic)).
    rewrite (ackedSizeLoop_prefix faults (kv st) topic [] _ 0 Hreads
               (Forall_nil_2 _) Hhead).
    reflexivity. }
  split; [exact Hcalc |]. unfold expiredCleanUp. rewrite Hcalc. reflexivity.
Qed.

Lemma unacked_first_page_blocks_pass_witness :
  pageIsAcked (kv stBlocked) "T" ("page_msg_size/T/2", "100") = true /\
  expiredCleanUp cfgTimeAndSize 1000 noFaults "T" stBlocked = (Ok tt, stBlocked).
Proof.
  split; [vm_compute; reflexivity |].
  apply (unacked_first_page_blocks_pass cfgTimeAndSize 1000 noFaults "T" stBlocked).
  - split; reflexivity.
  - vm_compute. reflexivity.
Defined.

(** ** What the two loops mark *)

(** The time loop marks exactly the longest run of pages, from the start of
    the scan, that are acked with an expired time; it stops on the first
    page that is not, [pageEndID] is the id of the last page marked, and
    nothing is marked when it is not changed. *)
Theorem timeLoop_marks_expired_prefix (cfg : PebblemqCfg) (now : Z)
    (faults : Faults) (meta : gmap string string) (topic : string)
    (iterEnd : option error)
    (pages rest : list (string * string)) (v v' : passVars) :
  timeLoop cfg now faults meta (constructKey AckedTsTitle topic) iterEnd pages v
  = Ok (rest, v') ->
  exists marked,
    pages = (marked ++ rest)%list /\
    Forall (fun e => pageTimeExpired cfg now meta topic e = true) marked /\
    match rest with
    | [] => True
    | e :: _ => pageTimeExpired cfg now meta topic e = false
    end /\
    match List.last marked ("", "") with
    | (key, _) => marked = [] /\ pageEndID v' = pageEndID v \/
                  marked <> [] /\ parsePageID key = Ok (pageEndID v')
    end.
Proof.
  revert v. induction pages as [| [key val] pages IH]; intros v; cbn [timeLoop].
  - destruct iterEnd; [discriminate |].
    intros H; injection H as <- <-. exists [].
    split; [reflexivity |]. split; [constructor |]. split; [exact I |].
    cbn. left. split; reflexivity.
  - destruct (parsePageID key) as [pageID | err] eqn:Hid; cbn [bind];
      [| discriminate].
    fold (ackedTsKeyOf topic pageID).
    destruct (kvLoad faults ExpiredScan meta (ackedTsKeyOf topic pageID))
      as [ackedTsVal | err] eqn:Hload; cbn [bind]; [| discriminate].
    apply kvLoad_value in Hload. subst ackedTsVal.
    destruct (String.eqb (pebblekv.Load meta (ackedTsKeyOf topic pageID)) "")
      eqn:Hempty.
    { intros H; injection H as <- <-. exists []. split; [reflexivity |].
      split; [constructor |]. split.
      - unfold pageTimeExpired. cbn [fst]. rewrite Hid.
        destruct (strconv.ParseInt _); [| reflexivity].
        rewrite Hempty. reflexivity.
      - cbn. left. split; reflexivity. }
    destruct (strconv.ParseInt (pebblekv.Load meta (ackedTsKeyOf topic pageID)))
      as [ts | err] eqn:Hts; cbn [bind]; [| discriminate].
    destruct (msgTimeExpiredCheck cfg now ts) eqn:Hexp.
    + destruct (strconv.ParseInt val) as [size | err]; cbn [bind]; [| discriminate].
      intros Hrun. apply IH in Hrun as (marked & -> & Hall & Hrest & Hlast).
      exists ((key, val) :: marked). split; [reflexivity |]. split.
      * constructor; [| exact Hall].
        unfold pageTimeExpired. cbn [fst]. rewrite Hid, Hts, Hempty, Hexp.
        reflexivity.
      * split; [exact Hrest |]. rewrite last_cons_default.
        destruct marked as [| m0 marked0].
        -- cbn [List.last] in *. right. split; [discriminate |].
           destruct Hlast as [[_ Hend] | [Hne _]]; [| contradiction].
           rewrite Hend. exact Hid.
        -- rewrite (last_cons_default m0 marked0 (key, val)).
           rewrite (last_cons_default m0 marked0 ("", "")) in Hlast.
           destruct (List.last marked0 m0) as [k0 v0].
           right. split; [discriminate |].
           destruct Hlast as [[Hnil _] | [_ Hend]]; [discriminate | exact Hend].
    + intros H; injection H as <- <-. exists []. split; [reflexivity |].
      split; [constructor |]. split.
      * unfold pageTimeExpired. cbn [fst]. rewrite Hid, Hts, Hexp.
        apply andb_false_r.
      * cbn. left. split; reflexivity.
Qed.

(** On [stOrderly] at time 1000 the time loop marks page 1 and stops on
    page 2, whose ack is not a minute old. *)
Lemma timeLoop_marks_expired_prefix_witness :
  exists marked,
    topicPages (kv stOrderly) "T"
    = (marked ++ [("page_msg_size/T/2", "5"); ("page_msg_size/T/3", "5")])%list /\
    Forall (fun e => pageTimeExpired cfgTimeOnly 1000 (kv stOrderly) "T" e = true)
      marked /\
    pageTimeExpired cfgTimeOnly 1000 (kv stOrderly) "T" ("page_msg_size/T/2", "5")
    = false /\
    match List.last marked ("", "") with
    | (key, _) => marked = [] /\ 1 = pageEndID passVars0 \/
                  marked <> [] /\ parsePageID key = Ok 1
    end.
Proof.
  apply (timeLoop_marks_expired_prefix cfgTimeOnly 1000 noFaults (kv stOrderly) "T"
           None (topicPages (kv stOrderly) "T")
           [("page_msg_size/T/2", "5"); ("page_msg_size/T/3", "5")]
           passVars0
           {| deletedAckedSize := 5; pageCleaned := 1; pageEndID := 1;
              lastAck := 990 |}).
  vm_compute. reflexivity.
Defined.

(** The size loop leaves [lastAck] alone, and when it has marked a page the
    size test held for the last page it marked: what stays acked after the
    marked pages is still above the quota. *)
Theorem sizeLoop_stops_above_quota (cfg : PebblemqCfg) (total : Z)
    (iterEnd : option error) (pages : list (string * string))
    (v v' : passVars) :
  sizeLoop cfg total iterEnd pages v = Ok v' ->
  lastAck v' = lastAck v /\
  (v' = v \/ msgSizeExpiredCheck cfg (deletedAckedSize v') total = true).
Proof.
  revert v. induction pages as [| [key val] pages IH]; intros v; cbn [sizeLoop].
  - destruct iterEnd; [discriminate |].
    intros H; injection H as <-. split; [reflexivity | left; reflexivity].
  - destruct (strconv.ParseInt val) as [size | e]; cbn [bind]; [| discriminate].
    destruct (msgSizeExpiredCheck cfg (Int64.add (deletedAckedSize v) size) total)
      eqn:Hcheck.
    + destruct (parsePageID key) as [pageID | e]; cbn [bind]; [| discriminate].
      intros Hrun. apply IH in Hrun as [Hack Hcases]. cbn [lastAck] in Hack.
      split; [exact Hack |]. right.
      destruct Hcases as [-> | Hlast]; [exact Hcheck | exact Hlast].
    + intros H; injection H as <-. split; [reflexivity | left; reflexivity].
Qed.

(** With a quota of zero and 15 acked bytes in three pages of 5, the size
    loop marks pages 1 and 2 and keeps page 3. *)
Lemma sizeLoop_stops_above_quota_witness :
  sizeLoop cfgTimeAndSize 15 None (topicPages (kv stOrderly) "T") passVars0
  = Ok {| deletedAckedSize := 10; pageCleaned := 2; pageEndID := 2; lastAck := 0 |} /\
  msgSizeExpiredCheck cfgTimeAndSize 10 15 = true.
Proof.
  split; [vm_compute; reflexivity |].
  destruct (sizeLoop_stops_above_quota cfgTimeAndSize 15 None
              (topicPages (kv stOrderly) "T") passVars0
              {| deletedAckedSize := 10; pageCleaned := 2; pageEndID := 2;
                 lastAck := 0 |}) as [_ [Hsame | Hcheck]].
  - vm_compute. reflexivity.
  - discriminate Hsame.
  - exact Hcheck.
Defined.

(** ** The two commits of [cleanData] *)

(** [cleanData] commits the batch of the message store before the batch of
    the bookkeeping store, and the second only after the first has
    succeeded. It ends in one of three ways: nothing committed and an
    error; the messages deleted, the bookkeeping as before and the error of
    the refused second commit; both committed and success. *)
Theorem cleanData_commit_trace (faults : Faults) (topic : string) (E : Z)
    (st st' : State) (r : result unit) :
  cleanData faults topic E st = (r, st') ->
  (st' = st /\ exists e, r = Err e) \/
  (events st' = (events st ++ [EvCommit DataKV (dataBatch topic E)])%list /\
   db st' = pebblekv.applyBatch (dataBatch topic E) (db st) /\
   kv st' = kv st /\
   exists e, r = Err e /\ metaCommitErr faults topic = Some e) \/
  (events st' = (events st ++ [EvCommit DataKV (dataBatch topic E);
                               EvCommit MetaKV (metaBatch topic E)])%list /\
   db st' = pebblekv.applyBatch (dataBatch topic E) (db st) /\
   kv st' = pebblekv.applyBatch (metaBatch topic E) (kv st) /\
   r = Ok tt).
Proof.
  unfold cleanData, DeleteMessages, Commit.
  destruct (topicMu st !! topic) as [[] |].
  - destruct (dataCommitErr faults topic) as [e |].
    { intros H; injection H as <- <-. left. split; [reflexivity |].
      exists e. reflexivity. }
    destruct (metaCommitErr faults topic) as [e |] eqn:Hmeta.
    + intros H; injection H as <- <-. right. left.
      repeat split; try reflexivity. exists e. split; reflexivity.
    + intros H; injection H as <- <-. right. right.
      split; [| repeat split; reflexivity].
      cbn [events emit setStore]. rewrite <- app_assoc. reflexivity.
  - intros H; injection H as <- <-. left. split; [reflexivity |].
    eexists. reflexivity.
  - intros H; injection H as <- <-. left. split; [reflexivity |].
    eexists. reflexivity.
Qed.

(** With the bookkeeping store refusing commits, [cleanData] on [stOrderly]
    deletes the message of page 1 and keeps its bookkeeping. *)
Lemma cleanData_commit_trace_witness :
  exists st',
    cleanData faultsMeta "T" 1 stOrderly = (Err (ErrKV "pebble: closed"), st') /\
    db st' !! "T/1" = None /\ kv st' = kv stOrderly.
Proof.
  destruct (cleanData faultsMeta "T" 1 stOrderly) as [r st'] eqn:Hrun.
  exists st'.
  destruct (cleanData_commit_trace faultsMeta "T" 1 stOrderly st' r Hrun)
    as [[-> _] | [(_ & Hdb & Hkv & _) | (_ & _ & _ & ->)]].
  - vm_compute in Hrun. discriminate Hrun.
  - split; [| split; [| exact Hkv]].
    + vm_compute in Hrun. injection Hrun as <- _. reflexivity.
    + rewrite Hdb. vm_compute. reflexivity.
  - vm_compute in Hrun. discriminate Hrun.
Defined.

Lemma DeleteRange_idemp (lo hi : string) (m : gmap string string) :
  pebblekv.DeleteRange lo hi (pebblekv.DeleteRange lo hi m)
  = pebblekv.DeleteRange lo hi m.
Proof.
  apply map_eq; intros k. rewrite !lookup_DeleteRange.
  destruct (pebblekv.inRange lo hi k); reflexivity.
Qed.

(** After a [cleanData] that failed under the mutex of the topic, on the
    first commit or on the second, running [cleanData] again for the same
    page range with no commit refused succeeds, and leaves both stores as a
    [cleanData] that had succeeded at once: the messages deleted by the
    failed attempt are deleted once more and nothing else is lost. *)
Theorem cleanData_retry_converges (faults : Faults) (topic : string) (E : Z)
    (st st1 : State) (e : error) :
  topicMu st !! topic = Some MutexEntry ->
  cleanData faults topic E st = (Err e, st1) ->
  exists st2 st3,
    cleanData noFaults topic E st1 = (Ok tt, st2) /\
    cleanData noFaults topic E st = (Ok tt, st3) /\
    db st2 = db st3 /\ kv st2 = kv st3.
Proof.
  intros Hmu. unfold cleanData, DeleteMessages, Commit.
  cbn [noFaults dataCommitErr metaCommitErr]. rewrite Hmu.
  destruct (dataCommitErr faults topic) as [e1 |].
  - intros H; injection H as <- <-. rewrite Hmu.
    eexists. eexists. split; [reflexivity |]. split; [reflexivity |].
    split; reflexivity.
  - destruct (metaCommitErr faults topic) as [e2 |]; [| discriminate].
    intros H; injection H as <- <-. cbn [topicMu emit setStore]. rewrite Hmu.
    eexists. eexists. split; [reflexivity |]. split; [reflexivity |].
    cbn [db kv emit setStore getStore pebblekv.applyBatch fold_left pebblekv.applyOp].
    split; [apply DeleteRange_idemp | reflexivity].
Qed.

Lemma cleanData_retry_converges_witness :
  exists st1 st2 st3,
    cleanData faultsMeta "T" 1 stOrderly = (Err (ErrKV "pebble: closed"), st1) /\
    cleanData noFaults "T" 1 st1 = (Ok tt, st2) /\
    cleanData noFaults "T" 1 stOrderly = (Ok tt, st3) /\
    db st2 = db st3 /\ kv st2 = kv st3.
Proof.
  eexists. 
  assert (Hrun : cleanData faultsMeta "T" 1 stOrderly
                 = (Err (ErrKV "pebble: closed"),
                    (cleanData faultsMeta "T" 1 stOrderly).2))
    by (vm_compute; reflexivity).
  destruct (cleanData_retry_converges faultsMeta "T" 1 stOrderly _ _
              ltac:(vm_compute; reflexivity) Hrun) as (st2 & st3 & H).
  exists st2, st3. split; [exact Hrun | exact H].
Defined.

(** ** What a pass reads *)

Lemma SeekUpTo_ext (m1 m2 : gmap string string) (lo hi : string) :
  (forall k, pebblekv.inRange lo hi k = true -> m1 !! k = m2 !! k) ->
  pebblekv.SeekUpTo m1 lo hi = pebblekv.SeekUpTo m2 lo hi.
Proof.
  intros Hagree.
  destruct (SeekUpTo_spec m1 lo hi) as (Hs1 & Hn1 & He1).
  destruct (SeekUpTo_spec m2 lo hi) as (Hs2 & Hn2 & He2).
  assert (Hsame : forall k v, (k, v) ∈ pebblekv.SeekUpTo m1 lo hi <->
                              (k, v) ∈ pebblekv.SeekUpTo m2 lo hi).
  { intros k v. rewrite He1, He2. split; intros [Hk Hin]; split; try exact Hin.
    - rewrite <- (Hagree k Hin). exact Hk.
    - rewrite (Hagree k Hin). exact Hk. }
  apply (StronglySorted_unique_strong pebblekv.entryLe).
  - intros [k1 v1] [k2 v2] H1 H2 Hle1 Hle2.
    apply He1 in H1 as [H1 Hin1]. apply He2 in H2 as [H2 _].
    unfold pebblekv.entryLe in Hle1, Hle2. cbn [fst] in Hle1, Hle2.
    assert (k1 = k2) by (apply (anti_symm String.le); assumption).
    subst k2. rewrite (Hagree k1 Hin1) in H1. congruence.
  - exact Hs1.
  - exact Hs2.
  - apply NoDup_Permutation.
    + apply (NoDup_fmap_1 fst), Hn1.
    + apply (NoDup_fmap_1 fst), Hn2.
    + intros [k v]. apply Hsame.
Qed.

Lemma topicPages_ext (m1 m2 : gmap string string) (topic : string) :
  (forall r, m1 !! (pageMsgPrefixOf topic +:+ r)
             = m2 !! (pageMsgPrefixOf topic +:+ r)) ->
  topicPages m1 topic = topicPages m2 topic.
Proof.
  intros Hagree. unfold topicPages. apply SeekUpTo_ext. intros k Hin.
  unfold pageMsgPrefixOf in *.
  apply inRange_scan_prefix in Hin as [r ->]. apply Hagree.
Qed.

Lemma kvLoad_ext (faults : Faults) (site : reader) (m1 m2 : gmap string string)
    (key : string) :
  m1 !! key = m2 !! key -> kvLoad faults site m1 key = kvLoad faults site m2 key.
Proof. intros Hagree. unfold kvLoad, pebblekv.Load. rewrite Hagree. reflexivity. Qed.

Lemma ackedSizeLoop_ext (faults : Faults) (m1 m2 : gmap string string)
    (topic : string) (iterEnd : option error) (pages : list (string * string))
    (a : Z) :
  (forall id, m1 !! ackedTsKeyOf topic id = m2 !! ackedTsKeyOf topic id) ->
  ackedSizeLoop faults m1 (constructKey AckedTsTitle topic) iterEnd pages a
  = ackedSizeLoop faults m2 (constructKey AckedTsTitle topic) iterEnd pages a.
Proof.
  intros Hagree. revert a.
  induction pages as [| [key val] pages IH]; intros a; [reflexivity |].
  cbn [ackedSizeLoop]. destruct (parsePageID key) as [pageID | e]; [| reflexivity].
  cbn [bind]. fold (ackedTsKeyOf topic pageID).
  rewrite (kvLoad_ext faults _ m1 m2 _ (Hagree pageID)).
  destruct (kvLoad faults _ m2 _) as [ackedTsVal | e]; [| reflexivity].
  cbn [bind]. destruct (String.eqb ackedTsVal ""); [reflexivity |].
  destruct (strconv.ParseInt val); [| reflexivity]. cbn [bind]. apply IH.
Qed.

Lemma timeLoop_ext (cfg : PebblemqCfg) (now : Z) (faults : Faults)
    (m1 m2 : gmap string string) (topic : string) (iterEnd : option error)
    (pages : list (string * string)) (v : passVars) :
  (forall id, m1 !! ackedTsKeyOf topic id = m2 !! ackedTsKeyOf topic id) ->
  timeLoop cfg now faults m1 (constructKey AckedTsTitle topic) iterEnd pages v
  = timeLoop cfg now faults m2 (constructKey AckedTsTitle topic) iterEnd pages v.
Proof.
  intros Hagree. revert v.
  induction pages as [| [key val] pages IH]; intros v; [reflexivity |].
  cbn [timeLoop]. destruct (parsePageID key) as [pageID | e]; [| reflexivity].
  cbn [bind]. fold (ackedTsKeyOf topic pageID).
  rewrite (kvLoad_ext faults _ m1 m2 _ (Hagree pageID)).
  destruct (kvLoad faults _ m2 _) as [ackedTsVal | e]; [| reflexivity].
  cbn [bind]. destruct (String.eqb ackedTsVal ""); [reflexivity |].
  destruct (strconv.ParseInt ackedTsVal); [| reflexivity]. cbn [bind].
  destruct (msgTimeExpiredCheck cfg now _); [| reflexivity].
  destruct (strconv.ParseInt val); [| reflexivity]. cbn [bind]. apply IH.
Qed.

(** A pass on a topic reads nothing of the bookkeeping store but the
    entries [page_msg_size/{topic}/...] and the acks
    [acked_ts/{topic}/{id}]: on two stores that agree on these keys, and
    with the same reads failing, the total acked size and the outcome of
    both loops are the same, whatever the stores hold for other topics,
    under [page_ts], or elsewhere. *)
Theorem pass_reads_sizes_and_acks_of_topic (cfg : PebblemqCfg) (now : Z)
    (faults : Faults) (m1 m2 : gmap string string) (topic : string) :
  (forall r, m1 !! (pageMsgPrefixOf topic +:+ r)
             = m2 !! (pageMsgPrefixOf topic +:+ r)) ->
  (forall id, m1 !! ackedTsKeyOf topic id = m2 !! ackedTsKeyOf topic id) ->
  calculateTopicAckedSize faults m1 topic = calculateTopicAckedSize faults m2 topic /\
  forall total,
    expiredScan cfg now faults m1 topic total
    = expiredScan cfg now faults m2 topic total.
Proof.
  intros Hpages Hacks. split.
  - unfold calculateTopicAckedSize.
    change (pebblekv.SeekUpTo m1 _ _) with (topicPages m1 topic).
    change (pebblekv.SeekUpTo m2 _ _) with (topicPages m2 topic).
    rewrite (topicPages_ext m1 m2 topic Hpages).
    apply ackedSizeLoop_ext, Hacks.
  - intros total. unfold expiredScan.
    change (pebblekv.SeekUpTo m1 _ _) with (topicPages m1 topic).
    change (pebblekv.SeekUpTo m2 _ _) with (topicPages m2 topic).
    rewrite (topicPages_ext m1 m2 topic Hpages).
    rewrite (timeLoop_ext cfg now faults m1 m2 topic _ _ _ Hacks). reflexivity.
Qed.

(** Changing the time stamp [page_ts/T/1] of a page and the bookkeeping of
    topic [U] changes nothing for a pass on topic [T]. *)
Lemma pass_reads_sizes_and_acks_of_topic_witness :
  calculateTopicAckedSize noFaults
    (<["page_ts/T/1" := "0"]> (delete "acked_ts/U/1" (kv stOrderly))) "T"
  = calculateTopicAckedSize noFaults (kv stOrderly) "T".
Proof.
  apply (pass_reads_sizes_and_acks_of_topic cfgTimeOnly 1000 noFaults
           (<["page_ts/T/1" := "0"]> (delete "acked_ts/U/1" (kv stOrderly)))
           (kv stOrderly) "T").
  - intros r. etrans; [apply lookup_insert_ne | apply lookup_delete_ne];
      cbv -[String.app]; rewrite !append_cons; discriminate.
  - intros id. etrans; [apply lookup_insert_ne | apply lookup_delete_ne];
      cbv -[String.app strconv.FormatInt]; rewrite !append_cons; discriminate.
Defined.

(** ** Invariants of the retention tick *)

Lemma applyBatch_subseteq (b : list pebblekv.batchOp) (m : gmap string string) :
  pebblekv.applyBatch b m ⊆ m.
Proof.
  unfold pebblekv.applyBatch. revert m.
  induction b as [| [lo hi] b IH]; intros m; [reflexivity |].
  cbn [fold_left pebblekv.applyOp]. etrans; [apply IH |].
  unfold pebblekv.DeleteRange. apply map_filter_subseteq.
Qed.

Lemma Commit_subseteq (s : store) (fault : option error)
    (b : list pebblekv.batchOp) (st st' : State) (r : result unit) :
  Commit s fault b st = (r, st') -> db st' ⊆ db st /\ kv st' ⊆ kv st.
Proof.
  unfold Commit. destruct fault as [e |]; intros H; injection H as <- <-.
  - split; reflexivity.
  - destruct s; cbn [db kv emit setStore getStore]; split;
      try reflexivity; apply applyBatch_subseteq.
Qed.

Lemma cleanData_subseteq (faults : Faults) (topic : string) (E : Z)
    (st st' : State) (r : result unit) :
  cleanData faults topic E st = (r, st') -> db st' ⊆ db st /\ kv st' ⊆ kv st.
Proof.
  unfold cleanData, DeleteMessages.
  destruct (topicMu st !! topic) as [[] |];
    try (intros H; injection H as <- <-; split; reflexivity).
  destruct (Commit DataKV _ _ st) as [[[] | e] st1] eqn:Hd.
  - intros Hm. apply Commit_subseteq in Hd as [Hd1 Hd2].
    apply Commit_subseteq in Hm as [Hm1 Hm2].
    split; etrans; eassumption.
  - intros H; injection H as <- <-. exact (Commit_subseteq _ _ _ _ _ _ Hd).
Qed.

Lemma expiredCleanUp_subseteq (cfg : PebblemqCfg) (now : Z) (faults : Faults)
    (topic : string) (st st' : State) (r : result unit) :
  expiredCleanUp cfg now faults topic st = (r, st') ->
  db st' ⊆ db st /\ kv st' ⊆ kv st.
Proof.
  intros Hrun.
  apply expiredCleanUp_cases in Hrun as [[-> _] | (E & _ & Hclean)].
  - split; reflexivity.
  - exact (cleanData_subseteq _ _ _ _ _ _ Hclean).
Qed.

Lemma retentionVisit_stores (cfg : PebblemqCfg) (now : Z) (faults : Faults)
    (timeNow : Z) (st : State) (entry : string * Z) :
  db (retentionVisit cfg now faults timeNow st entry) ⊆ db st /\
  kv (retentionVisit cfg now faults timeNow st entry) ⊆ kv st /\
  topicMu (retentionVisit cfg now faults timeNow st entry) = topicMu st.
Proof.
  destruct entry as [topic last].
  destruct (due cfg timeNow last) eqn:Hdue.
  - rewrite retentionVisit_due by exact Hdue.
    destruct (expiredCleanUp cfg now faults topic st) as [r st1] eqn:Hrun.
    destruct (expiredCleanUp_subseteq _ _ _ _ _ _ _ Hrun) as [Hdb Hkv].
    destruct (expiredCleanUp_frame _ _ _ _ _ _ _ Hrun) as [Hmu _].
    destruct r as [[] | e]; cbn [db kv topicMu setRetentionTime emit];
      split; [exact Hdb | split; [exact Hkv | exact Hmu]
             | exact Hdb | split; [exact Hkv | exact Hmu]].
  - rewrite retentionVisit_not_due by exact Hdue.
    split; [reflexivity | split; reflexivity].
Qed.

Lemma retentionFold_stores (cfg : PebblemqCfg) (now : Z) (faults : Faults)
    (timeNow : Z) (l : list (string * Z)) (st : State) :
  db (fold_left (retentionVisit cfg now faults timeNow) l st) ⊆ db st /\
  kv (fold_left (retentionVisit cfg now faults timeNow) l st) ⊆ kv st /\
  topicMu (fold_left (retentionVisit cfg now faults timeNow) l st) = topicMu st.
Proof.
  revert st. induction l as [| entry l IH]; intros st; cbn [fold_left].
  - split; [reflexivity | split; reflexivity].
  - destruct (IH (retentionVisit cfg now faults timeNow st entry))
      as (Hdb & Hkv & Hmu).
    destruct (retentionVisit_stores cfg now faults timeNow st entry)
      as (Hdb1 & Hkv1 & Hmu1).
    split; [etrans; eassumption | split; [etrans; eassumption | congruence]].
Qed.

(** A retention tick only deletes: every entry of either store after the
    tick was there, with the same value, before it. It leaves the lock
    registry as it was, and it tracks the same topics after as before. *)
Theorem retentionTick_only_deletes (cfg : PebblemqCfg) (now : Z)
    (faults : Faults) (timeNow : Z) (st : State) :
  db (retentionTick cfg now faults timeNow st) ⊆ db st /\
  kv (retentionTick cfg now faults timeNow st) ⊆ kv st /\
  topicMu (retentionTick cfg now faults timeNow st) = topicMu st /\
  forall topic,
    topicRetetionTime (retentionTick cfg now faults timeNow st) !! topic = None
    <-> topicRetetionTime st !! topic = None.
Proof.
  destruct (retentionFold_stores cfg now faults timeNow
              (map_to_list (topicRetetionTime st)) st) as (Hdb & Hkv & Hmu).
  split; [exact Hdb | split; [exact Hkv | split; [exact Hmu |]]].
  intros topic. destruct (topicRetetionTime st !! topic) as [last |] eqn:Hlook.
  - rewrite (retentionTick_tracker cfg now faults timeNow st topic last Hlook).
    split; discriminate.
  - unfold retentionTick. rewrite retentionFold_other; [rewrite Hlook; tauto |].
    intros Hin. apply list_elem_of_fmap in Hin as ([t last] & Ht & Hin).
    apply elem_of_map_to_list in Hin. cbn [fst] in Ht. subst t.
    rewrite Hlook in Hin. discriminate Hin.
Qed.

(** A tick at which no tracked topic is due changes nothing at all. *)
Theorem retentionTick_nothing_due (cfg : PebblemqCfg) (now : Z)
    (faults : Faults) (timeNow : Z) (st : State) :
  (forall topic last, topicRetetionTime st !! topic = Some last ->
                      due cfg timeNow last = false) ->
  retentionTick cfg now faults timeNow st = st.
Proof.
  intros Hnone. unfold retentionTick.
  assert (Hall : Forall (fun e => due cfg timeNow e.2 = false)
                   (map_to_list (topicRetetionTime st))).
  { apply Forall_forall. intros [topic last] Hin.
    apply elem_of_map_to_list in Hin. exact (Hnone topic last Hin). }
  induction Hall as [| [topic last] l Hdue _ IH]; cbn [fold_left]; [reflexivity |].
  rewrite retentionVisit_not_due by exact Hdue. exact IH.
Qed.

(** On [stOrderly], whose topics were checked at time 0, a tick at time 6
    finds nothing due: the check time must be exceeded. *)
Lemma retentionTick_nothing_due_witness :
  retentionTick cfgTimeAndSize 6 noFaults 6 stOrderly = stOrderly.
Proof.
  apply (retentionTick_nothing_due cfgTimeAndSize 6 noFaults 6 stOrderly).
  intros topic last Hlook.
  assert (Hlast : last = 0).
  { change (topicRetetionTime stOrderly)
      with (<["T" := 0]> (<["U" := 0]> (∅ : gmap string Z))) in Hlook.
    destruct (decide (topic = "T")) as [-> | HT].
    - rewrite lookup_insert_eq in Hlook. congruence.
    - rewrite lookup_insert_ne in Hlook by congruence.
      destruct (decide (topic = "U")) as [-> | HU].
      + rewrite lookup_insert_eq in Hlook. congruence.
      + rewrite lookup_insert_ne, lookup_empty in Hlook by congruence.
        discriminate. }
  subst last. reflexivity.
Defined.

(** The entry of a tracked topic never moves back: when the check time is
    not negative and adding it to the entry stays within [int64], the
    entry after a tick is the entry before it or a later time. *)
Theorem retentionTick_tracker_advances (cfg : PebblemqCfg) (now : Z)
    (faults : Faults) (timeNow : Z) (st : State) (topic : string) (last : Z) :
  topicRetetionTime st !! topic = Some last ->
  0 <= CheckTimeSeconds cfg ->
  Int64.inRange (last + CheckTimeSeconds cfg) ->
  exists last',
    topicRetetionTime (retentionTick cfg now faults timeNow st) !! topic
    = Some last' /\ last <= last'.
Proof.
  intros Hlook Hcheck Hrange.
  rewrite (retentionTick_tracker cfg now faults timeNow st topic last Hlook).
  unfold due, Int64.add. rewrite (wrap_id _ Hrange).
  destruct (Z.ltb_spec (last + CheckTimeSeconds cfg) timeNow).
  - exists timeNow. split; [reflexivity | lia].
  - exists last. split; [reflexivity | lia].
Qed.

Lemma retentionTick_tracker_advances_witness :
  exists last',
    topicRetetionTime (retentionTick cfgTimeOnly 1000 noFaults 1000 stBadSize) !! "T"
    = Some last' /\ 0 <= last'.
Proof.
  apply (retentionTick_tracker_advances cfgTimeOnly 1000 noFaults 1000
           stBadSize "T" 0).
  - reflexivity.
  - vm_compute. discriminate.
  - vm_compute. split; discriminate.
Defined.

(** ** Topics that a tick does not visit *)

Lemma dataBatch_other_topics (topic : string) (E : Z) (m : gmap string string)
    (k : string) :
  plainTopic topic -> dataKeyTopic k <> Some topic ->
  pebblekv.applyBatch (dataBatch topic E) m !! k = m !! k.
Proof.
  intros (Hslash & Hne & Hdot) Hk.
  unfold dataBatch, pebblekv.applyBatch. cbn [fold_left pebblekv.applyOp].
  rewrite lookup_DeleteRange.
  destruct (pebblekv.inRange _ _ k) eqn:Hin; [| reflexivity].
  exfalso. apply Hk.
  destruct (FormatInt_plain 0) as [Hp0 Hn0].
  destruct (FormatInt_plain (Int64.add E 1)) as [Hp1 Hn1].
  rewrite (path_Join_topic topic _ Hslash Hne Hdot Hp0 Hn0) in Hin.
  rewrite (path_Join_topic topic _ Hslash Hne Hdot Hp1 Hn1) in Hin.
  rewrite <- !(append_assoc topic "/" _) in Hin.
  apply inRange_prefix in Hin as (r & -> & _).
  apply dataKeyTopic_of_prefix. exact Hslash.
Qed.

Lemma metaBatch_other_topics (topic : string) (E : Z) (m : gmap string string)
    (k : string) :
  plainTopic topic -> metaKeyTopic k <> Some topic ->
  pebblekv.applyBatch (metaBatch topic E) m !! k = m !! k.
Proof.
  intros (Hslash & _ & _) Hk. unfold metaBatch. rewrite lookup_applyBatch3.
  rewrite (not_true_is_false _
    (fun H => Hk (metaRange_topic "page_msg_size" topic _ k eq_refl Hslash H))).
  rewrite (not_true_is_false _
    (fun H => Hk (metaRange_topic "page_ts" topic _ k eq_refl Hslash H))).
  rewrite (not_true_is_false _
    (fun H => Hk (metaRange_topic "acked_ts" topic _ k eq_refl Hslash H))).
  reflexivity.
Qed.

Lemma cleanData_other_topics (faults : Faults) (topic : string) (E : Z)
    (st st' : State) (r : result unit) :
  plainTopic topic ->
  cleanData faults topic E st = (r, st') ->
  (forall k, metaKeyTopic k <> Some topic -> kv st' !! k = kv st !! k) /\
  (forall k, dataKeyTopic k <> Some topic -> db st' !! k = db st !! k).
Proof.
  intros Hplain. unfold cleanData, DeleteMessages, Commit.
  destruct (topicMu st !! topic) as [[] |];
    try (intros H; injection H as <- <-; split; reflexivity).
  destruct (dataCommitErr faults topic) as [e |];
    [intros H; injection H as <- <-; split; reflexivity |].
  destruct (metaCommitErr faults topic) as [e |]; intros H; injection H as <- <-;
    cbn [db kv emit setStore getStore]; split; intros k Hk; try reflexivity.
  - exact (dataBatch_other_topics topic E (db st) k Hplain Hk).
  - exact (metaBatch_other_topics topic E (kv st) k Hplain Hk).
  - exact (dataBatch_other_topics topic E (db st) k Hplain Hk).
Qed.

Lemma expiredCleanUp_other_topics (cfg : PebblemqCfg) (now : Z) (faults : Faults)
    (topic : string) (st st' : State) (r : result unit) :
  plainTopic topic ->
  expiredCleanUp cfg now faults topic st = (r, st') ->
  (forall k, metaKeyTopic k <> Some topic -> kv st' !! k = kv st !! k) /\
  (forall k, dataKeyTopic k <> Some topic -> db st' !! k = db st !! k).
Proof.
  intros Hplain Hrun.
  apply expiredCleanUp_cases in Hrun as [[-> _] | (E & _ & Hclean)].
  - split; reflexivity.
  - exact (cleanData_other_topics _ _ _ _ _ _ Hplain Hclean).
Qed.

Lemma retentionFold_other_topics (cfg : PebblemqCfg) (now : Z) (faults : Faults)
    (timeNow : Z) (keyTopic : string -> option string)
    (sel : State -> gmap string string) (k : string)
    (l : list (string * Z)) (st : State) :
  (forall topic st0 r st1,
     plainTopic topic -> keyTopic k <> Some topic ->
     expiredCleanUp cfg now faults topic st0 = (r, st1) ->
     sel st1 !! k = sel st0 !! k) ->
  (forall st0 ev, sel (emit ev st0) = sel st0) ->
  (forall st0 topic ts, sel (setRetentionTime topic ts st0) = sel st0) ->
  Forall (fun e => due cfg timeNow e.2 = true ->
                   plainTopic e.1 /\ keyTopic k <> Some e.1) l ->
  sel (fold_left (retentionVisit cfg now faults timeNow) l st) !! k = sel st !! k.
Proof.
  intros Hpass Hemit Hset Hall. revert st.
  induction Hall as [| [topic last] l Hhead _ IH]; intros st; cbn [fold_left];
    [reflexivity |].
  rewrite IH. cbn [fst snd] in Hhead.
  destruct (due cfg timeNow last) eqn:Hdue.
  - rewrite retentionVisit_due by exact Hdue.
    destruct (Hhead eq_refl) as [Hplain Hk].
    destruct (expiredCleanUp cfg now faults topic st) as [r st1] eqn:Hrun.
    rewrite Hset.
    destruct r as [[] | e]; rewrite ?Hemit; exact (Hpass _ _ _ _ Hplain Hk Hrun).
  - rewrite retentionVisit_not_due by exact Hdue. reflexivity.
Qed.

(** A retention tick leaves alone what belongs to the topics it does not
    visit: when the tracked topics that are due have names that are not
    empty, not a dot and without a slash, every bookkeeping key and every
    message key whose topic component is not one of them has after the tick
    the value it had before, whatever the passes on the due topics did and
    whichever commits failed. *)
Theorem retentionTick_keeps_other_topics (cfg : PebblemqCfg) (now : Z)
    (faults : Faults) (timeNow : Z) (st : State) :
  (forall topic last, topicRetetionTime st !! topic = Some last ->
                      due cfg timeNow last = true -> plainTopic topic) ->
  (forall k,
     (forall topic last, topicRetetionTime st !! topic = Some last ->
                         due cfg timeNow last = true -> metaKeyTopic k <> Some topic) ->
     kv (retentionTick cfg now faults timeNow st) !! k = kv st !! k) /\
  (forall k,
     (forall topic last, topicRetetionTime st !! topic = Some last ->
                         due cfg timeNow last = true -> dataKeyTopic k <> Some topic) ->
     db (retentionTick cfg now faults timeNow st) !! k = db st !! k).
Proof.
  intros Hplain. unfold retentionTick. split; intros k Hk.
  - apply (retentionFold_other_topics cfg now faults timeNow metaKeyTopic kv).
    + intros topic st0 r st1 Hp Hne Hrun.
      exact (proj1 (expiredCleanUp_other_topics _ _ _ _ _ _ _ Hp Hrun) k Hne).
    + reflexivity.
    + reflexivity.
    + apply Forall_forall. intros [topic last] Hin Hdue.
      apply elem_of_map_to_list in Hin. cbn [fst snd] in *.
      split; [exact (Hplain topic last Hin Hdue) | exact (Hk topic last Hin Hdue)].
  - apply (retentionFold_other_topics cfg now faults timeNow dataKeyTopic db).
    + intros topic st0 r st1 Hp Hne Hrun.
      exact (proj2 (expiredCleanUp_other_topics _ _ _ _ _ _ _ Hp Hrun) k Hne).
    + reflexivity.
    + reflexivity.
    + apply Forall_forall. intros [topic last] Hin Hdue.
      apply elem_of_map_to_list in Hin. cbn [fst snd] in *.
      split; [exact (Hplain topic last Hin Hdue) | exact (Hk topic last Hin Hdue)].
Qed.

(** ** The compaction tick, as a whole *)

(** The compaction tick changes neither store, nor the lock registry, nor
    the tracker. It requests one forced compaction without a lower bound for
    each store that is not empty, the message store first, and nothing for
    an empty store. *)
Theorem compactionTick_requests_only (st : State) :
  db (compactionTick st) = db st /\ kv (compactionTick st) = kv st /\
  topicMu (compactionTick st) = topicMu st /\
  topicRetetionTime (compactionTick st) = topicRetetionTime st /\
  exists dataReq metaReq,
    events (compactionTick st) = (events st ++ dataReq ++ metaReq)%list /\
    (if decide (db st = ∅) then dataReq = []
     else exists limit, dataReq = [EvCompact DataKV None limit true]) /\
    (if decide (kv st = ∅) then metaReq = []
     else exists limit, metaReq = [EvCompact MetaKV None limit true]).
Proof.
  assert (Hframe : forall s st0,
            db (compactStore s st0) = db st0 /\ kv (compactStore s st0) = kv st0 /\
            topicMu (compactStore s st0) = topicMu st0 /\
            topicRetetionTime (compactStore s st0) = topicRetetionTime st0).
  { intros s st0. unfold compactStore.
    destruct (pebblekv.SeekToLast (getStore s st0)) as [[? ?] |];
      repeat split; reflexivity. }
  unfold compactionTick.
  destruct (Hframe MetaKV (compactStore DataKV st)) as (H1 & H2 & H3 & H4).
  destruct (Hframe DataKV st) as (H5 & H6 & H7 & H8).
  split; [congruence | split; [congruence | split; [congruence |
    split; [congruence |]]]].
  eexists. eexists. split; [apply compactionTick_events |]. split.
  - destruct (decide (db st = ∅)) as [Hempty | Hfull].
    + rewrite (proj2 (SeekToLast_None (db st)) Hempty). reflexivity.
    + destruct (pebblekv.SeekToLast (db st)) as [[key value] |] eqn:Hlast.
      * eexists. reflexivity.
      * exfalso. apply Hfull, SeekToLast_None, Hlast.
  - destruct (decide (kv st = ∅)) as [Hempty | Hfull].
    + rewrite (proj2 (SeekToLast_None (kv st)) Hempty). reflexivity.
    + destruct (pebblekv.SeekToLast (kv st)) as [[key value] |] eqn:Hlast.
      * eexists. reflexivity.
      * exfalso. apply Hfull, SeekToLast_None, Hlast.
Qed.

Lemma stOrderly_tracker_cases (topic : string) (last : Z) :
  topicRetetionTime (setRetentionTime "U" 999 stOrderly) !! topic = Some last ->
  topic = "T" /\ last = 0 \/ topic = "U" /\ last = 999.
Proof.
  change (topicRetetionTime (setRetentionTime "U" 999 stOrderly))
    with (<["U" := 999]> (<["T" := 0]> (<["U" := 0]> (∅ : gmap string Z)))).
  intros Hlook.
  destruct (decide (topic = "U")) as [-> | HU].
  - rewrite lookup_insert_eq in Hlook. right. split; congruence.
  - rewrite lookup_insert_ne in Hlook by congruence.
    destruct (decide (topic = "T")) as [-> | HT].
    + rewrite lookup_insert_eq in Hlook. left. split; congruence.
    + rewrite lookup_insert_ne in Hlook by congruence.
      rewrite lookup_insert_ne, lookup_empty in Hlook by congruence.
      discriminate.
Qed.

(** With topic [U] checked at time 999, the tick of time 1000 visits topic
    [T] only, and the bookkeeping and the message of [U] are as before. *)
Lemma retentionTick_keeps_other_topics_witness :
  kv (retentionTick cfgTimeAndSize 1000 noFaults 1000
        (setRetentionTime "U" 999 stOrderly)) !! "page_msg_size/U/1" = Some "5" /\
  db (retentionTick cfgTimeAndSize 1000 noFaults 1000
        (setRetentionTime "U" 999 stOrderly)) !! "U/1" = Some "u1".
Proof.
  destruct (retentionTick_keeps_other_topics cfgTimeAndSize 1000 noFaults 1000
              (setRetentionTime "U" 999 stOrderly)) as [Hmeta Hdata].
  - intros topic last Hlook Hdue.
    destruct (stOrderly_tracker_cases topic last Hlook) as [[-> ->] | [-> ->]].
    + split; [reflexivity | split; discriminate].
    + vm_compute in Hdue. discriminate Hdue.
  - split.
    + rewrite Hmeta; [vm_compute; reflexivity |].
      intros topic last Hlook Hdue.
      destruct (stOrderly_tracker_cases topic last Hlook) as [[-> ->] | [-> ->]].
      * vm_compute. discriminate.
      * vm_compute in Hdue. discriminate Hdue.
    + rewrite Hdata; [vm_compute; reflexivity |].
      intros topic last Hlook Hdue.
      destruct (stOrderly_tracker_cases topic last Hlook) as [[-> ->] | [-> ->]].
      * vm_compute. discriminate.
      * vm_compute in Hdue. discriminate Hdue.
Defined.

(** ** The pass on a topic that meets [OrderlyTopic] *)

(** [expiredCleanUp] computes the decision written over the parsed pages:
    when no read of the store fails and sizes, quota and expiry times stay
    within [int64], it returns at once if no page before the first unacked
    one has a size, or if the last marked page has id 0, and otherwise calls
    [cleanData] with the id of the last page that the time loop and the size
    loop marked. *)
Theorem expiredCleanUp_follows_decision (cfg : PebblemqCfg) (now : Z)
    (faults : Faults) (topic : string) (st : State) (vs : list pageView) :
  readsOk faults ->
  Forall2 (pageViewOf (kv st) topic) (topicPages (kv st) topic) vs ->
  Forall (fun v => 0 <= pvSize v) vs ->
  sumSizesV vs <= Int64.max ->
  RetentionSizeInMB cfg * MB <= Int64.max ->
  Forall (fun t => Int64.inRange (t + RetentionTimeSeconds cfg)) (ackTimes vs) ->
  expiredCleanUp cfg now faults topic st =
  if ackedPrefixSize vs =? 0 then (Ok tt, st)
  else if lastID (take (markedCount cfg now vs) vs) 0 =? 0 then (Ok tt, st)
       else cleanData faults topic
              (lastID (take (markedCount cfg now vs) vs) 0) st.
Proof. exact (expiredCleanUp_decision cfg now faults topic st vs). Qed.

(** On [stOrderly] the time loop marks page 1, the size loop page 2, and
    the pass is [cleanData] up to page 2. *)
Lemma expiredCleanUp_follows_decision_witness :
  expiredCleanUp cfgTimeAndSize 1000 noFaults "T" stOrderly
  = cleanData noFaults "T" 2 stOrderly.
Proof.
  exact (expiredCleanUp_follows_decision cfgTimeAndSize 1000 noFaults "T" stOrderly _
           readsOk_noFaults
           (ot_views _ _ _ _ stOrderly_in_order)
           (ot_sizes _ _ _ _ stOrderly_in_order)
           (ot_total _ _ _ _ stOrderly_in_order)
           (ot_quota _ _ _ _ stOrderly_in_order)
           (ot_times _ _ _ _ stOrderly_in_order)).
Defined.

(** On a topic that meets [OrderlyTopic] - page ids ascending along the
    scan; for any two pages with ids [p] and [q], the decimal of [p]
    byte-wise below the decimal of [q + 1] exactly when [p <= q]; sizes not
    negative, their sum, the quota and the expiry times within [int64];
    acks recorded in page order - a pass with no commit refused and no read
    failing either changes nothing or removes from the scan exactly the
    pages that were marked, a prefix of the scan, and the pages that stay
    read as before. *)
Theorem orderly_pass_removes_marked_prefix (cfg : PebblemqCfg) (now : Z)
    (topic : string) (st st1 : State) (r1 : result unit) (vs : list pageView) :
  OrderlyTopic cfg (kv st) topic vs ->
  expiredCleanUp cfg now noFaults topic st = (r1, st1) ->
  st1 = st \/
  (topicPages (kv st1) topic
   = drop (markedCount cfg now vs) (topicPages (kv st) topic) /\
   Forall2 (pageViewOf (kv st1) topic) (topicPages (kv st1) topic)
     (drop (markedCount cfg now vs) vs)).
Proof. exact (first_pass_outcome cfg now topic st st1 r1 vs). Qed.

Lemma orderly_pass_removes_marked_prefix_witness :
  exists st1,
    expiredCleanUp cfgTimeAndSize 1000 noFaults "T" stOrderly = (Ok tt, st1) /\
    topicPages (kv st1) "T" = [("page_msg_size/T/3", "5")].
Proof.
  eexists. split; [vm_compute; reflexivity |].
  destruct (orderly_pass_removes_marked_prefix cfgTimeAndSize 1000 "T" stOrderly
              _ (Ok tt) _ stOrderly_in_order ltac:(vm_compute; reflexivity))
    as [Hsame | [Hpages _]].
  - vm_compute. reflexivity.
  - rewrite Hpages. vm_compute. reflexivity.
Defined.

Lemma stOpenPage_in_order :
  OrderlyTopic cfgTimeAndSize (kv stOpenPage) "T"
    [ {| pvID := 1; pvSize := 5; pvAck := Some 100 |};
      {| pvID := 2; pvSize := 5; pvAck := None |} ].
Proof.
  constructor.
  - assert (Hpages : topicPages (kv stOpenPage) "T"
                     = [("page_msg_size/T/1", "5"); ("page_msg_size/T/2", "5")])
      by (vm_compute; reflexivity).
    rewrite Hpages.
    repeat (constructor; [repeat split; vm_compute; reflexivity |]).
    constructor.
  - cbn [map pvID]. repeat constructor; lia.
  - repeat constructor.
  - cbn [pvSize]. repeat constructor; cbn; lia.
  - vm_compute. discriminate.
  - vm_compute. discriminate.
  - change (Forall (fun t => Int64.inRange (t + 60)) [100]).
    repeat constructor; vm_compute; discriminate.
  - change (StronglySorted Z.le [100]).
    repeat constructor; lia.
Qed.

(** On a topic that meets [OrderlyTopic] - in particular, for any two
    pages with ids [p] and [q], the decimal of [p] is byte-wise below the
    decimal of [q + 1] exactly when [p <= q] - a pass with no commit refused
    and no read failing keeps every page that has no ack: its size entry is
    after the pass what it was before. Without the condition on the
    decimals the page can be evicted, as page 10 of [stUnackedTen] is. *)
Theorem orderly_pass_never_evicts_unacked (cfg : PebblemqCfg) (now : Z)
    (topic : string) (st st1 : State) (r1 : result unit) (vs : list pageView)
    (i : nat) (e : string * string) (v : pageView) :
  OrderlyTopic cfg (kv st) topic vs ->
  expiredCleanUp cfg now noFaults topic st = (r1, st1) ->
  topicPages (kv st) topic !! i = Some e -> vs !! i = Some v ->
  pvAck v = None ->
  kv st1 !! e.1 = Some e.2.
Proof. exact (orderly_pass_keeps_unacked cfg now topic st st1 r1 vs i e v). Qed.

(** On [stOpenPage] the pass evicts page 1 and keeps page 2, which has no
    ack, although the quota is zero. *)
Lemma orderly_pass_never_evicts_unacked_witness :
  exists st1,
    expiredCleanUp cfgTimeAndSize 1000 noFaults "T" stOpenPage = (Ok tt, st1) /\
    kv st1 !! "page_msg_size/T/1" = None /\
    kv st1 !! "page_msg_size/T/2" = Some "5".
Proof.
  eexists. split; [vm_compute; reflexivity |].
  split; [vm_compute; reflexivity |].
  apply (orderly_pass_never_evicts_unacked cfgTimeAndSize 1000 "T" stOpenPage _
           (Ok tt) _ 1%nat ("page_msg_size/T/2", "5")
           {| pvID := 2; pvSize := 5; pvAck := None |} stOpenPage_in_order).
  - vm_compute. reflexivity.
  - vm_compute. reflexivity.
  - reflexivity.
  - reflexivity.
Defined.

(** A successful [cleanData topic E] removes the three bookkeeping entries
    of every page whose id is at most [E] and is written with as many
    decimal digits as [E + 1]. *)
Theorem cleanData_removes_pages_of_equal_width (faults : Faults) (topic : string)
    (E : Z) (st st' : State) (k : nat) (p : Z) :
  cleanData faults topic E st = (Ok tt, st') ->
  (1 <= k <= 18)%nat ->
  10 ^ (Z.of_nat k - 1) <= p -> p <= E -> E + 1 < 10 ^ Z.of_nat k ->
  kv st' !! ((constructKey PageMsgSizeTitle topic +:+ "/")
             +:+ strconv.FormatInt p) = None /\
  kv st' !! ((constructKey PageTsTitle topic +:+ "/")
             +:+ strconv.FormatInt p) = None /\
  kv st' !! ((constructKey AckedTsTitle topic +:+ "/")
             +:+ strconv.FormatInt p) = None.
Proof. exact (cleanData_removes_same_width faults topic E st st' k p). Qed.

Lemma cleanData_removes_pages_of_equal_width_witness :
  exists st',
    cleanData noFaults "T" 2 stOrderly = (Ok tt, st') /\
    kv st' !! "page_msg_size/T/2" = None /\
    kv st' !! "page_ts/T/2" = None /\
    kv st' !! "acked_ts/T/2" = None.
Proof.
  eexists. split; [vm_compute; reflexivity |].
  apply (cleanData_removes_pages_of_equal_width noFaults "T" 2 stOrderly _ 1%nat 2).
  - vm_compute. reflexivity.
  - lia.
  - vm_compute. discriminate.
  - lia.
  - vm_compute. reflexivity.
Defined.

(** The scan of [calculateTopicAckedSize] and of [expiredCleanUp] visits
    the entries of the bookkeeping store whose key starts with
    [page_msg_size/{topic}/] and no other, each once, in ascending byte-wise
    order of the keys. *)
Theorem scan_visits_exactly_topic_prefix (m : gmap string string) (topic : string) :
  StronglySorted pebblekv.entryLe (topicPages m topic) /\
  NoDup (topicPages m topic).*1 /\
  forall k v, (k, v) ∈ topicPages m topic <->
              m !! k = Some v /\ exists r, k = pageMsgPrefixOf topic +:+ r.
Proof. exact (topicPages_spec m topic). Qed.

(** ** [DeleteMessages] *)

(** For a topic name that is not empty, not a dot and without a slash, a
    successful [DeleteMessages topic startID endID] removes the message
    keys [{topic}/s] with [s] from the decimal of [startID] up to, and not
    including, the decimal of [endID + 1] in byte-wise order, keeps the
    other keys [{topic}/s], and leaves the bookkeeping store alone. The
    range is one of strings, not of ids: the key of [endID] itself is in it
    only when its decimal is byte-wise below that of [endID + 1]. *)
Theorem DeleteMessages_byte_range (faults : Faults) (topic : string)
    (startID endID : Z) (st st' : State) :
  plainTopic topic ->
  DeleteMessages faults topic startID endID st = (Ok tt, st') ->
  kv st' = kv st /\
  forall s,
    db st' !! (topic +:+ "/" +:+ s) =
    if pebblekv.inRange (strconv.FormatInt startID)
         (strconv.FormatInt (Int64.add endID 1)) s
    then None else db st !! (topic +:+ "/" +:+ s).
Proof.
  intros (Hslash & Hne & Hdot). unfold DeleteMessages, Commit.
  destruct (dataCommitErr faults topic) as [e |]; [discriminate |].
  intros H; injection H as <-. cbn [db kv emit setStore getStore].
  split; [reflexivity |]. intros s.
  unfold pebblekv.applyBatch. cbn [fold_left pebblekv.applyOp].
  rewrite lookup_DeleteRange.
  destruct (FormatInt_plain startID) as [Hp0 Hn0].
  destruct (FormatInt_plain (Int64.add endID 1)) as [Hp1 Hn1].
  rewrite (path_Join_topic topic _ Hslash Hne Hdot Hp0 Hn0).
  rewrite (path_Join_topic topic _ Hslash Hne Hdot Hp1 Hn1).
  rewrite <- !(append_assoc topic "/" _).
  rewrite inRange_app_common. reflexivity.
Qed.

(** [DeleteMessages] of the ids 0 to 2 of topic [T] removes the message of
    id 2 and keeps that of id 3; [DeleteMessages] of the ids 0 to 9 keeps
    the message of id 9, since [9] is byte-wise above [10]. *)
Lemma DeleteMessages_byte_range_witness :
  (exists st',
     DeleteMessages noFaults "T" 0 2 stOrderly = (Ok tt, st') /\
     db st' !! "T/2" = None /\ db st' !! "T/3" = Some "m3") /\
  (exists st',
     DeleteMessages noFaults "T" 0 9 stPageNine = (Ok tt, st') /\
     db st' !! "T/9" = Some "m9").
Proof.
  split.
  - eexists. split; [vm_compute; reflexivity |].
    destruct (DeleteMessages_byte_range noFaults "T" 0 2 stOrderly _
                ltac:(split; [reflexivity | split; discriminate])
                ltac:(vm_compute; reflexivity)) as [_ Hdb].
    split.
    + exact (Hdb "2").
    + exact (Hdb "3").
  - eexists. split; [vm_compute; reflexivity |].
    destruct (DeleteMessages_byte_range noFaults "T" 0 9 stPageNine _
                ltac:(split; [reflexivity | split; discriminate])
                ltac:(vm_compute; reflexivity)) as [_ Hdb].
    exact (Hdb "9").
Defined.
